(** * pdfium_fast: parallel rendering engine, checked against its source

    A shallow embedding of the parts of the repository that the
    specification's claims talk about:

    - [Dims]    page pixel dimensions from a DPI
                (examples/pdfium_cli.cpp, fpdfsdk/fpdf_parallel.cpp);
    - [Hybrid]  thread-count capping of the command line front end;
    - [Json]    JSONL string escaping;
    - [Smart]   the scanned-page JPEG fast path;
    - [Holder]  CPDF_IndirectObjectHolder, the indirect-object cache;
    - [Pool]    GlobalThreadPool, as an interleaving transition system;
    - [Render]  the sequence of parser-library calls each render path issues.

    and of the code around them:

    - [HolderLaws]  how the operations of the indirect-object cache compose;
    - [Split]       the page ranges of the worker processes;
    - [Text]        text extraction: transcoding and the output file;
    - [Glob]        the file name patterns of batch mode;
    - [Api]         the entry points of the parallel renderer;
    - [RenderLaws]  page handle, callback and form calls on each render path;
    - [DimsLaws]    the pixel sizes of the command line and of the library;
    - [Ranges]      the page ranges rendered beside the JPEG fast path;
    - [BitmapPool]  the per-thread bitmap pool;
    - [Pages]       page handles over a whole call;
    - [Writer]      the pool of writer threads;
    - [Bulk]        the exit code of render_pages_bulk;
    - [Ppm]         PPM output;
    - [Threads]     one thread and several threads compared.

    C++ [int] is a 32-bit two's complement integer, modelled in [Z] with the
    range written out.  A C++ [double] is modelled twice: by its exact
    rational value in [Q] (general statements) and by the kernel's binary64
    floats (evaluation of concrete inputs). *)

From stdpp Require Import gmap gmultiset list.
From Stdlib Require Import ZArith QArith Qround Lia List Floats Ascii String.
Import ListNotations.

Local Open Scope Z_scope.

(* ===================================================================== *)
(** ** Machine integers *)

Definition INT_MAX : Z := 2147483647.
Definition INT_MIN : Z := -2147483648.
Definition UINT32_MAX : Z := 4294967295.

Definition in_int (z : Z) : bool := (INT_MIN <=? z) && (z <=? INT_MAX).

(* ===================================================================== *)
(** ** Page pixel dimensions *)

Module Dims.

(** The outcome of the dimension computation of one page.  [DimsUndefined]
    is a [static_cast<int>] applied to a value that does not fit an [int]:
    the C++ standard leaves that conversion undefined. *)
Inductive dims : Type :=
| DimsOk (width_px height_px : Z)
| DimsReject
| DimsUndefined.

(** *** Exact reading: a [double] is the rational it denotes *)

(** [floor(scale_raw * 1000000.0) / 1000000.0] with [scale_raw = dpi / 72.0]. *)
Definition scale_of_dpi (dpi : Q) : Q :=
  (inject_Z (Qfloor (dpi / 72 * 1000000)) / 1000000)%Q.

(** Truncation toward zero, the value of [(int)x] when it is representable. *)
Definition Qtrunc (x : Q) : Z := Z.quot (Qnum x) (Zpos (Qden x)).

Definition cast_int (x : Q) : option Z :=
  let t := Qtrunc x in if in_int t then Some t else None.

Definition Qltb (x y : Q) : bool := negb (Qle_bool y x).

(** render_page_to_png, pdfium_cli.cpp: the guard comes before the casts. *)
Definition render_page_to_png_dims (dpi width_pts height_pts : Q) : dims :=
  let scale := scale_of_dpi dpi in
  let width_raw := (width_pts * scale)%Q in
  let height_raw := (height_pts * scale)%Q in
  if Qltb (inject_Z INT_MAX) width_raw || Qltb width_raw 1
     || Qltb (inject_Z INT_MAX) height_raw || Qltb height_raw 1
  then DimsReject
  else match cast_int width_raw, cast_int height_raw with
       | Some w, Some h => DimsOk w h
       | _, _ => DimsUndefined
       end.

(** ProcessTaskV2 and the sequential path of FPDF_RenderPagesParallelV2,
    fpdf_parallel.cpp: the casts come first, then [< 1] on the results. *)
Definition ProcessTaskV2_dims (dpi width_pts height_pts : Q) : dims :=
  let scale := scale_of_dpi dpi in
  match cast_int (width_pts * scale)%Q, cast_int (height_pts * scale)%Q with
  | Some actual_width, Some actual_height =>
      if (actual_width <? 1) || (actual_height <? 1) then DimsReject
      else DimsOk actual_width actual_height
  | _, _ => DimsUndefined
  end.



(** *** Binary64 reading: the kernel's floats *)

Module B64.

(** [floor] of math.h.  A finite double with a non-negative exponent is an
    integer already; otherwise the integer part has fewer than 53 bits and
    converts back exactly. *)
Definition floor (x : float) : float :=
  match Prim2SF x with
  | S754_finite s m e =>
      if 0 <=? e then x
      else
        let q := Z.pos m / 2 ^ (- e) in
        let r := Z.pos m mod 2 ^ (- e) in
        if s then
          PrimFloat.opp (PrimFloat.of_uint63 (Uint63.of_Z (if r =? 0 then q else q + 1)))
        else PrimFloat.of_uint63 (Uint63.of_Z q)
  | _ => x
  end.

(** The integer a finite double truncates to. *)
Definition trunc (x : float) : option Z :=
  match Prim2SF x with
  | S754_zero _ => Some 0
  | S754_finite s m e =>
      let a := if 0 <=? e then Z.pos m * 2 ^ e else Z.pos m / 2 ^ (- e) in
      Some (if s then - a else a)
  | _ => None
  end.

(** [static_cast<int>(x)]. *)
Definition cast_int (x : float) : option Z :=
  match trunc x with
  | Some t => if in_int t then Some t else None
  | None => None
  end.

Definition scale_of_dpi (dpi : float) : float :=
  (floor (dpi / 72 * 1000000) / 1000000)%float.

Definition fINT_MAX : float := 2147483647%float.

Definition render_page_to_png_dims (dpi width_pts height_pts : float) : dims :=
  let scale := scale_of_dpi dpi in
  let width_raw := (width_pts * scale)%float in
  let height_raw := (height_pts * scale)%float in
  if PrimFloat.ltb fINT_MAX width_raw || PrimFloat.ltb width_raw 1
     || PrimFloat.ltb fINT_MAX height_raw || PrimFloat.ltb height_raw 1
  then DimsReject
  else match cast_int width_raw, cast_int height_raw with
       | Some w, Some h => DimsOk w h
       | _, _ => DimsUndefined
       end.

Definition ProcessTaskV2_dims (dpi width_pts height_pts : float) : dims :=
  let scale := scale_of_dpi dpi in
  match cast_int (width_pts * scale)%float, cast_int (height_pts * scale)%float with
  | Some actual_width, Some actual_height =>
      if (actual_width <? 1) || (actual_height <? 1) then DimsReject
      else DimsOk actual_width actual_height
  | _, _ => DimsUndefined
  end.

End B64.

(** *** Facts about the exact reading *)

Lemma Qltb_true (x y : Q) : Qltb x y = true <-> (x < y)%Q.
Proof.
  unfold Qltb. rewrite Bool.negb_true_iff, <- Bool.not_true_iff_false, Qle_bool_iff.
  split; [apply Qnot_le_lt | apply Qlt_not_le].
Qed.

Lemma Qltb_false (x y : Q) : Qltb x y = false <-> (y <= x)%Q.
Proof.
  unfold Qltb. rewrite Bool.negb_false_iff. apply Qle_bool_iff.
Qed.

(** Truncation and floor agree on non-negative values. *)
Lemma Qtrunc_Qfloor (x : Q) : (0 <= x)%Q -> Qtrunc x = Qfloor x.
Proof.
  destruct x as [n d]. unfold Qle, Qtrunc, Qfloor. simpl. intros Hn.
  apply Z.quot_div_nonneg; lia.
Qed.



Lemma in_range_cast (x : Q) :
  (1 <= x)%Q -> (x <= inject_Z INT_MAX)%Q ->
  cast_int x = Some (Qfloor x) /\ 1 <= Qfloor x <= INT_MAX.
Proof.
  intros Hlo Hhi.
  assert (H0 : (0 <= x)%Q) by (eapply Qle_trans; [| exact Hlo]; discriminate).
  assert (Hf : 1 <= Qfloor x <= INT_MAX).
  { split.
    - change 1 with (Qfloor (inject_Z 1)). now apply Qfloor_resp_le.
    - rewrite <- (Qfloor_Z INT_MAX). now apply Qfloor_resp_le. }
  split; [| exact Hf].
  unfold cast_int. rewrite (Qtrunc_Qfloor x H0).
  unfold in_int, INT_MIN, INT_MAX in *.
  destruct (Z.leb_spec (-2147483648) (Qfloor x)); [| lia].
  destruct (Z.leb_spec (Qfloor x) 2147483647); [reflexivity | lia].
Qed.

(** What the guard of render_page_to_png decides. *)
Lemma render_page_to_png_dims_spec (dpi w h : Q) :
  let wr := (w * scale_of_dpi dpi)%Q in
  let hr := (h * scale_of_dpi dpi)%Q in
  if Qltb (inject_Z INT_MAX) wr || Qltb wr 1
     || Qltb (inject_Z INT_MAX) hr || Qltb hr 1
  then render_page_to_png_dims dpi w h = DimsReject
  else render_page_to_png_dims dpi w h = DimsOk (Qfloor wr) (Qfloor hr)
       /\ 1 <= Qfloor wr <= INT_MAX /\ 1 <= Qfloor hr <= INT_MAX.
Proof.
  intros wr hr. unfold render_page_to_png_dims. fold wr hr.
  destruct (Qltb (inject_Z INT_MAX) wr) eqn:E1; [reflexivity |].
  destruct (Qltb wr 1) eqn:E2; [reflexivity |].
  destruct (Qltb (inject_Z INT_MAX) hr) eqn:E3; [reflexivity |].
  destruct (Qltb hr 1) eqn:E4; [reflexivity |].
  cbn [orb].
  apply Qltb_false in E1, E2, E3, E4.
  destruct (in_range_cast wr E2 E1) as [-> Hw].
  destruct (in_range_cast hr E4 E3) as [-> Hh].
  auto.
Qed.

(** The command line path never reaches an undefined conversion. *)
Lemma render_page_to_png_dims_defined (dpi w h : Q) : render_page_to_png_dims dpi w h <> DimsUndefined.
Proof.
  pose proof (render_page_to_png_dims_spec dpi w h) as H. cbv zeta in H.
  destruct (_ || _) in H.
  - rewrite H. discriminate.
  - destruct H as [-> _]. discriminate.
Qed.

(** A raw dimension of at least [INT_MAX + 1] has no [int] to convert to. *)
Lemma cast_int_overflow (x : Q) : (inject_Z (INT_MAX + 1) <= x)%Q -> cast_int x = None.
Proof.
  intros Hx.
  assert (H0 : (0 <= x)%Q) by (eapply Qle_trans; [| exact Hx]; discriminate).
  unfold cast_int. rewrite (Qtrunc_Qfloor x H0).
  assert (Hf : INT_MAX + 1 <= Qfloor x).
  { rewrite <- (Qfloor_Z (INT_MAX + 1)). now apply Qfloor_resp_le. }
  unfold in_int, INT_MIN, INT_MAX in *.
  destruct (Z.leb_spec (Qfloor x) 2147483647); [lia |].
  now rewrite Bool.andb_false_r.
Qed.

Lemma ProcessTaskV2_dims_overflow (dpi w h : Q) :
  (inject_Z (INT_MAX + 1) <= w * scale_of_dpi dpi)%Q ->
  ProcessTaskV2_dims dpi w h = DimsUndefined.
Proof.
  intros Hx. unfold ProcessTaskV2_dims. now rewrite (cast_int_overflow _ Hx).
Qed.

Lemma render_page_to_png_dims_overflow (dpi w h : Q) :
  (inject_Z INT_MAX < w * scale_of_dpi dpi)%Q ->
  render_page_to_png_dims dpi w h = DimsReject.
Proof.
  intros Hx. unfold render_page_to_png_dims.
  apply Qltb_true in Hx. now rewrite Hx.
Qed.

(** What ProcessTaskV2 computes when both conversions are defined and the
    results pass its [< 1] test. *)
Lemma ProcessTaskV2_dims_ok (dpi w h : Q) (W H : Z) :
  ProcessTaskV2_dims dpi w h = DimsOk W H ->
  W = Qfloor (w * scale_of_dpi dpi) /\ H = Qfloor (h * scale_of_dpi dpi).
Proof.
  unfold ProcessTaskV2_dims, cast_int.
  destruct (in_int (Qtrunc (w * scale_of_dpi dpi))); [| discriminate].
  destruct (in_int (Qtrunc (h * scale_of_dpi dpi))); [| discriminate].
  destruct (Z.ltb_spec (Qtrunc (w * scale_of_dpi dpi)) 1) as [|Hw]; [discriminate |].
  destruct (Z.ltb_spec (Qtrunc (h * scale_of_dpi dpi)) 1) as [|Hh]; [discriminate |].
  cbn [orb]. intros [= <- <-].
  assert (Hpos : forall x : Q, 1 <= Qtrunc x -> (0 <= x)%Q).
  { intros [n d]. unfold Qtrunc, Qle. simpl. intros Hq.
    destruct (Z.lt_ge_cases n 0) as [Hn|Hn]; [| lia].
    pose proof (Z.quot_opp_l n (Z.pos d) ltac:(lia)) as Ho.
    pose proof (Z.quot_pos (- n) (Z.pos d) ltac:(lia) ltac:(lia)). lia. }
  split; apply Qtrunc_Qfloor; auto.
Qed.

(** *** US Letter at 300 DPI *)



Example letter_300dpi_binary64 :
  B64.render_page_to_png_dims 300 612 792 = DimsOk 2549 3299
  /\ B64.ProcessTaskV2_dims 300 612 792 = DimsOk 2549 3299.
Proof. split; vm_compute; reflexivity. Qed.




(** *** A page too large for an [int] *)

(** A raw width between INT_MAX and INT_MAX + 1 (524288 points at a scale
    of 4095.999999): render_page_to_png rejects the page, ProcessTaskV2
    goes on with a width of INT_MAX and leaves the failing to the bitmap
    pool. *)
Example just_above_int_max :
  render_page_to_png_dims 294911.99993896484375 524288 1 = DimsReject
  /\ ProcessTaskV2_dims 294911.99993896484375 524288 1 = DimsOk INT_MAX 4095
  /\ B64.render_page_to_png_dims 294911.99993896484375 524288 1 = DimsReject
  /\ B64.ProcessTaskV2_dims 294911.99993896484375 524288 1 = DimsOk INT_MAX 4095.
Proof. repeat split; vm_compute; reflexivity. Qed.


End Dims.

(* ===================================================================== *)
(** ** Thread-count capping in the command line front end *)

Module Hybrid.

Definition MAX_WORKERS : Z := 16.

(** [--threads val] in main: accepted for 1 <= val <= 32, then clamped to
    min(16, hardware_concurrency), 16 when the hardware is unknown.  The
    result carries whether the clamping note is printed. *)
Definition parse_threads (hw_threads val : Z) : option (Z * bool) :=
  if (1 <=? val) && (val <=? 32) then
    let max_threads := Z.min 16 (if 0 <? hw_threads then hw_threads else 16) in
    let thread_count := Z.min val max_threads in
    Some (thread_count, negb (thread_count =? val))
  else None.

(** The hybrid N x K block of main, after the operation is parsed.  Returns
    the thread count handed on and whether the note is printed. *)
Definition hybrid_cap (hardware_concurrency worker_count thread_count : Z) : Z * bool :=
  if (1 <? worker_count) && (1 <? thread_count) then
    let hw_concurrency :=
      if hardware_concurrency =? 0 then 8 else hardware_concurrency in
    let total_threads := worker_count * thread_count in
    if hw_concurrency <? total_threads then
      let new_thread_count := Z.max 1 (hw_concurrency / worker_count) in
      (new_thread_count, true)
    else (thread_count, false)
  else (thread_count, false).

(** The per-worker cap at the top of render_pages_worker, run in the child. *)
Definition worker_thread_cap (hardware_concurrency thread_count : Z) : Z :=
  let hw_threads := if hardware_concurrency <? 1 then 4 else hardware_concurrency in
  let max_per_worker := Z.min hw_threads 16 in
  if max_per_worker <? thread_count then max_per_worker else thread_count.

(** One forked child of render_pages_fast: the arguments of its exec. *)
Record child := Child {
  worker_id : Z;
  worker_start : Z;
  worker_end : Z;          (* exclusive *)
  child_threads : Z
}.

(** The spawning loop of render_pages_fast over worker ids [worker_id ..],
    with [n] iterations left; [thread_count] is passed through unchanged. *)
Fixpoint spawn_from (n : nat) (worker_id start_page end_page pages_per_worker
                     thread_count : Z) : list child :=
  match n with
  | O => []
  | S n' =>
      let worker_start := start_page + worker_id * pages_per_worker in
      let worker_end0 := worker_start + pages_per_worker in
      let worker_end := if end_page + 1 <? worker_end0 then end_page + 1 else worker_end0 in
      if end_page <? worker_start then []
      else Child worker_id worker_start worker_end thread_count
           :: spawn_from n' (worker_id + 1) start_page end_page pages_per_worker
                thread_count
  end.

Definition render_pages_fast (worker_count start_page end_page thread_count : Z)
  : list child :=
  let page_count := end_page - start_page + 1 in
  let pages_per_worker := (page_count + worker_count - 1) / worker_count in
  spawn_from (Z.to_nat worker_count) 0 start_page end_page pages_per_worker thread_count.

(** The hardware thread count the parent uses: 8 when it cannot be found. *)
Definition H_of (hardware_concurrency : Z) : Z :=
  if hardware_concurrency =? 0 then 8 else hardware_concurrency.

(** main for a render with [--workers worker_count]: cap, then spawn.  The
    result is the note flag, the children as spawned, and the thread count
    each child settles on after its own cap. *)
Definition main_render (hardware_concurrency worker_count thread_count
                        start_page end_page : Z) : bool * list child * list Z :=
  let '(tc, note) := hybrid_cap hardware_concurrency worker_count thread_count in
  let children := render_pages_fast worker_count start_page end_page tc in
  (note, children,
   map (fun c => worker_thread_cap hardware_concurrency (child_threads c)) children).

Lemma spawn_from_threads n wid sp ep ppw tc :
  Forall (fun c => child_threads c = tc) (spawn_from n wid sp ep ppw tc).
Proof.
  revert wid. induction n as [| n IH]; intros wid; simpl.
  - constructor.
  - destruct (ep <? sp + wid * ppw); constructor; [reflexivity | apply IH].
Qed.

Lemma spawn_from_nonempty n sp ep ppw tc :
  sp <= ep -> spawn_from (S n) 0 sp ep ppw tc <> [].
Proof.
  intros Hle. simpl. rewrite Z.mul_0_l, Z.add_0_r.
  destruct (Z.ltb_spec ep sp); [lia | discriminate].
Qed.

(** The core of the cap: reducing only when [wc * tc > H] is the same as
    taking the minimum with [max 1 (H / wc)]. *)
Lemma hybrid_cap_is_min (hw wc tc : Z) :
  1 < wc -> 1 < tc -> 0 <= hw ->
  fst (hybrid_cap hw wc tc) = Z.min tc (Z.max 1 (H_of hw / wc))
  /\ snd (hybrid_cap hw wc tc) = negb (fst (hybrid_cap hw wc tc) =? tc).
Proof.
  intros Hwc Htc Hhw. unfold hybrid_cap, H_of.
  destruct (Z.ltb_spec 1 wc) as [_ |]; [| lia].
  destruct (Z.ltb_spec 1 tc) as [_ |]; [| lia].
  cbn [andb]. set (Hn := if hw =? 0 then 8 else hw).
  assert (HH : 0 < Hn) by (subst Hn; destruct (Z.eqb_spec hw 0); lia).
  pose proof (Z.mul_div_le Hn wc ltac:(lia)) as Hlo.
  pose proof (Z.mul_succ_div_gt Hn wc ltac:(lia)) as Hhi.
  destruct (Z.ltb_spec Hn (wc * tc)) as [Hgt | Hle]; cbn [fst snd].
  - assert (Hlt : Hn / wc < tc) by nia.
    split; [lia |].
    destruct (Z.eqb_spec (Z.max 1 (Hn / wc)) tc); [lia | reflexivity].
  - assert (Hge : tc <= Hn / wc) by (apply Z.div_le_lower_bound; lia).
    split; [lia | now rewrite Z.eqb_refl].
Qed.

Lemma worker_thread_cap_id (hw tc : Z) :
  0 <= hw -> 1 <= tc <= 16 -> tc <= Z.max 1 (H_of hw / 2) ->
  worker_thread_cap hw tc = tc.
Proof.
  intros Hhw Htc Hcap. unfold worker_thread_cap, H_of in *.
  destruct (Z.ltb_spec hw 1) as [Hz | Hp].
  - assert (hw = 0) as -> by lia.
    change (Z.max 1 ((if 0 =? 0 then 8 else 0) / 2)) with 4 in Hcap.
    change (Z.min 4 16) with 4.
    destruct (Z.ltb_spec 4 tc); [lia | reflexivity].
  - destruct (Z.eqb_spec hw 0); [lia |].
    pose proof (Z.mul_div_le hw 2 ltac:(lia)).
    destruct (Z.ltb_spec (Z.min hw 16) tc); [lia | reflexivity].
Qed.

(** C4: in the hybrid case the thread count is capped at
    [max 1 (H / worker_count)] before the children are spawned, every child
    is started with, and keeps, the capped count, and the note is printed
    exactly when the count was reduced; with 16 workers and 16 threads on
    8 hardware threads each child runs 1 thread and the note is printed
    (also when the 16 is first clamped to 8 by the parsing of --threads).
    [thread_count] is at most 16 once main has parsed its arguments. *)
Theorem hybrid_thread_cap (hw wc tc sp ep : Z) :
  0 <= hw -> 1 < wc <= MAX_WORKERS -> 1 < tc <= 16 -> sp <= ep ->
  let cap := Z.min tc (Z.max 1 (H_of hw / wc)) in
  let '(note, children, settled) := main_render hw wc tc sp ep in
  children <> []
  /\ Forall (fun c => child_threads c = cap) children
  /\ Forall (fun k => k = cap) settled
  /\ note = negb (cap =? tc)
  /\ hybrid_cap 8 16 16 = (1, true)
  /\ parse_threads 8 16 = Some (8, true)
  /\ hybrid_cap 8 16 8 = (1, true)
  /\ worker_thread_cap 8 1 = 1.
Proof.
  intros Hhw Hwc Htc Hrange cap. unfold main_render.
  destruct (hybrid_cap_is_min hw wc tc ltac:(lia) ltac:(lia) Hhw) as [Hfst Hsnd].
  destruct (hybrid_cap hw wc tc) as [tc' note] eqn:Ecap. cbn [fst snd] in *.
  fold cap in Hfst. subst tc'.
  pose proof (spawn_from_threads (Z.to_nat wc) 0 sp ep
                ((ep - sp + 1 + wc - 1) / wc) cap) as Hall.
  assert (Hcap : worker_thread_cap hw cap = cap).
  { apply worker_thread_cap_id; [exact Hhw | subst cap; lia |].
    assert (Hmono : H_of hw / wc <= H_of hw / 2).
    { apply Z.div_le_compat_l; [| lia].
      unfold H_of. destruct (Z.eqb_spec hw 0); lia. }
    subst cap. lia. }
  repeat split.
  - unfold render_pages_fast.
    destruct (Z.to_nat wc) as [| n] eqn:En; [lia |].
    now apply spawn_from_nonempty.
  - exact Hall.
  - unfold render_pages_fast. rewrite Forall_map.
    eapply Forall_impl; [| exact Hall].
    simpl. intros c ->. exact Hcap.
  - exact Hsnd.
Qed.

Lemma hybrid_thread_cap_witness :
  main_render 8 16 16 0 999
  = (true,
     map (fun i => Child i (i * 63) (Z.min 1000 (i * 63 + 63)) 1)
         [0;1;2;3;4;5;6;7;8;9;10;11;12;13;14;15],
     [1;1;1;1;1;1;1;1;1;1;1;1;1;1;1;1])
  /\ Forall (fun c => child_threads c = 1) (snd (fst (main_render 8 16 16 0 999))).
Proof.
  split; [vm_compute; reflexivity |].
  pose proof (hybrid_thread_cap 8 16 16 0 999
                ltac:(lia) ltac:(unfold MAX_WORKERS; lia) ltac:(lia) ltac:(lia)) as Hcap.
  cbv zeta in Hcap.
  destruct (main_render 8 16 16 0 999) as [[note children] settled].
  destruct Hcap as (_ & Hchildren & _). exact Hchildren.
Defined.

End Hybrid.

(* ===================================================================== *)
(** ** JSONL string escaping *)

Module Json.

(** Bytes are the values 0..255 of [unsigned char]; a C string is the run
    of bytes before the first NUL of its buffer. *)
Definition byte_of (z : Z) : Z := z mod 256.      (* the cast [(char)z] *)

Fixpoint c_str (buf : list Z) : list Z :=
  match buf with
  | [] => []
  | b :: rest => if b =? 0 then [] else b :: c_str rest
  end.

(** One lower-case hexadecimal digit, as printf's [%x] prints it. *)
Definition hex_digit (d : Z) : Z := if d <? 10 then 48 + d else 87 + d.

(** The [fprintf] of backslash, u and [%04x] for a byte [v]. *)
Definition fmt_u04x (v : Z) : list Z :=
  [92; 117; hex_digit (v / 4096 mod 16); hex_digit (v / 256 mod 16);
   hex_digit (v / 16 mod 16); hex_digit (v mod 16)].

(** The body of the loop of write_json_escaped_string for one byte [*p]. *)
Definition escape_byte (p : Z) : list Z :=
  if p =? 34 then [92; 34]             (* case double quote *)
  else if p =? 92 then [92; 92]        (* case backslash *)
  else if p =? 10 then [92; 110]       (* case '\n' *)
  else if p =? 13 then [92; 114]       (* case '\r' *)
  else if p =? 9 then [92; 116]        (* case '\t' *)
  else if p =? 8 then [92; 98]         (* case '\b' *)
  else if p =? 12 then [92; 102]       (* case '\f' *)
  else if p <? 32 then fmt_u04x p      (* unsigned value below 0x20 *)
  else [p].                            (* fputc of the byte *)

Definition json_body (s : list Z) : list Z := flat_map escape_byte s.

(** write_json_escaped_string; [None] is the null pointer. *)
Definition write_json_escaped_string (str : option (list Z)) : list Z :=
  match str with
  | None => [110; 117; 108; 108]       (* null *)
  | Some buf => [34] ++ json_body (c_str buf) ++ [34]
  end.

(** The buffer write_json_escaped_char fills: UTF-8 of the code point. *)
Definition utf8_buf (codepoint : Z) : list Z :=
  if codepoint <? 128 then
    [byte_of codepoint; 0; 0; 0; 0]
  else if codepoint <? 2048 then
    [byte_of (Z.lor 192 (Z.shiftr codepoint 6));
     byte_of (Z.lor 128 (Z.land codepoint 63)); 0; 0; 0]
  else if codepoint <? 65536 then
    [byte_of (Z.lor 224 (Z.shiftr codepoint 12));
     byte_of (Z.lor 128 (Z.land (Z.shiftr codepoint 6) 63));
     byte_of (Z.lor 128 (Z.land codepoint 63)); 0; 0]
  else if codepoint <? 1114112 then
    [byte_of (Z.lor 240 (Z.shiftr codepoint 18));
     byte_of (Z.lor 128 (Z.land (Z.shiftr codepoint 12) 63));
     byte_of (Z.lor 128 (Z.land (Z.shiftr codepoint 6) 63));
     byte_of (Z.lor 128 (Z.land codepoint 63)); 0]
  else [239; 191; 189; 0; 0].          (* U+FFFD *)

Definition write_json_escaped_char (codepoint : Z) : list Z :=
  write_json_escaped_string (Some (utf8_buf codepoint)).

(** A reader of JSON string bodies (RFC 8259, restricted to escapes that
    denote one byte), used to say what escaping means. *)
Definition unhex (b : Z) : option Z :=
  if (48 <=? b) && (b <=? 57) then Some (b - 48)
  else if (97 <=? b) && (b <=? 102) then Some (b - 87)
  else if (65 <=? b) && (b <=? 70) then Some (b - 55)
  else None.

Definition unhex4 (h3 h2 h1 h0 : Z) : option Z :=
  match unhex h3, unhex h2, unhex h1, unhex h0 with
  | Some a, Some b, Some c, Some d => Some (((a * 16 + b) * 16 + c) * 16 + d)
  | _, _, _, _ => None
  end.

Definition simple_escape (e : Z) : option Z :=
  if e =? 34 then Some 34 else if e =? 92 then Some 92
  else if e =? 47 then Some 47
  else if e =? 110 then Some 10 else if e =? 114 then Some 13
  else if e =? 116 then Some 9 else if e =? 98 then Some 8
  else if e =? 102 then Some 12 else None.

Fixpoint json_unescape (s : list Z) : option (list Z) :=
  match s with
  | [] => Some []
  | c :: rest =>
      if c =? 92 then
        match rest with
        | [] => None
        | e :: r =>
            if e =? 117 then
              match r with
              | h3 :: h2 :: h1 :: h0 :: r' =>
                  match unhex4 h3 h2 h1 h0 with
                  | Some v =>
                      if v <? 256 then option_map (cons v) (json_unescape r')
                      else None
                  | None => None
                  end
              | _ => None
              end
            else
              match simple_escape e with
              | Some v => option_map (cons v) (json_unescape r)
              | None => None
              end
        end
      else if (c <? 32) || (c =? 34) then None
      else option_map (cons c) (json_unescape rest)
  end.

Definition is_cstring (s : list Z) : Prop := Forall (fun b => 0 < b < 256) s.

(** *** Escaping can be undone *)

Lemma escape_byte_high (b : Z) : 32 <= b -> b <> 34 -> b <> 92 -> escape_byte b = [b].
Proof.
  intros H32 H34 H92. unfold escape_byte.
  repeat match goal with
         | |- context [?x =? ?y] => destruct (Z.eqb_spec x y); [lia |]
         end.
  destruct (Z.ltb_spec b 32); [lia | reflexivity].
Qed.

Lemma unescape_escape_byte (b : Z) (rest : list Z) :
  0 < b < 256 ->
  json_unescape (escape_byte b ++ rest) = option_map (cons b) (json_unescape rest).
Proof.
  intros Hb.
  destruct (Z.lt_ge_cases b 32) as [Hlow | Hhigh].
  - assert (Hin : In b [1;2;3;4;5;6;7;8;9;10;11;12;13;14;15;16;17;18;19;20;
                        21;22;23;24;25;26;27;28;29;30;31]) by (simpl; lia).
    simpl in Hin.
    repeat (destruct Hin as [<- | Hin]; [reflexivity |]).
    contradiction.
  - destruct (Z.eq_dec b 34) as [-> | H34]; [reflexivity |].
    destruct (Z.eq_dec b 92) as [-> | H92]; [reflexivity |].
    rewrite (escape_byte_high b Hhigh H34 H92). cbn [app json_unescape].
    destruct (Z.eqb_spec b 92); [lia |].
    destruct (Z.ltb_spec b 32); [lia |].
    destruct (Z.eqb_spec b 34); [lia | reflexivity].
Qed.

Lemma json_unescape_body (s : list Z) :
  is_cstring s -> json_unescape (json_body s) = Some s.
Proof.
  unfold is_cstring, json_body. induction 1 as [| b s Hb Hs IH]; [reflexivity |].
  cbn [flat_map]. rewrite (unescape_escape_byte b _ Hb), IH. reflexivity.
Qed.

(** No control byte, and no byte outside 0..255, reaches the output. *)
Lemma escape_byte_printable (b : Z) :
  0 < b < 256 -> Forall (fun o => 32 <= o < 256) (escape_byte b).
Proof.
  intros Hb.
  destruct (Z.lt_ge_cases b 32) as [Hlow | Hhigh].
  - assert (Hin : In b [1;2;3;4;5;6;7;8;9;10;11;12;13;14;15;16;17;18;19;20;
                        21;22;23;24;25;26;27;28;29;30;31]) by (simpl; lia).
    simpl in Hin.
    repeat (destruct Hin as [<- | Hin];
            [vm_compute; repeat constructor; discriminate |]).
    contradiction.
  - destruct (Z.eq_dec b 34) as [-> | H34];
      [vm_compute; repeat constructor; discriminate |].
    destruct (Z.eq_dec b 92) as [-> | H92];
      [vm_compute; repeat constructor; discriminate |].
    rewrite (escape_byte_high b Hhigh H34 H92). repeat constructor; lia.
Qed.

Lemma json_body_printable (s : list Z) :
  is_cstring s -> Forall (fun o => 32 <= o < 256) (json_body s).
Proof.
  unfold is_cstring, json_body. induction 1 as [| b s Hb Hs IH]; [constructor |].
  cbn [flat_map]. apply Forall_app. split; [now apply escape_byte_printable | exact IH].
Qed.

Lemma c_str_id (s : list Z) (pad : list Z) :
  is_cstring s -> c_str (s ++ 0 :: pad) = s.
Proof.
  unfold is_cstring. induction 1 as [| b s Hb Hs IH]; [reflexivity |].
  cbn [app c_str]. destruct (Z.eqb_spec b 0); [lia |]. now rewrite IH.
Qed.

(** *** The UTF-8 bytes of a non-ASCII code point *)

Lemma Zrange_forallb (f : Z -> bool) (n : nat) :
  forallb f (map Z.of_nat (seq 0 n)) = true ->
  forall x, 0 <= x < Z.of_nat n -> f x = true.
Proof.
  intros Hall x Hx. rewrite forallb_forall in Hall. apply Hall.
  rewrite in_map_iff. exists (Z.to_nat x). split; [lia |].
  apply in_seq. lia.
Qed.

Lemma lor_lead (hi x : Z) :
  In hi [128; 192] -> 0 <= x < 64 -> Z.lor hi x = hi + x.
Proof.
  intros Hhi Hx. simpl in Hhi.
  destruct Hhi as [<- | [<- | []]]; apply Z.eqb_eq;
    revert x Hx; apply (Zrange_forallb _ 64); vm_compute; reflexivity.
Qed.

Lemma lor_lead16 (hi x : Z) :
  In hi [224; 240] -> 0 <= x < 16 -> Z.lor hi x = hi + x.
Proof.
  intros Hhi Hx. simpl in Hhi.
  destruct Hhi as [<- | [<- | []]]; apply Z.eqb_eq;
    revert x Hx; apply (Zrange_forallb _ 16); vm_compute; reflexivity.
Qed.

Lemma cont_byte (x : Z) :
  0 <= x ->
  byte_of (Z.lor 128 (Z.land x 63)) = 128 + x mod 64
  /\ 128 <= 128 + x mod 64 < 192.
Proof.
  intros Hx. change 63 with (Z.ones 6). rewrite Z.land_ones by lia.
  change (2 ^ 6) with 64.
  pose proof (Z.mod_pos_bound x 64 ltac:(lia)) as Hm.
  rewrite lor_lead by (simpl; auto || lia).
  unfold byte_of. rewrite Z.mod_small by lia. lia.
Qed.

(** UTF-8 as arithmetic on the code point. *)
Definition utf8_encode (cp : Z) : list Z :=
  if cp <? 128 then [cp]
  else if cp <? 2048 then [192 + cp / 64; 128 + cp mod 64]
  else if cp <? 65536 then
    [224 + cp / 4096; 128 + cp / 64 mod 64; 128 + cp mod 64]
  else if cp <? 1114112 then
    [240 + cp / 262144; 128 + cp / 4096 mod 64; 128 + cp / 64 mod 64;
     128 + cp mod 64]
  else [239; 191; 189].

Lemma utf8_buf_nonascii (cp : Z) :
  128 <= cp ->
  c_str (utf8_buf cp) = utf8_encode cp
  /\ Forall (fun b => 128 <= b < 256) (utf8_encode cp).
Proof.
  intros Hcp. unfold utf8_buf, utf8_encode.
  rewrite !Z.shiftr_div_pow2 by lia.
  change (2 ^ 6) with 64. change (2 ^ 12) with 4096. change (2 ^ 18) with 262144.
  destruct (Z.ltb_spec cp 128) as [| _]; [lia |].
  pose proof (cont_byte cp ltac:(lia)) as [E0 B0].
  pose proof (cont_byte (cp / 64) ltac:(apply Z.div_pos; lia)) as [E1 B1].
  pose proof (cont_byte (cp / 4096) ltac:(apply Z.div_pos; lia)) as [E2 B2].
  rewrite E0, E1, E2. clear E0 E1 E2.
  destruct (Z.ltb_spec cp 2048) as [H2 | H2].
  { assert (Hq : 2 <= cp / 64 < 32)
      by (split; [apply Z.div_le_lower_bound | apply Z.div_lt_upper_bound]; lia).
    rewrite lor_lead by (simpl; auto || lia).
    unfold byte_of. rewrite Z.mod_small by lia.
    split.
    - apply (c_str_id [192 + cp / 64; 128 + cp mod 64] [0; 0]).
      repeat constructor; lia.
    - repeat constructor; lia. }
  destruct (Z.ltb_spec cp 65536) as [H3 | H3].
  { assert (Hq : 0 <= cp / 4096 < 16)
      by (split; [apply Z.div_pos | apply Z.div_lt_upper_bound]; lia).
    rewrite lor_lead16 by (simpl; auto || lia).
    unfold byte_of. rewrite Z.mod_small by lia.
    split.
    - apply (c_str_id [224 + cp / 4096; 128 + cp / 64 mod 64; 128 + cp mod 64] [0]).
      repeat constructor; lia.
    - repeat constructor; lia. }
  destruct (Z.ltb_spec cp 1114112) as [H4 | H4].
  { assert (Hq : 0 <= cp / 262144 < 16)
      by (split; [apply Z.div_pos | apply Z.div_lt_upper_bound]; lia).
    rewrite lor_lead16 by (simpl; auto || lia).
    unfold byte_of. rewrite Z.mod_small by lia.
    split.
    - apply (c_str_id [240 + cp / 262144; 128 + cp / 4096 mod 64;
                       128 + cp / 64 mod 64; 128 + cp mod 64] []).
      repeat constructor; lia.
    - repeat constructor; lia. }
  split; [reflexivity | repeat constructor; lia].
Qed.

Lemma json_body_verbatim (s : list Z) :
  Forall (fun b => 128 <= b < 256) s -> json_body s = s.
Proof.
  unfold json_body. induction 1 as [| b s Hb Hs IH]; [reflexivity |].
  cbn [flat_map]. rewrite escape_byte_high by lia. now rewrite IH.
Qed.

(** The code point 0 fills the buffer with an empty C string: what is
    written is an empty JSON string. *)
Example nul_code_point : write_json_escaped_char 0 = [34; 34].
Proof. reflexivity. Qed.

(** C8, the claim as written: a non-ASCII character would be written as a
    backslash-u escape.  U+00E9 is written as its two UTF-8 bytes, with no
    backslash anywhere in the output. *)
Lemma nonascii_is_not_u_escaped :
  write_json_escaped_char 233 = [34; 195; 169; 34]
  /\ ~ In 92 (write_json_escaped_char 233)
  /\ ~ (exists h3 h2 h1 h0 : Z,
          write_json_escaped_char 233 = [34; 92; 117; h3; h2; h1; h0; 34]).
Proof.
  split; [reflexivity |]. split.
  - vm_compute. intros [H | [H | [H | [H | []]]]]; discriminate H.
  - intros (h3 & h2 & h1 & h0 & H). vm_compute in H. discriminate H.
Qed.

(** C8, amended: every emitted string escapes the double quote, the
    backslash and the C0 control characters (reading the body back as JSON
    gives the original bytes, and no byte below 0x20 is emitted), and every
    non-ASCII character is written verbatim as its UTF-8 bytes, not as a
    backslash-u escape. *)
Theorem json_escaping (s : list Z) (cp : Z) :
  is_cstring s -> 128 <= cp ->
  (write_json_escaped_string (Some (s ++ [0])) = [34] ++ json_body s ++ [34]
   /\ json_unescape (json_body s) = Some s
   /\ Forall (fun o => 32 <= o < 256) (json_body s))
  /\ (write_json_escaped_char cp = [34] ++ utf8_encode cp ++ [34]
      /\ Forall (fun b => 128 <= b < 256) (utf8_encode cp)
      /\ ~ In 92 (utf8_encode cp)).
Proof.
  intros Hs Hcp. split.
  - unfold write_json_escaped_string. rewrite (c_str_id s [] Hs).
    auto using json_unescape_body, json_body_printable.
  - destruct (utf8_buf_nonascii cp Hcp) as [Ebuf Hhigh].
    unfold write_json_escaped_char, write_json_escaped_string.
    rewrite Ebuf, (json_body_verbatim _ Hhigh).
    split; [reflexivity |]. split; [exact Hhigh |].
    intros Hin. rewrite Forall_forall in Hhigh. specialize (Hhigh _ Hin). lia.
Qed.

Lemma json_escaping_witness :
  write_json_escaped_string (Some ([34; 7; 92; 65] ++ [0]))
  = [34] ++ [92; 34; 92; 117; 48; 48; 48; 55; 92; 92; 65] ++ [34]
  /\ write_json_escaped_char 8364 = [34] ++ [226; 130; 172] ++ [34].
Proof.
  assert (Hs : is_cstring [34; 7; 92; 65]) by (repeat constructor; lia).
  destruct (json_escaping [34; 7; 92; 65] 8364 Hs ltac:(lia))
    as [(Hstr & _) (Hchr & _)].
  split; [exact Hstr | exact Hchr].
Defined.

End Json.

(* ===================================================================== *)
(** ** The indirect-object cache *)

Module Holder.

(** Modelled from the spec: CPDF_Object::kInvalidObjNum, the sentinel
    invalid object number.  Its declaration (cpdf_object.h) is not among the
    sources; it is the all-ones 32-bit value. *)
Definition kInvalidObjNum : Z := 4294967295.

(** [uint32_t] arithmetic. *)
Definition u32 (z : Z) : Z := z mod 4294967296.

(** A CPDF_Object, as far as the holder looks at it.  Objects are shared
    through RetainPtr, so they live in a heap and the map holds pointers. *)
Definition ptr := positive.

Record object := Object { obj_num : Z; gen_num : Z }.

(** What the executions below leave behind for the proofs: every call of
    ParseIndirectObject, and every answer given to a re-entrant call. *)
Inductive event : Type :=
| EvParse (objnum : Z)
| EvAnswer (objnum : Z) (result : option ptr).

Record holder := Holder {
  indirect_objs : gmap Z (option ptr);   (* std::map; [None] is nullptr *)
  last_obj_num : Z;
  heap : gmap ptr object;
  next_ptr : ptr;
  events : list event
}.

Definition empty_holder : holder :=
  Holder ∅ 0 ∅ 1%positive [].

Definition set_objs (f : gmap Z (option ptr) -> gmap Z (option ptr)) (st : holder) :=
  Holder (f (indirect_objs st)) (last_obj_num st) (heap st) (next_ptr st) (events st).

Definition set_last (n : Z) (st : holder) :=
  Holder (indirect_objs st) n (heap st) (next_ptr st) (events st).

Definition log (e : event) (st : holder) :=
  Holder (indirect_objs st) (last_obj_num st) (heap st) (next_ptr st) (events st ++ [e]).

(** [pObj->SetObjNum(n)]. *)
Definition SetObjNum (p : ptr) (n : Z) (st : holder) : holder :=
  Holder (indirect_objs st) (last_obj_num st)
         (alter (fun o => Object n (gen_num o)) p (heap st))
         (next_ptr st) (events st).

(** A fresh object, as a parser or a caller makes one: object number 0. *)
Definition new_object (gen : Z) (st : holder) : ptr * holder :=
  (next_ptr st,
   Holder (indirect_objs st) (last_obj_num st)
          (<[next_ptr st := Object 0 gen]> (heap st))
          (Pos.succ (next_ptr st)) (events st)).

Definition FilterInvalidObjNum (st : holder) (obj : option ptr) : option ptr :=
  match obj with
  | Some p =>
      match heap st !! p with
      | Some o => if obj_num o =? kInvalidObjNum then None else Some p
      | None => None
      end
  | None => None
  end.

Definition GetIndirectObjectInternal (objnum : Z) (st : holder) : option ptr :=
  match indirect_objs st !! objnum with
  | None => None
  | Some second => FilterInvalidObjNum st second
  end.

(** What a parser does while it parses one object: it finishes, with a new
    object of some generation or with a failure, or it first calls back
    into the holder. *)
Inductive script : Type :=
| Finish (parsed : option Z)
| CallGet (objnum : Z) (k : option ptr -> script)
| CallGetOrParse (objnum : Z) (k : option ptr -> script).

Section Executions.

(** The virtual ParseIndirectObject of the document that owns the holder. *)
Variable ParseIndirectObject : Z -> script.

Fixpoint run_script (get_or_parse : Z -> holder -> option (option ptr * holder))
                    (sc : script) (st : holder) : option (option Z * holder) :=
  match sc with
  | Finish parsed => Some (parsed, st)
  | CallGet objnum k =>
      let r := GetIndirectObjectInternal objnum st in
      run_script get_or_parse (k r) (log (EvAnswer objnum r) st)
  | CallGetOrParse objnum k =>
      match get_or_parse objnum st with
      | Some (r, st') => run_script get_or_parse (k r) (log (EvAnswer objnum r) st')
      | None => None
      end
  end.

(** GetOrParseIndirectObjectInternal.  [fuel] bounds the nesting of parses;
    [None] is fuel running out. *)
Fixpoint GetOrParseIndirectObjectInternal (fuel : nat) (objnum : Z) (st : holder)
  : option (option ptr * holder) :=
  match fuel with
  | O => None
  | S fuel' =>
      if (objnum =? 0) || (objnum =? kInvalidObjNum) then Some (None, st)
      else
        match indirect_objs st !! objnum with
        | Some second => Some (FilterInvalidObjNum st second, st)
        | None =>
            (* placeholder, then the parser runs without the lock *)
            let st1 := log (EvParse objnum) (set_objs (insert objnum None) st) in
            match run_script (GetOrParseIndirectObjectInternal fuel')
                             (ParseIndirectObject objnum) st1 with
            | None => None
            | Some (None, st2) => Some (None, set_objs (delete objnum) st2)
            | Some (Some gen, st2) =>
                let '(pNewObj, st3) := new_object gen st2 in
                let st4 := SetObjNum pNewObj objnum st3 in
                let st5 := set_last (Z.max (last_obj_num st4) objnum) st4 in
                Some (Some pNewObj, set_objs (insert objnum (Some pNewObj)) st5)
            end
        end
  end.

End Executions.

(** AddIndirectObject; [None] is the CHECK failing (the object already has
    a number) or a pointer to no object. *)
Definition AddIndirectObject (pObj : ptr) (st : holder) : option (Z * holder) :=
  match heap st !! pObj with
  | Some o =>
      if obj_num o =? 0 then
        let st1 := set_last (u32 (last_obj_num st + 1)) st in
        let st2 := SetObjNum pObj (last_obj_num st1) st1 in
        Some (last_obj_num st1,
              set_objs (insert (last_obj_num st1) (Some pObj)) st2)
      else None
  | None => None
  end.

(** ReplaceIndirectObjectIfHigherGeneration; [pObj = None] is a null
    RetainPtr.  [indirect_objs_[objnum]] creates a null entry when there is
    none. *)
Definition ReplaceIndirectObjectIfHigherGeneration
           (objnum : Z) (pObj : option ptr) (st : holder) : bool * holder :=
  match pObj with
  | None => (false, st)
  | Some p =>
      if objnum =? kInvalidObjNum then (false, st)
      else
        let obj_holder := default None (indirect_objs st !! objnum) in
        let st1 := set_objs (insert objnum obj_holder) st in
        let old_object := FilterInvalidObjNum st1 obj_holder in
        let new_gen := default 0 (gen_num <$> heap st1 !! p) in
        let keep :=
          match old_object with
          | Some o => new_gen <=? default 0 (gen_num <$> heap st1 !! o)
          | None => false
          end in
        if keep then (false, st1)
        else
          let st2 := SetObjNum p objnum st1 in
          let st3 := set_objs (insert objnum (Some p)) st2 in
          (true, set_last (Z.max (last_obj_num st3) objnum) st3)
  end.

Definition DeleteIndirectObject (objnum : Z) (st : holder) : holder :=
  match indirect_objs st !! objnum with
  | None => st
  | Some second =>
      match FilterInvalidObjNum st second with
      | None => st
      | Some _ => set_objs (delete objnum) st
      end
  end.

(** An object number whose parse is under way: its entry is the null
    placeholder. *)
Definition in_flight (objnum : Z) (st : holder) : Prop :=
  indirect_objs st !! objnum = Some None.

(** *** Re-entrancy: the placeholder reads as a miss *)

(** An event that neither parses [k] nor answers a call for [k] with an
    object. *)
Definition quiet_for (k : Z) (e : event) : Prop :=
  match e with
  | EvParse objnum => objnum <> k
  | EvAnswer objnum result => objnum = k -> result = None
  end.

(** What one execution leaves of a placeholder at [k]: it is still there,
    and the events added are quiet for [k]. *)
Definition keeps_in_flight (k : Z) (st st' : holder) : Prop :=
  in_flight k st'
  /\ exists new, events st' = events st ++ new /\ Forall (quiet_for k) new.

Lemma keeps_in_flight_refl k st : in_flight k st -> keeps_in_flight k st st.
Proof.
  intros H. split; [exact H |]. exists []. split; [now rewrite app_nil_r | constructor].
Qed.

Lemma keeps_in_flight_trans k st1 st2 st3 :
  keeps_in_flight k st1 st2 -> keeps_in_flight k st2 st3 -> keeps_in_flight k st1 st3.
Proof.
  intros [_ (n1 & E1 & Q1)] [H3 (n2 & E2 & Q2)]. split; [exact H3 |].
  exists (n1 ++ n2). split.
  - now rewrite E2, E1, app_assoc.
  - apply Forall_app. auto.
Qed.

Lemma keeps_in_flight_log k e st :
  in_flight k st -> quiet_for k e -> keeps_in_flight k st (log e st).
Proof.
  intros H Q. split; [exact H |]. exists [e]. split; [reflexivity | now constructor].
Qed.

Lemma get_in_flight k st : in_flight k st -> GetIndirectObjectInternal k st = None.
Proof. unfold in_flight, GetIndirectObjectInternal. now intros ->. Qed.

Section Reentrancy.

Variable ParseIndirectObject : Z -> script.
Variable k : Z.

Local Abbreviation GOP := (GetOrParseIndirectObjectInternal ParseIndirectObject).

(** What the proofs ask of a nested get_or_parse. *)
Definition gop_respects (gop : Z -> holder -> option (option ptr * holder)) : Prop :=
  forall objnum st r st',
    in_flight k st -> gop objnum st = Some (r, st') ->
    keeps_in_flight k st st' /\ (objnum = k -> r = None).

Lemma run_script_respects gop :
  gop_respects gop ->
  forall sc st r st',
    in_flight k st -> run_script gop sc st = Some (r, st') ->
    keeps_in_flight k st st'.
Proof.
  intros Hgop. induction sc as [parsed | objnum cont IH | objnum cont IH];
    intros st r st' Hk Hrun; cbn [run_script] in Hrun.
  - injection Hrun as _ <-. now apply keeps_in_flight_refl.
  - eapply keeps_in_flight_trans; [| eapply IH; [| exact Hrun]; exact Hk].
    apply keeps_in_flight_log; [exact Hk |].
    intros ->. now apply get_in_flight.
  - destruct (gop objnum st) as [[r1 st1] |] eqn:Egop; [| discriminate].
    destruct (Hgop _ _ _ _ Hk Egop) as [Hkeep Hmiss].
    eapply keeps_in_flight_trans; [exact Hkeep |].
    eapply keeps_in_flight_trans; [| eapply IH; [| exact Hrun]; apply Hkeep].
    apply keeps_in_flight_log; [apply Hkeep | exact Hmiss].
Qed.

Lemma GOP_respects fuel : gop_respects (GOP fuel).
Proof.
  induction fuel as [| fuel IH]; intros objnum st r st' Hk Hrun; [discriminate |].
  cbn [GetOrParseIndirectObjectInternal] in Hrun.
  destruct ((objnum =? 0) || (objnum =? kInvalidObjNum)).
  { injection Hrun as <- <-. split; [now apply keeps_in_flight_refl | reflexivity]. }
  destruct (indirect_objs st !! objnum) as [second |] eqn:Elook.
  { injection Hrun as <- <-. split; [now apply keeps_in_flight_refl |].
    intros ->. unfold in_flight in Hk. rewrite Hk in Elook.
    now injection Elook as <-. }
  assert (Hne : objnum <> k).
  { intros ->. unfold in_flight in Hk. congruence. }
  set (st1 := log (EvParse objnum) (set_objs (insert objnum None) st)) in Hrun.
  assert (H1 : keeps_in_flight k st st1).
  { split.
    - unfold in_flight, st1. cbn. now rewrite lookup_insert_ne.
    - exists [EvParse objnum]. split; [reflexivity | now constructor]. }
  destruct (run_script (GOP fuel) (ParseIndirectObject objnum) st1)
    as [[parsed st2] |] eqn:Escript; [| discriminate].
  pose proof (run_script_respects _ IH _ _ _ _ (proj1 H1) Escript) as H2.
  split; [| intros; contradiction].
  eapply keeps_in_flight_trans; [exact H1 |].
  eapply keeps_in_flight_trans; [exact H2 |].
  destruct H2 as [Hk2 _].
  destruct parsed as [gen |]; injection Hrun as <- <-.
  - split; [| exists []; split; [now rewrite app_nil_r | constructor]].
    unfold in_flight. cbn. now rewrite lookup_insert_ne.
  - split; [| exists []; split; [now rewrite app_nil_r | constructor]].
    unfold in_flight. cbn. now rewrite lookup_delete_ne.
Qed.

End Reentrancy.

(** C9: while the entry of [k] is the placeholder, a get for [k] returns
    nothing, a get_or_parse for [k] returns nothing at once (for any fuel,
    leaving the holder as it is, so without running the parser), and
    whatever a parser then does through re-entrant calls keeps the
    placeholder, never parses [k] again and answers every call for [k] with
    nothing; the placeholder is in place when the parser of [k] starts. *)
Theorem in_flight_is_a_miss (parser : Z -> script) (k : Z) (st : holder) :
  in_flight k st ->
  GetIndirectObjectInternal k st = None
  /\ (forall fuel,
        GetOrParseIndirectObjectInternal parser (S fuel) k st = Some (None, st))
  /\ (forall fuel sc r st',
        run_script (GetOrParseIndirectObjectInternal parser fuel) sc st
        = Some (r, st') ->
        keeps_in_flight k st st')
  /\ (forall st0, in_flight k (log (EvParse k) (set_objs (insert k None) st0))).
Proof.
  intros Hk. split; [now apply get_in_flight |]. split; [| split].
  - intros fuel. cbn [GetOrParseIndirectObjectInternal].
    unfold in_flight in Hk. rewrite Hk.
    destruct ((k =? 0) || (k =? kInvalidObjNum)); reflexivity.
  - intros fuel sc r st' Hrun.
    eapply run_script_respects; [apply GOP_respects | exact Hk | exact Hrun].
  - intros st0. unfold in_flight. cbn. apply lookup_insert_eq.
Qed.

(** A parser whose object 7 refers to itself: it asks for 7 twice, once
    through get_or_parse and once through get, and then finishes. *)
Definition self_referential (objnum : Z) : script :=
  if objnum =? 7 then
    CallGetOrParse 7 (fun r1 => CallGet 7 (fun r2 =>
      Finish (match r1, r2 with None, None => Some 0 | _, _ => None end)))
  else Finish None.

Example self_referential_parse :
  exists st',
    GetOrParseIndirectObjectInternal self_referential 2 7 empty_holder
    = Some (Some 1%positive, st')
    /\ events st' = [EvParse 7; EvAnswer 7 None; EvAnswer 7 None]
    /\ indirect_objs st' !! 7 = Some (Some 1%positive)
    /\ heap st' !! 1%positive = Some (Object 7 0)
    /\ last_obj_num st' = 7.
Proof. eexists. split; [vm_compute; reflexivity |]. vm_compute. auto. Qed.

Lemma in_flight_is_a_miss_witness :
  let st := log (EvParse 7) (set_objs (insert 7 None) empty_holder) in
  GetIndirectObjectInternal 7 st = None
  /\ GetOrParseIndirectObjectInternal self_referential 1 7 st = Some (None, st).
Proof.
  intros st.
  assert (Hk : in_flight 7 st) by (unfold in_flight; cbn; apply lookup_insert_eq).
  destruct (in_flight_is_a_miss self_referential 7 st Hk) as (Hget & Hgop & _).
  split; [exact Hget | exact (Hgop 0%nat)].
Defined.

(** *** Replacing, then adding *)









End Holder.

(* ===================================================================== *)
(** ** The scanned-page JPEG fast path *)

Module Smart.

Inductive pageobj_type : Type :=
| PAGEOBJ_UNKNOWN | PAGEOBJ_TEXT | PAGEOBJ_PATH | PAGEOBJ_IMAGE
| PAGEOBJ_SHADING | PAGEOBJ_FORM.

Definition is_image (t : pageobj_type) : bool :=
  match t with PAGEOBJ_IMAGE => true | _ => false end.

(** What the parser library reports of one page object.  [bounds] is
    [None] when FPDFPageObj_GetBounds fails, otherwise left, bottom, right,
    top; [raw_data] is what FPDFImageObj_GetImageDataRaw copies out. *)
Record page_object := PageObject {
  obj_type : pageobj_type;
  bounds : option (Q * Q * Q * Q);
  filters : list string;
  raw_data : list Z
}.

Record page := Page {
  objects : list page_object;
  page_width : Q;
  page_height : Q
}.

(** is_scanned_page.  A [double] is read as the rational it denotes. *)
Definition is_scanned_page (pg : page) : bool :=
  match objects pg with
  | [obj] =>
      if negb (is_image (obj_type obj)) then false
      else
        match bounds obj with
        | None => false
        | Some (b_left, b_bottom, b_right, b_top) =>
            let obj_area := ((b_right - b_left) * (b_top - b_bottom))%Q in
            let page_area := (page_width pg * page_height pg)%Q in
            if Qle_bool page_area 0 then false
            else
              let coverage := (obj_area / page_area)%Q in
              Qle_bool 0.95 coverage
        end
  | _ => false
  end.

(** [strncmp(filter_name.data(), "DCTDecode", 9) == 0]: the first nine
    characters are compared, what follows them is not looked at. *)
Definition is_dct_name (filter_name : string) : bool :=
  String.prefix "DCTDecode"%string filter_name.

(** The file system, as far as the fast path meets it. *)
Record file_system := FileSystem {
  fopen_ok : bool;          (* fopen(output_path, wb) gives a stream *)
  fwrite_complete : bool    (* fwrite writes every byte *)
}.

(** render_scanned_page_fast on the sole object of the page.  [Some bytes]
    is a return of true with [bytes] written to the output file.  The loop
    skips a filter whose reported name length is zero; such a filter is a
    name with no characters here, which [is_dct_name] rejects as well. *)
Definition render_scanned_page_fast (fs : file_system) (img_obj : page_object)
  : option (list Z) :=
  let is_jpeg := existsb is_dct_name (filters img_obj) in
  if negb is_jpeg then None
  else
    let raw_size := Z.of_nat (List.length (raw_data img_obj)) in
    if raw_size =? 0 then None
    else
      let jpeg_data := raw_data img_obj in
      let actual_size := Z.of_nat (List.length jpeg_data) in
      if (actual_size =? 0) || (raw_size <? actual_size) then None
      else
        match jpeg_data with
        | b0 :: b1 :: b2 :: _ =>
            if (b0 =? 255) && (b1 =? 216) && (b2 =? 255) then
              if negb (fopen_ok fs) then None
              else if negb (fwrite_complete fs) then None
              else Some jpeg_data
            else None
        | _ => None                       (* actual_size < 3 *)
        end.

(** How one page leaves the smart-mode step. *)
Inductive outcome : Type :=
| WroteJpeg (bytes : list Z)     (* the output file is these bytes *)
| NormalRender                   (* the page goes on to be rendered *)
| PageFailed                     (* return 1 *)
| PageSkipped.                   (* left marked as scanned, nothing written *)

Record output_config := OutputConfig {
  use_ppm : bool;
  use_raw : bool;
  benchmark_mode : bool;
  path_fits : bool           (* the output path fits the 512-byte buffer *)
}.

Definition enable_smart_mode (cfg : output_config) : bool :=
  negb (use_ppm cfg) && negb (use_raw cfg) && negb (benchmark_mode cfg).

Definition sole_object (pg : page) : option page_object :=
  match objects pg with
  | [obj] => Some obj
  | _ => None
  end.

(** The smart-mode block of render_page_to_png (one thread). *)
Definition render_page_to_png_smart (cfg : output_config) (fs : file_system)
                                    (pg : page) : outcome :=
  if enable_smart_mode cfg && is_scanned_page pg then
    if negb (path_fits cfg) then PageFailed
    else
      match sole_object pg with
      | Some img_obj =>
          match render_scanned_page_fast fs img_obj with
          | Some bytes => WroteJpeg bytes
          | None => NormalRender
          end
      | None => NormalRender
      end
  else NormalRender.

(** The single pass of render_pages_bulk over one page (several threads):
    a page that is not marked in is_scanned_map is rendered afterwards. *)
Definition render_pages_bulk_smart (cfg : output_config) (fs : file_system)
                                   (pg : page) : outcome :=
  if enable_smart_mode cfg then
    if is_scanned_page pg then
      if negb (path_fits cfg) then NormalRender
      else
        match sole_object pg with
        | Some img_obj =>
            match render_scanned_page_fast fs img_obj with
            | Some bytes => WroteJpeg bytes
            | None => NormalRender
            end
        | None => NormalRender
        end
    else NormalRender
  else NormalRender.

(** The pre-scan and the extraction phase of render_pages_worker (several
    threads inside a worker process): a page the pre-scan has marked stays
    marked unless render_scanned_page_fast returns false. *)
Definition render_pages_worker_smart (cfg : output_config) (fs : file_system)
                                     (pg : page) : outcome :=
  if enable_smart_mode cfg then
    if is_scanned_page pg then
      if negb (path_fits cfg) then PageSkipped
      else
        match sole_object pg with
        | Some img_obj =>
            match render_scanned_page_fast fs img_obj with
            | Some bytes => WroteJpeg bytes
            | None => NormalRender
            end
        | None => NormalRender
        end
    else NormalRender
  else NormalRender.












(** A scanned US Letter page: one full-page DCTDecode image. *)
Definition scanned_letter : page :=
  Page [PageObject PAGEOBJ_IMAGE (Some (0, 0, 612, 792)%Q) ["DCTDecode"%string]
                   [255; 216; 255; 224; 0; 16]]
       612 792.


Definition jpeg_output : output_config := OutputConfig false false false true.
Definition disk : file_system := FileSystem true true.

(** Outside the hypotheses of [smart_mode_exact]: with an output path too
    long for the buffer the three paths part ways on a scanned page, and
    with a file that cannot be opened all three fall back to rendering. *)
Example scanned_page_path_too_long :
  let cfg := OutputConfig false false false false in
  render_page_to_png_smart cfg disk scanned_letter = PageFailed
  /\ render_pages_bulk_smart cfg disk scanned_letter = NormalRender
  /\ render_pages_worker_smart cfg disk scanned_letter = PageSkipped
  /\ render_page_to_png_smart jpeg_output (FileSystem false true) scanned_letter
     = NormalRender.
Proof. repeat split; vm_compute; reflexivity. Qed.


End Smart.

(* ===================================================================== *)
(** ** The persistent worker pool *)

Module Pool.

(** GlobalThreadPool as an interleaving transition system.  A state holds
    the pool's fields and, for every thread that uses the pool, where it
    stands; a label lets one thread take one atomic step (a wait that is
    let through, a fetch_add, an enqueue, a try_dequeue, a ProcessTask, a
    fetch_sub).  Memory orderings are not modelled: steps are sequentially
    consistent.  The stop and clear_pools flags play no part here. *)

Inductive api : Type := V1 | V2.

Record task := Task { api_version : api; page_index : Z }.

#[global] Instance api_eq_dec : EqDecision api.
Proof. solve_decision. Defined.

#[global] Instance task_eq_dec : EqDecision task.
Proof. solve_decision. Defined.

#[global] Instance task_countable : Countable task.
Proof.
  refine (inj_countable'
            (fun t => (match api_version t with V1 => false | V2 => true end,
                       page_index t))
            (fun '(b, z) => Task (if b : bool then V2 else V1) z) _).
  intros [[] z]; reflexivity.
Defined.

(** The calls a controller thread makes into the pool. *)
Inductive call : Type :=
| CallEnqueue (t : task)              (* EnqueueTask, EnqueueTaskV2 *)
| CallEnqueueBatch (ts : list task)   (* EnqueueTasksV2Batch *)
| CallWait.                           (* WaitForCompletion *)

(** Where a controller stands in its current call: before the wait, let
    through by the wait, or past the fetch_add and before the enqueue. *)
Inductive phase : Type := AtCall | Cleared | Counted.

Record producer := Producer { todo : list call; at_phase : phase }.

(** A worker thread: at the top of its loop, holding a dequeued task, or
    back from ProcessTask (the callback has returned) and not yet at the
    fetch_sub. *)
Inductive worker : Type :=
| WIdle
| WProcessing (t : task)
| WCalledBack (t : task).

Record pool := Pool {
  outstanding_tasks : Z;
  max_queue_depth : Z;
  task_queue : list task;
  task_queue_v2 : list task;
  producers : list producer;
  workers : list worker;
  (* history, for the statements only *)
  counted : list task;      (* tasks a fetch_add has accounted for *)
  callbacks : list task;    (* completion callbacks that have returned *)
  finished : list task      (* tasks a fetch_sub has accounted for *)
}.

(** WaitForBackpressure: whether the wait lets the caller through in [s]. *)
Definition WaitForBackpressure (s : pool) : bool :=
  let max_depth := max_queue_depth s in
  (max_depth <=? 0) || (outstanding_tasks s <? max_depth).

(** WaitForBackpressureBatch, likewise. *)
Definition WaitForBackpressureBatch (batch_size : Z) (s : pool) : bool :=
  let max_depth := max_queue_depth s in
  (max_depth <=? 0)
  || (let required_space := Z.min batch_size max_depth in
      outstanding_tasks s <=? max_depth - required_space).

Definition set_producer (i : nat) (p : producer) (s : pool) : pool :=
  Pool (outstanding_tasks s) (max_queue_depth s) (task_queue s) (task_queue_v2 s)
       (<[i := p]> (producers s)) (workers s)
       (counted s) (callbacks s) (finished s).

Definition fetch_add (ts : list task) (s : pool) : pool :=
  Pool (outstanding_tasks s + Z.of_nat (List.length ts)) (max_queue_depth s)
       (task_queue s) (task_queue_v2 s) (producers s) (workers s)
       (counted s ++ ts) (callbacks s) (finished s).

Definition enqueue_v1 (t : task) (s : pool) : pool :=
  Pool (outstanding_tasks s) (max_queue_depth s)
       (task_queue s ++ [t]) (task_queue_v2 s) (producers s) (workers s)
       (counted s) (callbacks s) (finished s).

Definition enqueue_bulk_v2 (ts : list task) (s : pool) : pool :=
  Pool (outstanding_tasks s) (max_queue_depth s)
       (task_queue s) (task_queue_v2 s ++ ts) (producers s) (workers s)
       (counted s) (callbacks s) (finished s).

(** One step of controller thread [i]; [None] when the thread is blocked
    or has nothing left to do. *)
Definition producer_step (i : nat) (s : pool) : option pool :=
  match producers s !! i with
  | Some (Producer (CallEnqueue t :: rest) AtCall) =>
      if WaitForBackpressure s
      then Some (set_producer i (Producer (CallEnqueue t :: rest) Cleared) s)
      else None
  | Some (Producer (CallEnqueue t :: rest) Cleared) =>
      Some (set_producer i (Producer (CallEnqueue t :: rest) Counted) (fetch_add [t] s))
  | Some (Producer (CallEnqueue t :: rest) Counted) =>
      Some (set_producer i (Producer rest AtCall)
              (match api_version t with
               | V1 => enqueue_v1 t s
               | V2 => enqueue_bulk_v2 [t] s
               end))
  | Some (Producer (CallEnqueueBatch ts :: rest) AtCall) =>
      match ts with
      | [] => Some (set_producer i (Producer rest AtCall) s)
      | _ =>
          if WaitForBackpressureBatch (Z.of_nat (List.length ts)) s
          then Some (set_producer i (Producer (CallEnqueueBatch ts :: rest) Cleared) s)
          else None
      end
  | Some (Producer (CallEnqueueBatch ts :: rest) Cleared) =>
      Some (set_producer i (Producer (CallEnqueueBatch ts :: rest) Counted)
              (fetch_add ts s))
  | Some (Producer (CallEnqueueBatch ts :: rest) Counted) =>
      Some (set_producer i (Producer rest AtCall) (enqueue_bulk_v2 ts s))
  | Some (Producer (CallWait :: rest) _) =>
      if outstanding_tasks s =? 0
      then Some (set_producer i (Producer rest AtCall) s)
      else None
  | _ => None
  end.

Definition set_worker (w : nat) (st : worker) (s : pool) : pool :=
  Pool (outstanding_tasks s) (max_queue_depth s) (task_queue s) (task_queue_v2 s)
       (producers s) (<[w := st]> (workers s))
       (counted s) (callbacks s) (finished s).

(** try_dequeue on the V2 queue, then on the V1 queue.  The queues are not
    first-in first-out across threads, and a worker may miss a V2 task that
    arrives while it looks: any queued task may be the one taken. *)
Definition dequeue_v2 (w idx : nat) (s : pool) : option pool :=
  match workers s !! w, task_queue_v2 s !! idx with
  | Some WIdle, Some t =>
      Some (set_worker w (WProcessing t)
              (Pool (outstanding_tasks s) (max_queue_depth s)
                    (task_queue s) (delete idx (task_queue_v2 s))
                    (producers s) (workers s)
                    (counted s) (callbacks s) (finished s)))
  | _, _ => None
  end.

Definition dequeue_v1 (w idx : nat) (s : pool) : option pool :=
  match workers s !! w, task_queue s !! idx with
  | Some WIdle, Some t =>
      Some (set_worker w (WProcessing t)
              (Pool (outstanding_tasks s) (max_queue_depth s)
                    (delete idx (task_queue s)) (task_queue_v2 s)
                    (producers s) (workers s)
                    (counted s) (callbacks s) (finished s)))
  | _, _ => None
  end.

(** ProcessTask or ProcessTaskV2: on every path through either the
    completion callback is invoked once. *)
Definition process (w : nat) (s : pool) : option pool :=
  match workers s !! w with
  | Some (WProcessing t) =>
      Some (set_worker w (WCalledBack t)
              (Pool (outstanding_tasks s) (max_queue_depth s)
                    (task_queue s) (task_queue_v2 s) (producers s) (workers s)
                    (counted s) (callbacks s ++ [t]) (finished s)))
  | _ => None
  end.

(** The fetch_sub at the end of the worker loop. *)
Definition decrement (w : nat) (s : pool) : option pool :=
  match workers s !! w with
  | Some (WCalledBack t) =>
      Some (set_worker w WIdle
              (Pool (outstanding_tasks s - 1) (max_queue_depth s)
                    (task_queue s) (task_queue_v2 s) (producers s) (workers s)
                    (counted s) (callbacks s) (finished s ++ [t])))
  | _ => None
  end.

Inductive label : Type :=
| LProducer (i : nat)
| LDequeueV2 (w idx : nat)
| LDequeueV1 (w idx : nat)
| LProcess (w : nat)
| LDecrement (w : nat).

Definition step (l : label) (s : pool) : option pool :=
  match l with
  | LProducer i => producer_step i s
  | LDequeueV2 w idx => dequeue_v2 w idx s
  | LDequeueV1 w idx => dequeue_v1 w idx s
  | LProcess w => process w s
  | LDecrement w => decrement w s
  end.

(** A schedule is run from left to right; [None] when some step of it is
    not enabled. *)
Fixpoint run (schedule : list label) (s : pool) : option pool :=
  match schedule with
  | [] => Some s
  | l :: rest =>
      match step l s with
      | Some s' => run rest s'
      | None => None
      end
  end.

(** The pool after EnsureWorkerCount and SetMaxQueueDepth, with the
    controller threads about to start their calls. *)
Definition start (depth : Z) (worker_count : nat) (programs : list (list call)) : pool :=
  Pool 0 depth [] [] (map (fun calls => Producer calls AtCall) programs)
       (replicate worker_count WIdle) [] [] [].

(** The calls of FPDF_RenderPagesParallel past its sequential path: one
    EnqueueTask per page, then WaitForCompletion. *)
Definition RenderPagesParallel_calls (start_page : Z) (page_count : nat) : list call :=
  map (fun i => CallEnqueue (Task V1 (start_page + Z.of_nat i))) (seq 0 page_count)
  ++ [CallWait].

(** The calls of FPDF_RenderPagesParallelV2 past its sequential path: all
    tasks in one EnqueueTasksV2Batch, then WaitForCompletion. *)
Definition RenderPagesParallelV2_calls (start_page : Z) (page_count : nat) : list call :=
  [CallEnqueueBatch
     (map (fun i => Task V2 (start_page + Z.of_nat i)) (seq 0 page_count));
   CallWait].

(** [max_queue] as both controllers choose it. *)
Definition max_queue_of (max_queue_size page_count : Z) : Z :=
  if 0 <? max_queue_size then max_queue_size
  else if 256 <? page_count then 256 else 0.

(** *** Where every counted task is *)

Definition pending_of (p : producer) : list task :=
  match at_phase p, todo p with
  | Counted, CallEnqueue t :: _ => [t]
  | Counted, CallEnqueueBatch ts :: _ => ts
  | _, _ => []
  end.

Definition held_by (w : worker) : list task :=
  match w with
  | WIdle => []
  | WProcessing t => [t]
  | WCalledBack t => [t]
  end.

Definition called_back (w : worker) : list task :=
  match w with
  | WCalledBack t => [t]
  | _ => []
  end.

(** The tasks of a list, as a multiset. *)
Definition mset (l : list task) : gmultiset task := list_to_set_disj l.

(** Every counted task is in exactly one place: with a controller between
    its fetch_add and its enqueue, on a queue, with a worker, or finished;
    a finished task has had its callback; and the counter is the number of
    tasks counted minus the number finished. *)
Record balanced (s : pool) : Prop := Balanced {
  bal_counted :
    mset (counted s)
    = mset (flat_map pending_of (producers s)) ⊎ mset (task_queue s)
      ⊎ mset (task_queue_v2 s) ⊎ mset (flat_map held_by (workers s))
      ⊎ mset (finished s);
  bal_callbacks :
    mset (callbacks s)
    = mset (flat_map called_back (workers s)) ⊎ mset (finished s);
  bal_counter :
    outstanding_tasks s
    = Z.of_nat (List.length (counted s)) - Z.of_nat (List.length (finished s))
}.

Lemma mset_app (l1 l2 : list task) : mset (l1 ++ l2) = mset l1 ⊎ mset l2.
Proof. apply list_to_set_disj_app. Qed.

Lemma mset_cons (t : task) (l : list task) : mset (t :: l) = {[+ t +]} ⊎ mset l.
Proof. apply list_to_set_disj_cons. Qed.

Lemma mset_nil : mset [] = ∅.
Proof. reflexivity. Qed.

Lemma elem_of_mset (t : task) (l : list task) : t ∈ mset l <-> t ∈ l.
Proof. apply elem_of_list_to_set_disj. Qed.

Lemma mset_size (l : list task) : size (mset l) = List.length l.
Proof.
  induction l as [| t l IH]; [reflexivity |].
  rewrite mset_cons, gmultiset_size_disj_union, gmultiset_size_singleton, IH.
  reflexivity.
Qed.

Lemma mset_elements (l : list task) : elements (mset l) ≡ₚ l.
Proof.
  induction l as [| t l IH]; [reflexivity |].
  rewrite mset_cons, gmultiset_elements_disj_union, gmultiset_elements_singleton, IH.
  reflexivity.
Qed.

Lemma mset_eq_perm (l1 l2 : list task) : mset l1 = mset l2 -> l1 ≡ₚ l2.
Proof.
  intros E. rewrite <- (mset_elements l1), <- (mset_elements l2), E. reflexivity.
Qed.

Lemma mset_delete (q : list task) (idx : nat) (t : task) :
  q !! idx = Some t -> mset q = {[+ t +]} ⊎ mset (delete idx q).
Proof.
  intros Hq. unfold mset. rewrite (delete_Permutation q idx t Hq) at 1.
  apply list_to_set_disj_cons.
Qed.

(** Replacing entry [i] of a list of threads changes what the threads hold
    by the holdings of that one entry. *)
Lemma mset_flat_map_insert {A : Type} (f : A -> list task) (l : list A)
                           (i : nat) (x : A) :
  l !! i = Some x ->
  exists others,
    mset (flat_map f l) = mset (f x) ⊎ others
    /\ forall y, mset (flat_map f (<[i := y]> l)) = mset (f y) ⊎ others.
Proof.
  revert i. induction l as [| a l IH]; intros i Hi; [discriminate |].
  destruct i as [| i]; cbn in Hi.
  - injection Hi as ->. exists (mset (flat_map f l)).
    split; [apply mset_app | intros y; apply mset_app].
  - destruct (IH i Hi) as (others & E1 & E2).
    exists (mset (f a) ⊎ others). split.
    + cbn [flat_map]. rewrite mset_app, E1. multiset_solver.
    + intros y. cbn. rewrite mset_app, E2. multiset_solver.
Qed.

Ltac open_step H :=
  repeat match type of H with
         | (if ?b then _ else _) = Some _ => destruct b eqn:?; [| discriminate H]
         | match ?ts with [] => _ | _ :: _ => _ end = Some _ => destruct ts
         | match api_version ?t with V1 => _ | V2 => _ end = Some _ =>
             destruct (api_version t)
         end;
  try discriminate H;
  injection H as <-.

Ltac close_balanced :=
  constructor; cbn -[mset];
  rewrite ?mset_app, ?mset_cons, ?mset_nil in *;
  rewrite ?length_app in *; cbn [List.length] in *;
  first [multiset_solver | lia].

Lemma producer_step_balanced (i : nat) (s s' : pool) :
  balanced s -> producer_step i s = Some s' -> balanced s'.
Proof.
  intros [Hc Hcb Hn] Hstep. unfold producer_step in Hstep.
  destruct (producers s !! i) as [[calls ph] |] eqn:Ei; [| discriminate].
  destruct (mset_flat_map_insert pending_of _ _ _ Ei) as (others & E1 & E2).
  rewrite E1 in Hc. clear E1.
  destruct calls as [| [t | ts |] rest]; [discriminate | | |]; destruct ph;
    cbn [pending_of todo at_phase] in Hc; open_step Hstep.
  all: try match goal with
           | |- context [api_version ?t] => destruct (api_version t)
           end.
  all: constructor; cbn -[mset]; rewrite ?E2; cbn [pending_of todo at_phase].
  all: rewrite ?mset_app, ?mset_cons, ?mset_nil in *.
  all: rewrite ?length_app; cbn [List.length].
  all: first [multiset_solver | lia].
Qed.

Lemma worker_step_balanced (l : label) (s s' : pool) :
  (forall i, l <> LProducer i) ->
  balanced s -> step l s = Some s' -> balanced s'.
Proof.
  intros Hl [Hc Hcb Hn] Hstep.
  destruct l as [i | w idx | w idx | w | w]; [now contradiction (Hl i) | | | |];
    cbn [step] in Hstep;
    unfold dequeue_v2, dequeue_v1, process, decrement in Hstep;
    destruct (workers s !! w) as [st |] eqn:Ew; try discriminate;
    destruct (mset_flat_map_insert held_by _ _ _ Ew) as (oh & H1 & H2);
    destruct (mset_flat_map_insert called_back _ _ _ Ew) as (oc & C1 & C2);
    rewrite H1 in Hc; rewrite C1 in Hcb; clear H1 C1;
    destruct st as [| t | t]; try discriminate.
  - destruct (task_queue_v2 s !! idx) as [t |] eqn:Eq; [| discriminate].
    injection Hstep as <-. rewrite (mset_delete _ _ _ Eq) in Hc.
    constructor; cbn -[mset]; rewrite ?H2, ?C2; cbn [held_by called_back] in *;
      rewrite ?mset_cons, ?mset_nil in *; first [multiset_solver | lia].
  - destruct (task_queue s !! idx) as [t |] eqn:Eq; [| discriminate].
    injection Hstep as <-. rewrite (mset_delete _ _ _ Eq) in Hc.
    constructor; cbn -[mset]; rewrite ?H2, ?C2; cbn [held_by called_back] in *;
      rewrite ?mset_cons, ?mset_nil in *; first [multiset_solver | lia].
  - injection Hstep as <-.
    constructor; cbn -[mset]; rewrite ?H2, ?C2; cbn [held_by called_back] in *;
      rewrite ?mset_app, ?mset_cons, ?mset_nil in *; first [multiset_solver | lia].
  - injection Hstep as <-.
    constructor; cbn -[mset]; rewrite ?H2, ?C2; cbn [held_by called_back] in *;
      rewrite ?mset_app, ?mset_cons, ?mset_nil in *;
      rewrite ?length_app; cbn [List.length]; first [multiset_solver | lia].
Qed.

Lemma step_balanced (l : label) (s s' : pool) :
  balanced s -> step l s = Some s' -> balanced s'.
Proof.
  intros Hb Hstep. destruct l as [i | | | |] eqn:El;
    [exact (producer_step_balanced i s s' Hb Hstep) | | | |];
    (eapply worker_step_balanced; [| exact Hb | exact Hstep]); discriminate.
Qed.

Lemma run_balanced (schedule : list label) (s s' : pool) :
  balanced s -> run schedule s = Some s' -> balanced s'.
Proof.
  revert s. induction schedule as [| l schedule IH]; intros s Hb Hrun; cbn in Hrun.
  - now injection Hrun as <-.
  - destruct (step l s) as [s1 |] eqn:Estep; [| discriminate].
    eapply IH; [| exact Hrun]. eapply step_balanced; eassumption.
Qed.

Lemma start_balanced (depth : Z) (worker_count : nat) (programs : list (list call)) :
  balanced (start depth worker_count programs).
Proof.
  assert (Hp : flat_map pending_of (map (fun calls => Producer calls AtCall) programs) = []).
  { induction programs as [| c programs IH]; [reflexivity | exact IH]. }
  assert (Hh : forall n, flat_map held_by (replicate n WIdle) = []).
  { intros n. induction n as [| n IH]; [reflexivity | exact IH]. }
  assert (Hcb : forall n, flat_map called_back (replicate n WIdle) = []).
  { intros n. induction n as [| n IH]; [reflexivity | exact IH]. }
  constructor; cbn -[mset]; rewrite ?Hp, ?Hh, ?Hcb; [multiset_solver .. | reflexivity].
Qed.

(** When the counter is 0 nothing is under way, and the callbacks that
    have returned are the tasks that were counted, each once. *)
Lemma balanced_quiescent (s : pool) :
  balanced s -> outstanding_tasks s = 0 ->
  callbacks s ≡ₚ counted s
  /\ task_queue s = [] /\ task_queue_v2 s = []
  /\ Forall (fun w => w = WIdle) (workers s)
  /\ flat_map pending_of (producers s) = [].
Proof.
  intros [Hc Hcb Hn] Hzero.
  pose proof (f_equal size Hc) as Hsize.
  rewrite !gmultiset_size_disj_union, !mset_size in Hsize.
  assert (Hp : flat_map pending_of (producers s) = []) by (apply length_zero_iff_nil; lia).
  assert (Hq1 : task_queue s = []) by (apply length_zero_iff_nil; lia).
  assert (Hq2 : task_queue_v2 s = []) by (apply length_zero_iff_nil; lia).
  assert (Hh : flat_map held_by (workers s) = []) by (apply length_zero_iff_nil; lia).
  assert (Hidle : Forall (fun w => w = WIdle) (workers s)).
  { clear -Hh. induction (workers s) as [| w ws IH]; [constructor |].
    cbn [flat_map] in Hh. apply app_eq_nil in Hh as [Hw Hws].
    constructor; [destruct w; [reflexivity | discriminate Hw ..] | now apply IH]. }
  assert (Hback : flat_map called_back (workers s) = []).
  { clear -Hidle. induction Hidle as [| w ws -> _ IH]; [reflexivity | exact IH]. }
  repeat split; try assumption.
  apply mset_eq_perm. rewrite Hcb, Hc, Hp, Hq1, Hq2, Hh, Hback, !mset_nil.
  multiset_solver.
Qed.

(** C2: at every state of every run of the pool the counter is the number
    of tasks counted in by a fetch_add minus the number counted out by a
    fetch_sub; a task on a queue has been counted in before, a task counted
    out has had its callback return before; so whenever the counter is 0,
    and in particular when WaitForCompletion returns, nothing is queued or
    being processed and the callbacks that have returned are exactly the
    tasks enqueued, each once. *)
Theorem outstanding_task_balance (depth : Z) (worker_count : nat)
        (programs : list (list call)) (schedule : list label) (s : pool) :
  run schedule (start depth worker_count programs) = Some s ->
  outstanding_tasks s
  = Z.of_nat (List.length (counted s)) - Z.of_nat (List.length (finished s))
  /\ (forall t, t ∈ task_queue s ++ task_queue_v2 s -> t ∈ counted s)
  /\ (forall t, t ∈ finished s -> t ∈ callbacks s)
  /\ (outstanding_tasks s = 0 ->
      callbacks s ≡ₚ counted s
      /\ task_queue s = [] /\ task_queue_v2 s = []
      /\ Forall (fun w => w = WIdle) (workers s))
  /\ (forall i rest ph s',
        producers s !! i = Some (Producer (CallWait :: rest) ph) ->
        producer_step i s = Some s' ->
        outstanding_tasks s' = 0
        /\ callbacks s' ≡ₚ counted s'
        /\ List.length (callbacks s') = List.length (counted s')).
Proof.
  intros Hrun.
  pose proof (run_balanced _ _ _ (start_balanced depth worker_count programs) Hrun) as Hb.
  split; [apply Hb |]. split; [| split; [| split]].
  - intros t Ht. apply elem_of_mset. rewrite (bal_counted s Hb).
    apply elem_of_app in Ht as [Ht | Ht]; apply elem_of_mset in Ht; multiset_solver.
  - intros t Ht. apply elem_of_mset. rewrite (bal_callbacks s Hb).
    apply elem_of_mset in Ht. multiset_solver.
  - intros Hzero. destruct (balanced_quiescent s Hb Hzero) as (H1 & H2 & H3 & H4 & _).
    auto.
  - intros i rest ph s' Hi Hstep.
    assert (Hb' : balanced s') by (eapply (step_balanced (LProducer i)); eassumption).
    unfold producer_step in Hstep. rewrite Hi in Hstep.
    destruct (Z.eqb_spec (outstanding_tasks s) 0) as [Hzero |]; [| discriminate].
    injection Hstep as <-.
    destruct (balanced_quiescent _ Hb' Hzero) as (Hperm & _).
    split; [exact Hzero |]. split; [exact Hperm |].
    now rewrite Hperm.
Qed.

(** Two pages in one batch, two workers: a complete run. *)
Definition two_page_schedule : list label :=
  [LProducer 0; LProducer 0; LProducer 0;
   LDequeueV2 0 0; LDequeueV2 1 0; LProcess 1; LDecrement 1;
   LProcess 0; LDecrement 0; LProducer 0].

Lemma outstanding_task_balance_witness :
  exists s,
    run two_page_schedule (start 0 2 [RenderPagesParallelV2_calls 0 2]) = Some s
    /\ outstanding_tasks s = 0
    /\ callbacks s = [Task V2 1; Task V2 0]
    /\ counted s = [Task V2 0; Task V2 1]
    /\ callbacks s ≡ₚ counted s.
Proof.
  eexists. split; [vm_compute; reflexivity |].
  split; [reflexivity |]. split; [reflexivity |]. split; [reflexivity |].
  refine (proj1 (proj1 (proj2 (proj2 (proj2
    (outstanding_task_balance 0 2 [RenderPagesParallelV2_calls 0 2]
       two_page_schedule _ _)))) _)).
  - vm_compute. reflexivity.
  - reflexivity.
Defined.

(** *** Backpressure under one controller *)










(** The two controllers, and their tasks. *)
Definition controller_calls (v : api) (start_page : Z) (page_count : nat) : list call :=
  match v with
  | V1 => RenderPagesParallel_calls start_page page_count
  | V2 => RenderPagesParallelV2_calls start_page page_count
  end.








(** *** Every run can be completed *)

(** The number of steps a call still takes, the three steps of a worker on
    each of its tasks included. *)
Definition call_cost (c : call) : nat :=
  match c with
  | CallEnqueue _ => 6
  | CallEnqueueBatch [] => 1
  | CallEnqueueBatch ts => 3 + 3 * List.length ts
  | CallWait => 1
  end.

Definition calls_cost (cs : list call) : nat := list_sum (map call_cost cs).

Definition producer_cost (p : producer) : nat :=
  match at_phase p, todo p with
  | AtCall, cs => calls_cost cs
  | _, [] => 0
  | _, CallWait :: rest => 1 + calls_cost rest
  | Cleared, CallEnqueue _ :: rest => 5 + calls_cost rest
  | Counted, CallEnqueue _ :: rest => 4 + calls_cost rest
  | Cleared, CallEnqueueBatch ts :: rest => 2 + 3 * List.length ts + calls_cost rest
  | Counted, CallEnqueueBatch ts :: rest => 1 + 3 * List.length ts + calls_cost rest
  end%nat.

Definition worker_cost (w : worker) : nat :=
  match w with
  | WIdle => 0
  | WProcessing _ => 2
  | WCalledBack _ => 1
  end.

(** The number of steps left in any run from [s]. *)
Definition steps_left (s : pool) : nat :=
  (list_sum (map producer_cost (producers s))
   + 3 * (List.length (task_queue s) + List.length (task_queue_v2 s))
   + list_sum (map worker_cost (workers s)))%nat.

Lemma list_sum_insert {A : Type} (f : A -> nat) (l : list A) (i : nat) (x y : A) :
  l !! i = Some x ->
  (list_sum (map f (<[i := y]> l)) + f x = list_sum (map f l) + f y)%nat.
Proof.
  unfold list_sum.
  revert i. induction l as [| a l IH]; intros i Hi; [discriminate |].
  destruct i as [| i].
  - injection Hi as ->. simpl. lia.
  - specialize (IH i Hi).
    change (<[S i := y]> (a :: l)) with (a :: <[i := y]> l). simpl. lia.
Qed.

Lemma calls_cost_cons (c : call) (cs : list call) :
  calls_cost (c :: cs) = (call_cost c + calls_cost cs)%nat.
Proof. reflexivity. Qed.

(** Every step takes one off the number of steps left: no run is longer
    than [steps_left] of its first state. *)
Lemma step_steps_left (l : label) (s s' : pool) :
  step l s = Some s' -> (steps_left s' + 1 = steps_left s)%nat.
Proof.
  intros Hstep. unfold steps_left.
  destruct l as [i | w idx | w idx | w | w]; cbn [step] in Hstep.
  - unfold producer_step in Hstep.
    destruct (producers s !! i) as [[calls ph] |] eqn:Ei; [| discriminate].
    destruct calls as [| [t | ts |] rest]; [discriminate | | |]; destruct ph;
      open_step Hstep;
      try match goal with
          | |- context [api_version ?t] => destruct (api_version t)
          end;
      cbn [producers task_queue task_queue_v2 workers set_producer fetch_add
           enqueue_v1 enqueue_bulk_v2];
      match goal with
      | |- context [<[i := ?y]> (producers s)] =>
          pose proof (list_sum_insert producer_cost _ i _ y Ei) as Hsum
      end;
      cbn [producer_cost todo at_phase] in Hsum;
      rewrite ?calls_cost_cons in Hsum; cbn [call_cost] in Hsum;
      rewrite ?length_app; cbn [List.length] in *; lia.
  - unfold dequeue_v2 in Hstep.
    destruct (workers s !! w) as [[| t | t] |] eqn:Ew; try discriminate.
    destruct (task_queue_v2 s !! idx) as [t |] eqn:Eq; [| discriminate].
    injection Hstep as <-. cbn [producers task_queue task_queue_v2 workers set_worker].
    pose proof (list_sum_insert worker_cost _ w _ (WProcessing t) Ew) as Hsum.
    pose proof (length_delete (task_queue_v2 s) idx (mk_is_Some _ _ Eq)) as Hlen.
    pose proof (lookup_lt_Some _ _ _ Eq) as Hlt.
    cbn in Hsum. lia.
  - unfold dequeue_v1 in Hstep.
    destruct (workers s !! w) as [[| t | t] |] eqn:Ew; try discriminate.
    destruct (task_queue s !! idx) as [t |] eqn:Eq; [| discriminate].
    injection Hstep as <-. cbn [producers task_queue task_queue_v2 workers set_worker].
    pose proof (list_sum_insert worker_cost _ w _ (WProcessing t) Ew) as Hsum.
    pose proof (length_delete (task_queue s) idx (mk_is_Some _ _ Eq)) as Hlen.
    pose proof (lookup_lt_Some _ _ _ Eq) as Hlt.
    cbn in Hsum. lia.
  - unfold process in Hstep.
    destruct (workers s !! w) as [[| t | t] |] eqn:Ew; try discriminate.
    injection Hstep as <-. cbn [producers task_queue task_queue_v2 workers set_worker].
    pose proof (list_sum_insert worker_cost _ w _ (WCalledBack t) Ew) as Hsum.
    cbn in Hsum. lia.
  - unfold decrement in Hstep.
    destruct (workers s !! w) as [[| t | t] |] eqn:Ew; try discriminate.
    injection Hstep as <-. cbn [producers task_queue task_queue_v2 workers set_worker].
    pose proof (list_sum_insert worker_cost _ w _ WIdle Ew) as Hsum.
    cbn in Hsum. lia.
Qed.











Lemma run_app (sched1 sched2 : list label) (s : pool) :
  run (sched1 ++ sched2) s
  = match run sched1 s with Some s1 => run sched2 s1 | None => None end.
Proof.
  revert s. induction sched1 as [| l sched1 IH]; intros s; [reflexivity |].
  cbn [app run]. destruct (step l s); [apply IH | reflexivity].
Qed.




Lemma run_steps_left (schedule : list label) (s s' : pool) :
  run schedule s = Some s' ->
  (steps_left s' + List.length schedule = steps_left s)%nat.
Proof.
  revert s. induction schedule as [| l schedule IH]; intros s Hrun; cbn in Hrun.
  - injection Hrun as <-. cbn. lia.
  - destruct (step l s) as [s1 |] eqn:Estep; [| discriminate].
    pose proof (IH s1 Hrun). pose proof (step_steps_left l s s1 Estep).
    cbn [List.length]. lia.
Qed.





(** Three pages through FPDF_RenderPagesParallel with depth 2 and two
    workers: the third enqueue is held back until a task is finished. *)
Definition three_page_schedule : list label :=
  [LProducer 0; LProducer 0; LProducer 0;
   LProducer 0; LProducer 0; LProducer 0;
   LDequeueV1 0 0; LProcess 0; LDecrement 0;
   LProducer 0; LProducer 0; LProducer 0;
   LDequeueV1 1 0; LDequeueV1 0 0; LProcess 0; LProcess 1;
   LDecrement 1; LDecrement 0].

Example third_enqueue_is_held_back :
  exists s,
    run (firstn 6 three_page_schedule) (start 2 2 [controller_calls V1 0 3]) = Some s
    /\ outstanding_tasks s = 2
    /\ step (LProducer 0) s = None.
Proof. eexists. split; [vm_compute; reflexivity |]. split; reflexivity. Qed.


End Pool.

(* ===================================================================== *)
(** ** What each render path asks of the parser library *)

Module Render.

(** Modelled from the spec: the grayscale-render flag FPDF_GRAYSCALE and
    the three bitmap formats, declared in public/fpdfview.h, which is not
    among the sources. *)
Definition FPDF_GRAYSCALE : Z := 8.

Inductive bitmap_format : Type := FPDFBitmap_Gray | FPDFBitmap_BGR | FPDFBitmap_BGRx.

Definition FPDF_PARALLEL_FORMAT_BGR : Z := 1.
Definition FPDF_PARALLEL_FORMAT_GRAY : Z := 2.

Definition ParallelFormatToFPDFFormat (output_format : Z) : bitmap_format :=
  if output_format =? FPDF_PARALLEL_FORMAT_BGR then FPDFBitmap_BGR
  else if output_format =? FPDF_PARALLEL_FORMAT_GRAY then FPDFBitmap_Gray
  else FPDFBitmap_BGRx.

(** The calls a path makes, in order. *)
Inductive event : Type :=
| LoadPage (page_index : Z)
| OnAfterLoadPage
| DoPageAAction_OPEN
| DoPageAAction_CLOSE
| OnBeforeClosePage
| BitmapCreateEx (width height : Z) (format : bitmap_format)
| PoolAcquire (width height : Z) (format : bitmap_format)
| FillRect (width height fill_color : Z)
| RenderPageBitmap (width height rotate flags : Z)
| FFLDraw (width height rotate flags : Z)
| ClosePage
| CollectionAdd
| PoolRelease
| Callback (page_index : Z) (success : bool).

(** What the library answers for one page. *)
Record page_env := PageEnv {
  loads : bool;               (* FPDF_LoadPage gives a page *)
  has_transparency : bool;
  width_pts : Q;
  height_pts : Q;
  bitmap_ok : bool            (* a bitmap can be created or acquired *)
}.

(** The fields of RenderTask and RenderTaskV2 that the paths read;
    [form_handle] and [page_collection] say whether the pointer is set. *)
Record render_task := RenderTask {
  page_index : Z;
  width : Z;
  height : Z;
  rotate : Z;
  flags : Z;
  form_handle : bool;
  page_collection : bool;
  dpi : Q;
  output_format : Z
}.

Definition fill_color_of (env : page_env) : Z :=
  if has_transparency env then 0 else 4294967295.

Definition render_flags_of (task : render_task) : Z :=
  if output_format task =? FPDF_PARALLEL_FORMAT_GRAY
  then Z.lor (flags task) FPDF_GRAYSCALE
  else flags task.

Definition when (b : bool) (evs : list event) : list event :=
  if b then evs else [].

Definition close_or_defer (task : render_task) : list event :=
  if page_collection task then [CollectionAdd] else [ClosePage].

(** GlobalThreadPool::ProcessTask. *)
Definition ProcessTask (task : render_task) (env : page_env) : list event :=
  [LoadPage (page_index task)]
  ++ if negb (loads env) then [Callback (page_index task) false]
     else
       when (form_handle task) [OnAfterLoadPage; DoPageAAction_OPEN]
       ++ [BitmapCreateEx (width task) (height task)
             (ParallelFormatToFPDFFormat (output_format task))]
       ++ when (bitmap_ok env)
            ([FillRect (width task) (height task) (fill_color_of env);
              RenderPageBitmap (width task) (height task) (rotate task)
                (render_flags_of task)]
             ++ when (form_handle task)
                  [FFLDraw (width task) (height task) (rotate task) (flags task)])
       ++ when (form_handle task) [DoPageAAction_CLOSE; OnBeforeClosePage]
       ++ close_or_defer task
       ++ [Callback (page_index task) (bitmap_ok env)].

(** The body of the loop of the sequential path of
    FPDF_RenderPagesParallel, for the page [page_index task]. *)
Definition sequential_page (task : render_task) (env : page_env) : list event :=
  [LoadPage (page_index task)]
  ++ if negb (loads env) then [Callback (page_index task) false]
     else
       [BitmapCreateEx (width task) (height task)
          (ParallelFormatToFPDFFormat (output_format task))]
       ++ (if bitmap_ok env then
             [FillRect (width task) (height task) (fill_color_of env);
              RenderPageBitmap (width task) (height task) (rotate task)
                (render_flags_of task)]
             ++ when (form_handle task)
                  [FFLDraw (width task) (height task) (rotate task)
                     (render_flags_of task)]
             ++ [Callback (page_index task) true]
           else [Callback (page_index task) false])
       ++ [ClosePage].

(** The per-page dimensions of the V2 paths: from the DPI when width and
    height are both 0 and a DPI is given. *)
Definition actual_dims (task : render_task) (env : page_env) : Dims.dims :=
  if (width task =? 0) && (height task =? 0) && Dims.Qltb 0 (dpi task)
  then Dims.ProcessTaskV2_dims (dpi task) (width_pts env) (height_pts env)
  else Dims.DimsOk (width task) (height task).

(** GlobalThreadPool::ProcessTaskV2; [None] is an undefined conversion. *)
Definition ProcessTaskV2 (task : render_task) (env : page_env) : option (list event) :=
  if negb (loads env)
  then Some [LoadPage (page_index task); Callback (page_index task) false]
  else
    let opening :=
      [LoadPage (page_index task)]
      ++ when (form_handle task) [OnAfterLoadPage; DoPageAAction_OPEN] in
    match actual_dims task env with
    | Dims.DimsUndefined => None
    | Dims.DimsReject =>
        Some (opening ++ [ClosePage; Callback (page_index task) false])
    | Dims.DimsOk actual_width actual_height =>
        let acquire :=
          [PoolAcquire actual_width actual_height
             (ParallelFormatToFPDFFormat (output_format task))] in
        if negb (bitmap_ok env)
        then Some (opening ++ acquire ++ close_or_defer task
                   ++ [Callback (page_index task) false])
        else
          Some (opening ++ acquire
                ++ [FillRect actual_width actual_height (fill_color_of env);
                    RenderPageBitmap actual_width actual_height (rotate task)
                      (render_flags_of task)]
                ++ when (form_handle task)
                     [FFLDraw actual_width actual_height (rotate task) (flags task)]
                ++ when (form_handle task) [DoPageAAction_CLOSE; OnBeforeClosePage]
                ++ close_or_defer task
                ++ [Callback (page_index task) true; PoolRelease])
    end.

(** The body of the loop of the sequential path of
    FPDF_RenderPagesParallelV2. *)
Definition sequential_page_v2 (task : render_task) (env : page_env)
  : option (list event) :=
  if negb (loads env)
  then Some [LoadPage (page_index task); Callback (page_index task) false]
  else
    match actual_dims task env with
    | Dims.DimsUndefined => None
    | Dims.DimsReject =>
        Some [LoadPage (page_index task); ClosePage; Callback (page_index task) false]
    | Dims.DimsOk actual_width actual_height =>
        let acquire :=
          [PoolAcquire actual_width actual_height
             (ParallelFormatToFPDFFormat (output_format task))] in
        if negb (bitmap_ok env)
        then Some ([LoadPage (page_index task)] ++ acquire
                   ++ [ClosePage; Callback (page_index task) false])
        else
          Some ([LoadPage (page_index task)] ++ acquire
                ++ [FillRect actual_width actual_height (fill_color_of env);
                    RenderPageBitmap actual_width actual_height (rotate task)
                      (render_flags_of task)]
                ++ when (form_handle task)
                     [FFLDraw actual_width actual_height (rotate task)
                        (render_flags_of task)]
                ++ [Callback (page_index task) true; ClosePage; PoolRelease])
    end.

(** The bitmap operations of a trace: creating or acquiring, filling,
    rendering, the form overlay, and the form lifecycle events. *)
Definition is_bitmap_op (e : event) : bool :=
  match e with
  | OnAfterLoadPage | DoPageAAction_OPEN | DoPageAAction_CLOSE | OnBeforeClosePage
  | BitmapCreateEx _ _ _ | PoolAcquire _ _ _ | FillRect _ _ _
  | RenderPageBitmap _ _ _ _ | FFLDraw _ _ _ _ => true
  | _ => false
  end.

Definition bitmap_ops (trace : list event) : list event := List.filter is_bitmap_op trace.

Definition is_callback (e : event) : bool :=
  match e with Callback _ _ => true | _ => false end.

(** Every path through ProcessTask and ProcessTaskV2 invokes the completion
    callback once: the step [Pool.process] stands for either. *)
Lemma ProcessTask_one_callback (task : render_task) (env : page_env) :
  List.length (List.filter is_callback (ProcessTask task env)) = 1%nat.
Proof.
  unfold ProcessTask, close_or_defer, when.
  destruct (loads env), (form_handle task), (bitmap_ok env), (page_collection task);
    reflexivity.
Qed.

Lemma ProcessTaskV2_one_callback (task : render_task) (env : page_env)
                                 (trace : list event) :
  ProcessTaskV2 task env = Some trace ->
  List.length (List.filter is_callback trace) = 1%nat.
Proof.
  unfold ProcessTaskV2, close_or_defer, when.
  destruct (loads env); cbn [negb]; [| intros [= <-]; reflexivity].
  destruct (actual_dims task env); [| | discriminate];
    destruct (form_handle task), (bitmap_ok env), (page_collection task);
    intros [= <-]; reflexivity.
Qed.

(** Without a form handle the sequential path and the worker path of each
    entry point issue the same bitmap operations for a page. *)
Lemma paths_agree_without_form (task : render_task) (env : page_env) :
  form_handle task = false ->
  bitmap_ops (sequential_page task env) = bitmap_ops (ProcessTask task env)
  /\ option_map bitmap_ops (sequential_page_v2 task env)
     = option_map bitmap_ops (ProcessTaskV2 task env).
Proof.
  intros Hform. unfold sequential_page, ProcessTask, sequential_page_v2, ProcessTaskV2,
    close_or_defer, when. rewrite Hform. split.
  - destruct (loads env), (bitmap_ok env), (page_collection task); reflexivity.
  - destruct (loads env); cbn [negb]; [| reflexivity].
    destruct (actual_dims task env); [| reflexivity | reflexivity].
    destruct (bitmap_ok env), (page_collection task); reflexivity.
Qed.

(** A page rendered with a form handle, grayscale output and annotations
    on (flags = FPDF_ANNOT = 1), as a one-page range hands it to the
    sequential path and a longer range hands it to a worker. *)
Definition form_task : render_task :=
  RenderTask 0 800 600 0 1 true true 0 FPDF_PARALLEL_FORMAT_GRAY.

Definition letter_env : page_env := PageEnv true false 612 792 true.

(** C1: with a form handle the sequential paths and the worker paths do
    not issue the same bitmap operations.  The workers issue the four form
    lifecycle events and draw the form overlay with the caller's flags;
    the sequential paths issue no lifecycle event and draw the overlay
    with the grayscale flag added. *)
Theorem sequential_and_worker_paths_differ :
  (bitmap_ops <$> sequential_page_v2 form_task letter_env)
  = Some [PoolAcquire 800 600 FPDFBitmap_Gray;
          FillRect 800 600 4294967295;
          RenderPageBitmap 800 600 0 9;
          FFLDraw 800 600 0 9]
  /\ (bitmap_ops <$> ProcessTaskV2 form_task letter_env)
     = Some [OnAfterLoadPage; DoPageAAction_OPEN;
             PoolAcquire 800 600 FPDFBitmap_Gray;
             FillRect 800 600 4294967295;
             RenderPageBitmap 800 600 0 9;
             FFLDraw 800 600 0 1;
             DoPageAAction_CLOSE; OnBeforeClosePage]
  /\ bitmap_ops (sequential_page form_task letter_env)
     = [BitmapCreateEx 800 600 FPDFBitmap_Gray;
        FillRect 800 600 4294967295;
        RenderPageBitmap 800 600 0 9;
        FFLDraw 800 600 0 9]
  /\ bitmap_ops (ProcessTask form_task letter_env)
     = [OnAfterLoadPage; DoPageAAction_OPEN;
        BitmapCreateEx 800 600 FPDFBitmap_Gray;
        FillRect 800 600 4294967295;
        RenderPageBitmap 800 600 0 9;
        FFLDraw 800 600 0 1;
        DoPageAAction_CLOSE; OnBeforeClosePage]
  /\ (bitmap_ops <$> sequential_page_v2 form_task letter_env)
     <> (bitmap_ops <$> ProcessTaskV2 form_task letter_env)
  /\ bitmap_ops (sequential_page form_task letter_env)
     <> bitmap_ops (ProcessTask form_task letter_env).
Proof.
  repeat split; try (vm_compute; reflexivity); vm_compute; discriminate.
Qed.

End Render.

(* ===================================================================== *)
(** ** The indirect-object cache: how its operations compose *)

Module HolderLaws.

Import Holder.

(** Every object stored in the cache sits at a number that the counter has
    reached; null placeholders are not counted. *)
Definition below_counter (st : holder) : Prop :=
  forall k p, indirect_objs st !! k = Some (Some p) -> k <= last_obj_num st.

(** GetIndirectObject after AddIndirectObject: the object comes back under
    the number it was given, and every other number answers as before.
    When the counter stands at 0xFFFFFFFE the number given is the invalid
    one, and the object that was just added cannot be looked up. *)
Theorem add_then_get (q : ptr) (oq : object) (st : holder) :
  heap st !! q = Some oq -> obj_num oq = 0 ->
  0 <= last_obj_num st < UINT32_MAX ->
  let n := last_obj_num st + 1 in
  exists st',
    AddIndirectObject q st = Some (n, st')
    /\ heap st' !! q = Some (Object n (gen_num oq))
    /\ last_obj_num st' = n
    /\ GetIndirectObjectInternal n st'
       = (if n =? kInvalidObjNum then None else Some q)
    /\ (forall k, k <> n -> indirect_objs st' !! k = indirect_objs st !! k)
    /\ (n <> kInvalidObjNum ->
        forall k, k <> n ->
          GetIndirectObjectInternal k st' = GetIndirectObjectInternal k st).
Proof.
  intros Hq Hzero Hlast n. unfold AddIndirectObject. rewrite Hq, Hzero. cbn.
  assert (E : u32 (last_obj_num st + 1) = n).
  { unfold u32. apply Z.mod_small. unfold UINT32_MAX in Hlast. lia. }
  rewrite E. eexists. split; [reflexivity |]. cbn.
  assert (Hheap : alter (fun o => Object n (gen_num o)) q (heap st) !! q
                  = Some (Object n (gen_num oq))).
  { now rewrite lookup_alter_eq, Hq. }
  split; [exact Hheap |]. split; [reflexivity |]. split; [| split].
  - unfold GetIndirectObjectInternal. cbn. rewrite lookup_insert_eq.
    unfold FilterInvalidObjNum. cbn. rewrite Hheap. reflexivity.
  - intros k Hk. now rewrite lookup_insert_ne.
  - intros Hvalid k Hk. unfold GetIndirectObjectInternal. cbn.
    rewrite lookup_insert_ne by congruence.
    destruct (indirect_objs st !! k) as [second |]; [| reflexivity].
    destruct second as [p |]; [| reflexivity].
    unfold FilterInvalidObjNum. cbn.
    destruct (decide (p = q)) as [-> | Hp].
    + rewrite Hheap, Hq, Hzero. cbn.
      destruct (Z.eqb_spec n kInvalidObjNum); [contradiction | reflexivity].
    + now rewrite lookup_alter_ne by congruence.
Qed.

Lemma add_then_get_witness :
  let st := snd (new_object 0 empty_holder) in
  exists st',
    AddIndirectObject 1%positive st = Some (1, st')
    /\ GetIndirectObjectInternal 1 st' = Some 1%positive.
Proof.
  intros st.
  destruct (add_then_get 1%positive (Object 0 0) st)
    as (st' & Hadd & _ & _ & Hget & _).
  - vm_compute. reflexivity.
  - reflexivity.
  - change (0 <= 0 < 4294967295). lia.
  - exists st'. split; [exact Hadd | exact Hget].
Defined.

(** DeleteIndirectObject: afterwards the number answers nothing, every
    other entry and the counter are as before (so a deleted number is not
    given out again by a later add), and the call does nothing at all when
    the number had no valid entry, a placeholder of a parse under way
    included. *)
Theorem delete_then_get (k : Z) (st : holder) :
  GetIndirectObjectInternal k (DeleteIndirectObject k st) = None
  /\ (forall j, j <> k ->
        indirect_objs (DeleteIndirectObject k st) !! j = indirect_objs st !! j)
  /\ last_obj_num (DeleteIndirectObject k st) = last_obj_num st
  /\ heap (DeleteIndirectObject k st) = heap st
  /\ (GetIndirectObjectInternal k st = None -> DeleteIndirectObject k st = st)
  /\ (GetIndirectObjectInternal k st <> None ->
      indirect_objs (DeleteIndirectObject k st) !! k = None).
Proof.
  unfold DeleteIndirectObject, GetIndirectObjectInternal.
  destruct (indirect_objs st !! k) as [second |] eqn:Elook.
  - destruct (FilterInvalidObjNum st second) as [p |] eqn:Efilter.
    + cbn. rewrite lookup_delete_eq. repeat split; try discriminate.
      * intros j Hj. now rewrite lookup_delete_ne by congruence.
    + rewrite Elook, Efilter. repeat split; congruence.
  - rewrite Elook. repeat split; congruence.
Qed.

(** *** What a get_or_parse leaves behind *)

Section AfterGetOrParse.

Variable ParseIndirectObject : Z -> script.

Local Abbreviation GOP := (GetOrParseIndirectObjectInternal ParseIndirectObject).

(** A property of holders that logging an event does not touch. *)
Definition log_stable (P : holder -> Prop) : Prop :=
  forall e st, P st -> P (log e st).

Lemma run_script_keeps (P : holder -> Prop) gop :
  log_stable P ->
  (forall objnum st r st', P st -> gop objnum st = Some (r, st') -> P st') ->
  forall sc st r st', P st -> run_script gop sc st = Some (r, st') -> P st'.
Proof.
  intros Hlog Hgop. induction sc as [parsed | objnum cont IH | objnum cont IH];
    intros st r st' HP Hrun; cbn [run_script] in Hrun.
  - now injection Hrun as _ <-.
  - eapply IH; [| exact Hrun]. now apply Hlog.
  - destruct (gop objnum st) as [[r1 st1] |] eqn:Egop; [| discriminate].
    eapply IH; [| exact Hrun]. apply Hlog. eapply Hgop; eassumption.
Qed.

Lemma below_counter_log : log_stable below_counter.
Proof. intros e st H k p. cbn. apply H. Qed.

Lemma GOP_below_counter fuel :
  forall objnum st r st',
    below_counter st -> GOP fuel objnum st = Some (r, st') -> below_counter st'.
Proof.
  induction fuel as [| fuel IH]; intros objnum st r st' HP Hrun; [discriminate |].
  cbn [GetOrParseIndirectObjectInternal] in Hrun.
  destruct ((objnum =? 0) || (objnum =? kInvalidObjNum)).
  { now injection Hrun as _ <-. }
  destruct (indirect_objs st !! objnum) as [second |] eqn:Elook.
  { now injection Hrun as _ <-. }
  set (st1 := log (EvParse objnum) (set_objs (insert objnum None) st)) in Hrun.
  assert (H1 : below_counter st1).
  { intros k p. cbn. destruct (decide (k = objnum)) as [-> | Hk].
    - rewrite lookup_insert_eq. discriminate.
    - rewrite lookup_insert_ne by congruence. apply HP. }
  destruct (run_script (GOP fuel) (ParseIndirectObject objnum) st1)
    as [[parsed st2] |] eqn:Escript; [| discriminate].
  pose proof (run_script_keeps below_counter (GOP fuel) below_counter_log IH
                _ _ _ _ H1 Escript) as H2.
  destruct parsed as [gen |]; injection Hrun as _ <-.
  - intros k p. cbn. destruct (decide (k = objnum)) as [-> | Hk].
    + intros _. lia.
    + rewrite lookup_insert_ne by congruence. intros Hin.
      specialize (H2 k p Hin). lia.
  - intros k p. cbn. destruct (decide (k = objnum)) as [-> | Hk].
    + rewrite lookup_delete_eq. discriminate.
    + rewrite lookup_delete_ne by congruence. apply H2.
Qed.

End AfterGetOrParse.

(** How often a run of events started the parser for [k]. *)
Definition parses_of (k : Z) (evs : list event) : nat :=
  List.length (List.filter (fun e => match e with
                                     | EvParse objnum => objnum =? k
                                     | EvAnswer _ _ => false
                                     end) evs).

Lemma quiet_parses_of (k : Z) (evs : list event) :
  Forall (quiet_for k) evs -> parses_of k evs = 0%nat.
Proof.
  unfold parses_of. induction 1 as [| e evs Hq _ IH]; [reflexivity |].
  cbn. destruct e as [objnum | objnum result]; [| exact IH].
  cbn in Hq. destruct (Z.eqb_spec objnum k); [contradiction | exact IH].
Qed.

(** GetOrParseIndirectObject, then GetIndirectObject: what the call
    returned is what a lookup now returns.  The parser for [k] ran once if
    the cache had no entry for [k] and not at all otherwise, re-entrant
    calls included; an object that was returned is served from the cache by
    every later call, which changes nothing; and a parse that failed leaves
    no entry behind, so that a later call parses again. *)
Theorem get_or_parse_then_get (parser : Z -> script) (fuel : nat) (k : Z)
                              (st : holder) (r : option ptr) (st' : holder) :
  k <> 0 -> k <> kInvalidObjNum ->
  GetOrParseIndirectObjectInternal parser fuel k st = Some (r, st') ->
  GetIndirectObjectInternal k st' = r
  /\ (exists new,
        events st' = events st ++ new
        /\ parses_of k new = match indirect_objs st !! k with
                             | Some _ => 0%nat
                             | None => 1%nat
                             end)
  /\ (r <> None ->
      forall fuel',
        GetOrParseIndirectObjectInternal parser (S fuel') k st' = Some (r, st'))
  /\ (r = None -> indirect_objs st !! k = None -> indirect_objs st' !! k = None).
Proof.
  intros Hnz Hvalid Hrun. destruct fuel as [| fuel]; [discriminate |].
  cbn [GetOrParseIndirectObjectInternal] in Hrun |- *.
  destruct (Z.eqb_spec k 0) as [| _]; [contradiction |].
  destruct (Z.eqb_spec k kInvalidObjNum) as [| _]; [contradiction |].
  cbn [orb] in Hrun |- *.
  destruct (indirect_objs st !! k) as [second |] eqn:Elook.
  { injection Hrun as <- <-. unfold GetIndirectObjectInternal. rewrite Elook.
    split; [reflexivity |]. split; [| split].
    - exists []. now rewrite app_nil_r.
    - reflexivity.
    - discriminate. }
  set (st1 := log (EvParse k) (set_objs (insert k None) st)) in Hrun.
  assert (Hk1 : in_flight k st1).
  { unfold in_flight, st1. cbn. apply lookup_insert_eq. }
  destruct (run_script (GetOrParseIndirectObjectInternal parser fuel) (parser k) st1)
    as [[parsed st2] |] eqn:Escript; [| discriminate].
  destruct (run_script_respects k _ (GOP_respects parser k fuel)
              _ _ _ _ Hk1 Escript) as [Hk2 (new & Hev & Hquiet)].
  assert (Hcount : parses_of k (EvParse k :: new) = 1%nat).
  { unfold parses_of. cbn. rewrite Z.eqb_refl. cbn.
    f_equal. exact (quiet_parses_of k new Hquiet). }
  assert (Hevents : events st2 = events st ++ EvParse k :: new).
  { rewrite Hev. unfold st1. cbn. now rewrite <- app_assoc. }
  destruct parsed as [gen |]; injection Hrun as <- <-.
  - assert (Hget : GetIndirectObjectInternal k
             (set_objs (insert k (Some (next_ptr st2)))
                (set_last (Z.max (last_obj_num st2) k)
                   (SetObjNum (next_ptr st2) k (snd (new_object gen st2)))))
             = Some (next_ptr st2)).
    { unfold GetIndirectObjectInternal, FilterInvalidObjNum. cbn.
      rewrite lookup_insert_eq, lookup_alter_eq, lookup_insert_eq. cbn.
      destruct (Z.eqb_spec k kInvalidObjNum); [contradiction | reflexivity]. }
    cbn [new_object fst snd] in Hget |- *.
    split; [exact Hget |]. split; [| split].
    + exists (EvParse k :: new). split; [exact Hevents | exact Hcount].
    + intros _ fuel'. cbn [indirect_objs set_objs].
      rewrite lookup_insert_eq.
      unfold GetIndirectObjectInternal in Hget. cbn [indirect_objs set_objs] in Hget.
      rewrite lookup_insert_eq in Hget. now rewrite Hget.
    + discriminate.
  - split; [| split; [| split]].
    + unfold GetIndirectObjectInternal. cbn. now rewrite lookup_delete_eq.
    + exists (EvParse k :: new). split; [exact Hevents | exact Hcount].
    + congruence.
    + intros _ _. cbn. apply lookup_delete_eq.
Qed.

(** A document whose object 9 is a plain object of generation 2 and whose
    other objects cannot be parsed. *)
Definition one_object_document (objnum : Z) : script :=
  if objnum =? 9 then Finish (Some 2) else Finish None.

Lemma get_or_parse_then_get_witness :
  exists st',
    GetOrParseIndirectObjectInternal one_object_document 1 9 empty_holder
    = Some (Some 1%positive, st')
    /\ GetIndirectObjectInternal 9 st' = Some 1%positive
    /\ GetOrParseIndirectObjectInternal one_object_document 1 9 st'
       = Some (Some 1%positive, st').
Proof.
  eexists. split; [vm_compute; reflexivity |].
  match goal with
  | |- GetIndirectObjectInternal 9 ?s = _ /\ _ =>
      destruct (get_or_parse_then_get one_object_document 1 9 empty_holder
                  (Some 1%positive) s) as (Hget & _ & Hhit & _)
  end.
  - discriminate.
  - discriminate.
  - vm_compute. reflexivity.
  - split; [exact Hget | apply Hhit; discriminate].
Defined.

(** ReplaceIndirectObjectIfHigherGeneration on a number that holds a valid
    object: the new object takes its place if and only if its generation is
    strictly higher; otherwise the call returns false and the holder is
    left exactly as it was. *)
Theorem replace_respects_generation (k : Z) (p o : ptr) (op oo : object)
                                    (st : holder) :
  k <> kInvalidObjNum ->
  heap st !! p = Some op ->
  GetIndirectObjectInternal k st = Some o -> heap st !! o = Some oo ->
  if gen_num op <=? gen_num oo
  then ReplaceIndirectObjectIfHigherGeneration k (Some p) st = (false, st)
  else exists st',
         ReplaceIndirectObjectIfHigherGeneration k (Some p) st = (true, st')
         /\ GetIndirectObjectInternal k st' = Some p
         /\ heap st' !! p = Some (Object k (gen_num op))
         /\ last_obj_num st' = Z.max (last_obj_num st) k
         /\ (forall j, j <> k -> indirect_objs st' !! j = indirect_objs st !! j).
Proof.
  intros Hvalid Hp Hget Ho. unfold ReplaceIndirectObjectIfHigherGeneration.
  destruct (Z.eqb_spec k kInvalidObjNum) as [| _]; [contradiction |].
  unfold GetIndirectObjectInternal in Hget.
  destruct (indirect_objs st !! k) as [second |] eqn:Elook; [| discriminate].
  change (default None (Some second)) with second.
  assert (Hid : set_objs (insert k second) st = st).
  { destruct st as [objs lastn hp np evs]. unfold set_objs. cbn in *.
    now rewrite insert_id. }
  rewrite Hid, Hget, Hp, Ho. cbn [fmap option_fmap option_map from_option id].
  destruct (gen_num op <=? gen_num oo); [reflexivity |].
  eexists. split; [reflexivity |].
  unfold GetIndirectObjectInternal, FilterInvalidObjNum. cbn.
  rewrite lookup_insert_eq, lookup_alter_eq, Hp. cbn.
  destruct (Z.eqb_spec k kInvalidObjNum); [contradiction |].
  repeat split. intros j Hj. now rewrite lookup_insert_ne by congruence.
Qed.

Lemma replace_respects_generation_witness :
  let st0 := snd (new_object 5 (snd (new_object 3 (snd (new_object 3 empty_holder))))) in
  let st := snd (ReplaceIndirectObjectIfHigherGeneration 12 (Some 1%positive) st0) in
  ReplaceIndirectObjectIfHigherGeneration 12 (Some 2%positive) st = (false, st)
  /\ exists st',
       ReplaceIndirectObjectIfHigherGeneration 12 (Some 3%positive) st = (true, st')
       /\ GetIndirectObjectInternal 12 st' = Some 3%positive.
Proof.
  intros st0 st. split.
  - exact (replace_respects_generation 12 2%positive 1%positive
             (Object 0 3) (Object 12 3) st
             ltac:(discriminate) eq_refl eq_refl eq_refl).
  - destruct (replace_respects_generation 12 3%positive 1%positive
                (Object 0 5) (Object 12 3) st
                ltac:(discriminate) eq_refl eq_refl eq_refl)
      as (st' & Hrep & Hget & _).
    exists st'. split; [exact Hrep | exact Hget].
Defined.

(** The counter bounds the numbers in use: in a holder where every stored
    object sits at a number the counter has reached, AddIndirectObject
    gives out a number at which no object is stored, so it never replaces
    one, and add, replace, delete and get_or_parse (with any parser, at any
    depth of re-entrant calls) all keep the holder that way.  The add is
    taken with the counter below 0xFFFFFFFF, where it does not wrap. *)
Theorem counter_bounds_stored_numbers (st : holder) :
  below_counter st ->
  (forall q n st',
     0 <= last_obj_num st < UINT32_MAX ->
     AddIndirectObject q st = Some (n, st') ->
     (forall p, indirect_objs st !! n <> Some (Some p)) /\ below_counter st')
  /\ (forall k pObj,
        below_counter (snd (ReplaceIndirectObjectIfHigherGeneration k pObj st)))
  /\ (forall k, below_counter (DeleteIndirectObject k st))
  /\ (forall parser fuel k r st',
        GetOrParseIndirectObjectInternal parser fuel k st = Some (r, st') ->
        below_counter st').
Proof.
  intros HP. split; [| split; [| split]].
  - intros q n st' Hlast Hadd. unfold AddIndirectObject in Hadd.
    destruct (heap st !! q) as [oq |]; [| discriminate].
    destruct (obj_num oq =? 0); [| discriminate].
    assert (E : u32 (last_obj_num st + 1) = last_obj_num st + 1).
    { unfold u32. apply Z.mod_small. unfold UINT32_MAX in Hlast. lia. }
    cbn in Hadd. rewrite E in Hadd. injection Hadd as <- <-. split.
    + intros p Hin. specialize (HP _ _ Hin). lia.
    + intros k p. cbn. destruct (decide (k = last_obj_num st + 1)) as [-> | Hk].
      * intros _. lia.
      * rewrite lookup_insert_ne by congruence. intros Hin.
        specialize (HP _ _ Hin). lia.
  - intros k pObj. unfold ReplaceIndirectObjectIfHigherGeneration.
    destruct pObj as [p |]; [| exact HP].
    destruct (k =? kInvalidObjNum); [exact HP |].
    assert (H1 : below_counter
                   (set_objs (insert k (default None (indirect_objs st !! k))) st)).
    { intros j pj. cbn. destruct (decide (j = k)) as [-> | Hj].
      - rewrite lookup_insert_eq.
        destruct (indirect_objs st !! k) as [second |] eqn:Elook; cbn; [| discriminate].
        intros [= ->]. now apply (HP k pj).
      - rewrite lookup_insert_ne by congruence. apply HP. }
    match goal with |- context [if ?b then _ else _] => destruct b end; [exact H1 |].
    intros j pj. cbn. destruct (decide (j = k)) as [-> | Hj].
    + intros _. lia.
    + rewrite !lookup_insert_ne by congruence. intros Hin.
      specialize (HP _ _ Hin). lia.
  - intros k. unfold DeleteIndirectObject.
    destruct (indirect_objs st !! k) as [second |]; [| exact HP].
    destruct (FilterInvalidObjNum st second); [| exact HP].
    intros j pj. cbn. destruct (decide (j = k)) as [-> | Hj].
    + rewrite lookup_delete_eq. discriminate.
    + rewrite lookup_delete_ne by congruence. apply HP.
  - intros parser fuel k r st' Hrun.
    exact (GOP_below_counter parser fuel k st r st' HP Hrun).
Qed.

Lemma counter_bounds_stored_numbers_witness :
  let st := snd (ReplaceIndirectObjectIfHigherGeneration 12 (Some 1%positive)
                   (snd (new_object 0 (snd (new_object 0 empty_holder))))) in
  exists st',
    AddIndirectObject 2%positive st = Some (13, st')
    /\ indirect_objs st !! 13 = None
    /\ below_counter st'.
Proof.
  intros st.
  assert (HP : below_counter st).
  { apply (counter_bounds_stored_numbers
             (snd (new_object 0 (snd (new_object 0 empty_holder))))).
    intros k p. cbn. rewrite lookup_empty. discriminate. }
  eexists. split; [vm_compute; reflexivity |]. split; [vm_compute; reflexivity |].
  apply (proj1 (counter_bounds_stored_numbers st HP) 2%positive 13).
  - change (0 <= 12 < 4294967295). lia.
  - vm_compute. reflexivity.
Defined.

End HolderLaws.

(* ===================================================================== *)
(** ** Splitting a page range over worker processes *)

Module Split.

Import Hybrid.

(** The pages a child is started for: [worker_start], ..., [worker_end - 1]. *)
Definition pages_of (c : child) : list Z :=
  seqZ (worker_start c) (worker_end c - worker_start c).

Lemma spawn_from_past_end n wid sp ep ppw tc :
  ep < sp + wid * ppw -> spawn_from n wid sp ep ppw tc = [].
Proof.
  intros Hpast. destruct n as [| n]; [reflexivity |]. simpl.
  destruct (Z.ltb_spec ep (sp + wid * ppw)); [reflexivity | lia].
Qed.

Lemma spawn_from_pages n : forall wid sp ep ppw tc,
  0 < ppw -> ep + 1 - (sp + wid * ppw) <= Z.of_nat n * ppw ->
  flat_map pages_of (spawn_from n wid sp ep ppw tc)
  = seqZ (sp + wid * ppw) (ep + 1 - (sp + wid * ppw)).
Proof.
  induction n as [| n IH]; intros wid sp ep ppw tc Hppw Hroom.
  - simpl. rewrite seqZ_nil by lia. reflexivity.
  - cbn [spawn_from].
    destruct (Z.ltb_spec ep (sp + wid * ppw)) as [Hpast | Hin].
    { rewrite seqZ_nil by lia. reflexivity. }
    cbn [flat_map]. unfold pages_of at 1. cbn [worker_start worker_end].
    destruct (Z.ltb_spec (ep + 1) (sp + wid * ppw + ppw)) as [Hlast | Hmore].
    + rewrite spawn_from_past_end by lia. cbn [flat_map]. now rewrite app_nil_r.
    + rewrite IH by lia.
      replace (sp + wid * ppw + ppw - (sp + wid * ppw)) with ppw by lia.
      replace (sp + (wid + 1) * ppw) with (sp + wid * ppw + ppw) by lia.
      rewrite <- seqZ_app by lia. f_equal. lia.
Qed.

Lemma spawn_from_shape n : forall wid sp ep ppw tc,
  0 < ppw -> 0 <= wid ->
  Forall (fun c => sp <= worker_start c /\ worker_start c < worker_end c
                   /\ worker_end c <= ep + 1
                   /\ worker_end c - worker_start c <= ppw)
         (spawn_from n wid sp ep ppw tc)
  /\ map worker_id (spawn_from n wid sp ep ppw tc)
     = seqZ wid (Z.of_nat (List.length (spawn_from n wid sp ep ppw tc)))
  /\ (List.length (spawn_from n wid sp ep ppw tc) <= n)%nat.
Proof.
  induction n as [| n IH]; intros wid sp ep ppw tc Hppw Hwid.
  - simpl. repeat split; [constructor | lia].
  - cbn [spawn_from].
    destruct (Z.ltb_spec ep (sp + wid * ppw)) as [Hpast | Hin].
    { simpl. repeat split; [constructor | lia]. }
    destruct (IH (wid + 1) sp ep ppw tc Hppw ltac:(lia)) as (Hall & Hids & Hlen).
    split; [| split].
    + constructor; [| exact Hall]. cbn [worker_start worker_end].
      destruct (Z.ltb_spec (ep + 1) (sp + wid * ppw + ppw)); nia.
    + cbn [map List.length worker_id]. rewrite Hids.
      rewrite Nat2Z.inj_succ, <- Z.add_1_l.
      rewrite (seqZ_app wid 1) by lia. reflexivity.
    + cbn [List.length]. lia.
Qed.

(** render_pages_fast: the children's page ranges, taken in the order of
    the worker ids, list every page of [start_page .. end_page] exactly
    once and in order; no child is started for an empty range or for a
    page outside the range; the ids are 0, 1, 2, ... without a gap; there
    are at most [worker_count] children, each with at most
    ceil(page_count / worker_count) pages. *)
Theorem render_pages_fast_partition (worker_count start_page end_page thread_count : Z) :
  1 <= worker_count -> start_page <= end_page ->
  let children := render_pages_fast worker_count start_page end_page thread_count in
  let page_count := end_page - start_page + 1 in
  flat_map pages_of children = seqZ start_page page_count
  /\ Forall (fun c => start_page <= worker_start c /\ worker_start c < worker_end c
                      /\ worker_end c <= end_page + 1
                      /\ worker_end c - worker_start c
                         <= (page_count + worker_count - 1) / worker_count) children
  /\ map worker_id children = seqZ 0 (Z.of_nat (List.length children))
  /\ Z.of_nat (List.length children) <= worker_count.
Proof.
  intros Hwc Hrange children page_count. subst children. unfold render_pages_fast.
  fold page_count.
  set (ppw := (page_count + worker_count - 1) / worker_count).
  assert (Hppw : 0 < ppw).
  { subst ppw. apply Z.div_str_pos. subst page_count. lia. }
  assert (Hroom : page_count <= worker_count * ppw).
  { subst ppw. pose proof (Z.mul_succ_div_gt (page_count + worker_count - 1) worker_count
                               ltac:(lia)). lia. }
  destruct (spawn_from_shape (Z.to_nat worker_count) 0 start_page end_page ppw
              thread_count Hppw ltac:(lia)) as (Hall & Hids & Hlen).
  split; [| split; [| split]].
  - rewrite spawn_from_pages by (rewrite ?Z2Nat.id; subst page_count; lia).
    f_equal; subst page_count; lia.
  - exact Hall.
  - exact Hids.
  - lia.
Qed.

Lemma render_pages_fast_partition_witness :
  map pages_of (render_pages_fast 4 10 19 2)
  = [[10; 11; 12]; [13; 14; 15]; [16; 17; 18]; [19]]
  /\ flat_map pages_of (render_pages_fast 4 10 19 2) = seqZ 10 10.
Proof.
  split; [vm_compute; reflexivity |].
  exact (proj1 (render_pages_fast_partition 4 10 19 2 ltac:(lia) ltac:(lia))).
Defined.

End Split.

(* ===================================================================== *)
(** ** Text extraction: transcoding and the assembly of the output file *)

Module Text.

Import Json.

(** write_bom and write_utf8_bom. *)
Definition write_bom : list Z := [255; 254; 0; 0].
Definition write_utf8_bom : list Z := [239; 187; 191].

(** write_codepoint: the four bytes of UTF-32 LE. *)
Definition write_codepoint (codepoint : Z) : list Z :=
  [Z.land codepoint 255;
   Z.land (Z.shiftr codepoint 8) 255;
   Z.land (Z.shiftr codepoint 16) 255;
   Z.land (Z.shiftr codepoint 24) 255].

(** append_utf8_codepoint. *)
Definition append_utf8_codepoint (buffer : list Z) (codepoint : Z) : list Z :=
  if codepoint <? 128 then
    buffer ++ [byte_of codepoint]
  else if codepoint <? 2048 then
    buffer ++ [byte_of (Z.lor 192 (Z.shiftr codepoint 6));
               byte_of (Z.lor 128 (Z.land codepoint 63))]
  else if codepoint <? 65536 then
    buffer ++ [byte_of (Z.lor 224 (Z.shiftr codepoint 12));
               byte_of (Z.lor 128 (Z.land (Z.shiftr codepoint 6) 63));
               byte_of (Z.lor 128 (Z.land codepoint 63))]
  else if codepoint <? 1114112 then
    buffer ++ [byte_of (Z.lor 240 (Z.shiftr codepoint 18));
               byte_of (Z.lor 128 (Z.land (Z.shiftr codepoint 12) 63));
               byte_of (Z.lor 128 (Z.land (Z.shiftr codepoint 6) 63));
               byte_of (Z.lor 128 (Z.land codepoint 63))]
  else buffer ++ [239; 191; 189].

(** write_utf8_codepoint: [bytes] is filled up to [len] and [len] bytes of
    it are written. *)
Definition write_utf8_codepoint (codepoint : Z) : list Z :=
  let '(bytes, len) :=
    if codepoint <? 128 then
      ([byte_of codepoint; 0; 0; 0], 1%nat)
    else if codepoint <? 2048 then
      ([byte_of (Z.lor 192 (Z.shiftr codepoint 6));
        byte_of (Z.lor 128 (Z.land codepoint 63)); 0; 0], 2%nat)
    else if codepoint <? 65536 then
      ([byte_of (Z.lor 224 (Z.shiftr codepoint 12));
        byte_of (Z.lor 128 (Z.land (Z.shiftr codepoint 6) 63));
        byte_of (Z.lor 128 (Z.land codepoint 63)); 0], 3%nat)
    else if codepoint <? 1114112 then
      ([byte_of (Z.lor 240 (Z.shiftr codepoint 18));
        byte_of (Z.lor 128 (Z.land (Z.shiftr codepoint 12) 63));
        byte_of (Z.lor 128 (Z.land (Z.shiftr codepoint 6) 63));
        byte_of (Z.lor 128 (Z.land codepoint 63))], 4%nat)
    else ([239; 191; 189; 0], 3%nat) in
  firstn len bytes.

(** The surrogate tests and the pairing of the slow path. *)
Definition is_high_surrogate (unicode : Z) : bool :=
  (55296 <=? unicode) && (unicode <=? 56319).      (* 0xD800 .. 0xDBFF *)

Definition is_low_surrogate (unicode : Z) : bool :=
  (56320 <=? unicode) && (unicode <=? 57343).      (* 0xDC00 .. 0xDFFF *)

Definition pair_codepoint (unicode low : Z) : Z :=
  Z.shiftl (unicode - 55296) 10 + (low - 56320) + 65536.

(** Appending one code point to the page buffer, in either encoding. *)
Definition push_codepoint (use_utf8 : bool) (page_buffer : list Z) (codepoint : Z)
  : list Z :=
  if use_utf8 then append_utf8_codepoint page_buffer codepoint
  else page_buffer ++ write_codepoint codepoint.

(** The slow path: the loop over the characters of a page, with UTF-16
    surrogate pairs read as one code point. *)
Fixpoint slow_path (use_utf8 : bool) (chars : list Z) (page_buffer : list Z) : list Z :=
  match chars with
  | [] => page_buffer
  | unicode :: rest =>
      if is_high_surrogate unicode then
        match rest with
        | low :: rest' =>
            if is_low_surrogate low
            then slow_path use_utf8 rest'
                   (push_codepoint use_utf8 page_buffer (pair_codepoint unicode low))
            else slow_path use_utf8 rest (push_codepoint use_utf8 page_buffer 65533)
        | [] => push_codepoint use_utf8 page_buffer 65533
        end
      else if is_low_surrogate unicode
      then slow_path use_utf8 rest (push_codepoint use_utf8 page_buffer 65533)
      else slow_path use_utf8 rest (push_codepoint use_utf8 page_buffer unicode)
  end.

(** The ASCII fast path. *)
Definition fast_path (use_utf8 : bool) (chars : list Z) (page_buffer : list Z) : list Z :=
  fold_left (fun buffer unicode =>
               if use_utf8 then buffer ++ [byte_of unicode]
               else buffer ++ [byte_of unicode; 0; 0; 0])
            chars page_buffer.

Definition is_ascii (chars : list Z) : bool :=
  forallb (fun unicode => negb (127 <? unicode)) chars.

(** The characters of one page, appended to the page buffer. *)
Definition page_chars (use_utf8 : bool) (chars : list Z) (page_buffer : list Z) : list Z :=
  if is_ascii chars && (0 <? Z.of_nat (List.length chars))
  then fast_path use_utf8 chars page_buffer
  else slow_path use_utf8 chars page_buffer.

(** What the library answers for a page: FPDF_LoadPage fails,
    FPDFText_LoadPage fails, or the characters FPDFText_GetUnicode gives,
    each an [unsigned int]. *)
Inductive page : Type :=
| LoadFails
| TextFails
| TextPage (chars : list Z).

Definition document := list page.

(** FPDF_LoadPage and FPDFText_LoadPage for a page index; an index outside
    the document does not load. *)
Definition page_at (doc : document) (page_idx : Z) : page :=
  if page_idx <? 0 then LoadFails else nth (Z.to_nat page_idx) doc LoadFails.

(** The outcome of a run in which the output file can be written: the
    exit code and, when the file was made, its bytes. *)
Record outcome := Outcome { exit_code : Z; output : option (list Z) }.

(** One iteration of the loop of extract_text_bulk: what is written for
    the page. *)
Definition bulk_page (use_utf8 : bool) (start_page : Z) (doc : document) (page_idx : Z)
  : list Z :=
  let page_buffer :=
    if (start_page <? page_idx) && negb use_utf8 then write_bom else [] in
  match page_at doc page_idx with
  | LoadFails => []
  | TextFails => []
  | TextPage chars => page_chars use_utf8 chars page_buffer
  end.

Definition extract_text_bulk (doc : document) (start_page end_page : Z) (use_utf8 : bool)
  : outcome :=
  let bom := if use_utf8 then write_utf8_bom else write_bom in
  let page_count := Z.of_nat (List.length doc) in
  if page_count <=? 0 then Outcome 0 (Some bom)
  else
    let start_page := if start_page =? -1 then 0 else start_page in
    let end_page := if end_page =? -1 then page_count - 1 else end_page in
    Outcome 0 (Some (bom ++ flat_map (bulk_page use_utf8 start_page doc)
                               (seqZ start_page (end_page - start_page + 1)))).

(** One iteration of the loop of extract_text_worker. *)
Definition worker_page (use_utf8 : bool) (start_page worker_id : Z) (doc : document)
                       (page_idx : Z) : list Z :=
  match page_at doc page_idx with
  | LoadFails => []
  | TextFails => []
  | TextPage chars =>
      let page_buffer :=
        if negb use_utf8 && negb ((worker_id =? 0) && (page_idx =? start_page))
        then write_bom else [] in
      page_chars use_utf8 chars page_buffer
  end.

(** extract_text_worker: the bytes of the worker's file; [end_page] is
    exclusive. *)
Definition extract_text_worker (doc : document) (start_page end_page worker_id : Z)
                               (use_utf8 : bool) : list Z :=
  flat_map (worker_page use_utf8 start_page worker_id doc)
           (seqZ start_page (end_page - start_page)).

(** The spawning loop of extract_text_fast over worker ids [worker_id ..],
    with [n] iterations left: for each child, its id and its range. *)
Fixpoint spawn_text_workers (n : nat) (worker_id start_page end_page pages_per_worker : Z)
  : list (Z * Z * Z) :=
  match n with
  | O => []
  | S n' =>
      let worker_start := start_page + worker_id * pages_per_worker in
      let worker_end0 := worker_start + pages_per_worker in
      let worker_end := if end_page + 1 <? worker_end0 then end_page + 1 else worker_end0 in
      if end_page <? worker_start then []
      else (worker_id, worker_start, worker_end)
           :: spawn_text_workers n' (worker_id + 1) start_page end_page pages_per_worker
  end.

(** extract_text_fast, when every child can be started and exits with 0:
    the children's files are concatenated after the byte order mark. *)
Definition extract_text_fast (doc : document) (worker_count start_page end_page : Z)
                             (use_utf8 : bool) : outcome :=
  let total_page_count := Z.of_nat (List.length doc) in
  let start_page := if start_page =? -1 then 0 else start_page in
  let end_page := if end_page =? -1 then total_page_count - 1 else end_page in
  if (start_page <? 0) || (total_page_count <=? end_page) || (end_page <? start_page)
  then Outcome 2 None
  else
    let page_count := end_page - start_page + 1 in
    let pages_per_worker := (page_count + worker_count - 1) / worker_count in
    let workers :=
      spawn_text_workers (Z.to_nat worker_count) 0 start_page end_page pages_per_worker in
    let temp_files :=
      map (fun '(worker_id, worker_start, worker_end) =>
             extract_text_worker doc worker_start worker_end worker_id use_utf8)
          workers in
    let bom := if use_utf8 then write_utf8_bom else write_bom in
    Outcome 0 (Some (bom ++ List.concat temp_files)).

(** The loop of extract_text_debug over the characters of a page: the
    bytes it writes, one code point at a time. *)
Definition write_debug (use_utf8 : bool) (codepoint : Z) : list Z :=
  if use_utf8 then write_utf8_codepoint codepoint else write_codepoint codepoint.

Fixpoint debug_chars (use_utf8 : bool) (chars : list Z) : list Z :=
  match chars with
  | [] => []
  | unicode :: rest =>
      if is_high_surrogate unicode then
        match rest with
        | low :: rest' =>
            if is_low_surrogate low
            then write_debug use_utf8 (pair_codepoint unicode low)
                 ++ debug_chars use_utf8 rest'
            else write_debug use_utf8 65533 ++ debug_chars use_utf8 rest
        | [] => write_debug use_utf8 65533
        end
      else if is_low_surrogate unicode
      then write_debug use_utf8 65533 ++ debug_chars use_utf8 rest
      else write_debug use_utf8 unicode ++ debug_chars use_utf8 rest
  end.

(** extract_text_debug: every page of the document, no fast path, the
    separator written before the page is loaded. *)
Definition debug_page (use_utf8 : bool) (doc : document) (page_idx : Z) : list Z :=
  (if (0 <? page_idx) && negb use_utf8 then write_bom else [])
  ++ match page_at doc page_idx with
     | LoadFails => []
     | TextFails => []
     | TextPage chars => debug_chars use_utf8 chars
     end.

Definition extract_text_debug (doc : document) (use_utf8 : bool) : outcome :=
  let bom := if use_utf8 then write_utf8_bom else write_bom in
  let page_count := Z.of_nat (List.length doc) in
  Outcome 0 (Some (bom ++ flat_map (debug_page use_utf8 doc) (seqZ 0 page_count))).

(** *** Readers of the two encodings, to say what the bytes denote *)

(** A Unicode scalar value: a code point that is not a surrogate. *)
Definition is_scalar_value (cp : Z) : Prop :=
  0 <= cp < 1114112 /\ ~ (55296 <= cp <= 57343).

Definition scalar_value (cp : Z) : bool :=
  (0 <=? cp) && (cp <? 1114112) && negb ((55296 <=? cp) && (cp <=? 57343)).

Definition continuation (b : Z) : bool := (128 <=? b) && (b <=? 191).

(** UTF-8 as RFC 3629 defines it: shortest form only, no surrogates,
    nothing above U+10FFFF. *)
Fixpoint utf8_decode (bytes : list Z) : option (list Z) :=
  match bytes with
  | [] => Some []
  | b0 :: r0 =>
      if (0 <=? b0) && (b0 <? 128) then option_map (cons b0) (utf8_decode r0)
      else if (194 <=? b0) && (b0 <=? 223) then
        match r0 with
        | b1 :: r1 =>
            if continuation b1
            then option_map (cons ((b0 - 192) * 64 + (b1 - 128))) (utf8_decode r1)
            else None
        | _ => None
        end
      else if (224 <=? b0) && (b0 <=? 239) then
        match r0 with
        | b1 :: b2 :: r2 =>
            let cp := (b0 - 224) * 4096 + (b1 - 128) * 64 + (b2 - 128) in
            if continuation b1 && continuation b2 && (2048 <=? cp) && scalar_value cp
            then option_map (cons cp) (utf8_decode r2)
            else None
        | _ => None
        end
      else if (240 <=? b0) && (b0 <=? 244) then
        match r0 with
        | b1 :: b2 :: b3 :: r3 =>
            let cp := (b0 - 240) * 262144 + (b1 - 128) * 4096
                      + (b2 - 128) * 64 + (b3 - 128) in
            if continuation b1 && continuation b2 && continuation b3
               && (65536 <=? cp) && scalar_value cp
            then option_map (cons cp) (utf8_decode r3)
            else None
        | _ => None
        end
      else None
  end.

(** UTF-32 LE: four bytes for each scalar value, lowest byte first. *)
Fixpoint utf32le_decode (bytes : list Z) : option (list Z) :=
  match bytes with
  | [] => Some []
  | b0 :: b1 :: b2 :: b3 :: rest =>
      let cp := b0 + 256 * b1 + 65536 * b2 + 16777216 * b3 in
      if forallb (fun b => (0 <=? b) && (b <? 256)) [b0; b1; b2; b3] && scalar_value cp
      then option_map (cons cp) (utf32le_decode rest)
      else None
  | _ => None
  end.

(** UTF-16 as the Unicode standard defines it: the code units of a list
    of scalar values. *)
Definition utf16_units (cp : Z) : list Z :=
  if cp <? 65536 then [cp]
  else [55296 + (cp - 65536) / 1024; 56320 + (cp - 65536) mod 1024].

Definition utf16_encode (cps : list Z) : list Z := flat_map utf16_units cps.

(** *** The encoders, as arithmetic *)

Lemma scalar_value_spec (cp : Z) : scalar_value cp = true <-> is_scalar_value cp.
Proof. unfold scalar_value, is_scalar_value. lia. Qed.

Lemma append_utf8_codepoint_app (buffer : list Z) (cp : Z) :
  append_utf8_codepoint buffer cp = buffer ++ append_utf8_codepoint [] cp.
Proof.
  unfold append_utf8_codepoint.
  repeat match goal with |- context [?a <? ?b] => destruct (a <? b) end; reflexivity.
Qed.

Lemma append_utf8_codepoint_spec (cp : Z) :
  0 <= cp -> append_utf8_codepoint [] cp = utf8_encode cp.
Proof.
  intros Hcp. unfold append_utf8_codepoint, utf8_encode. cbn [app].
  rewrite !Z.shiftr_div_pow2 by lia.
  change (2 ^ 6) with 64. change (2 ^ 12) with 4096. change (2 ^ 18) with 262144.
  destruct (Z.ltb_spec cp 128) as [H1 | H1].
  { unfold byte_of. now rewrite Z.mod_small by lia. }
  pose proof (cont_byte cp ltac:(lia)) as [E0 B0].
  pose proof (cont_byte (cp / 64) ltac:(apply Z.div_pos; lia)) as [E1 B1].
  pose proof (cont_byte (cp / 4096) ltac:(apply Z.div_pos; lia)) as [E2 B2].
  rewrite E0, E1, E2. clear E0 E1 E2.
  destruct (Z.ltb_spec cp 2048) as [H2 | H2].
  { assert (Hq : 2 <= cp / 64 < 32)
      by (split; [apply Z.div_le_lower_bound | apply Z.div_lt_upper_bound]; lia).
    rewrite lor_lead by (simpl; auto || lia).
    unfold byte_of. now rewrite Z.mod_small by lia. }
  destruct (Z.ltb_spec cp 65536) as [H3 | H3].
  { assert (Hq : 0 <= cp / 4096 < 16)
      by (split; [apply Z.div_pos | apply Z.div_lt_upper_bound]; lia).
    rewrite lor_lead16 by (simpl; auto || lia).
    unfold byte_of. now rewrite Z.mod_small by lia. }
  destruct (Z.ltb_spec cp 1114112) as [H4 | H4]; [| reflexivity].
  assert (Hq : 0 <= cp / 262144 < 16)
    by (split; [apply Z.div_pos | apply Z.div_lt_upper_bound]; lia).
  rewrite lor_lead16 by (simpl; auto || lia).
  unfold byte_of. now rewrite Z.mod_small by lia.
Qed.

Lemma write_utf8_codepoint_spec (cp : Z) :
  write_utf8_codepoint cp = append_utf8_codepoint [] cp.
Proof.
  unfold write_utf8_codepoint, append_utf8_codepoint.
  repeat match goal with |- context [?a <? ?b] => destruct (a <? b) end; reflexivity.
Qed.

Lemma land_255 (x : Z) : 0 <= x -> Z.land x 255 = x mod 256.
Proof. intros Hx. change 255 with (Z.ones 8). now rewrite Z.land_ones by lia. Qed.

Lemma write_codepoint_spec (cp : Z) :
  0 <= cp ->
  write_codepoint cp
  = [cp mod 256; cp / 256 mod 256; cp / 65536 mod 256; cp / 16777216 mod 256].
Proof.
  intros Hcp. unfold write_codepoint. rewrite !Z.shiftr_div_pow2 by lia.
  change (2 ^ 8) with 256. change (2 ^ 16) with 65536. change (2 ^ 24) with 16777216.
  rewrite !land_255 by (try apply Z.div_pos; lia). reflexivity.
Qed.

(** *** The loops, as maps over the code points of a page *)

(** The code points the loops read out of the characters of a page. *)
Fixpoint codepoints (chars : list Z) : list Z :=
  match chars with
  | [] => []
  | unicode :: rest =>
      if is_high_surrogate unicode then
        match rest with
        | low :: rest' =>
            if is_low_surrogate low
            then pair_codepoint unicode low :: codepoints rest'
            else 65533 :: codepoints rest
        | [] => [65533]
        end
      else if is_low_surrogate unicode then 65533 :: codepoints rest
      else unicode :: codepoints rest
  end.

Lemma list_ind_two {A : Type} (P : list A -> Prop) :
  P [] -> (forall a, P [a]) ->
  (forall a b l, P l -> P (b :: l) -> P (a :: b :: l)) ->
  forall l, P l.
Proof.
  intros Hnil Hone Hstep l.
  assert (H : P l /\ forall a, P (a :: l)).
  { induction l as [| b l [IHl IHbl]]; [split; auto |].
    split; [apply IHbl |]. intros a. apply Hstep; [exact IHl | apply IHbl]. }
  exact (proj1 H).
Qed.

Lemma push_codepoint_app (use_utf8 : bool) (buffer : list Z) (cp : Z) :
  push_codepoint use_utf8 buffer cp = buffer ++ push_codepoint use_utf8 [] cp.
Proof.
  unfold push_codepoint. destruct use_utf8; [apply append_utf8_codepoint_app | reflexivity].
Qed.

Lemma slow_path_cons (use_utf8 : bool) (unicode : Z) (rest page_buffer : list Z) :
  slow_path use_utf8 (unicode :: rest) page_buffer
  = if is_high_surrogate unicode then
      match rest with
      | low :: rest' =>
          if is_low_surrogate low
          then slow_path use_utf8 rest'
                 (push_codepoint use_utf8 page_buffer (pair_codepoint unicode low))
          else slow_path use_utf8 rest (push_codepoint use_utf8 page_buffer 65533)
      | [] => push_codepoint use_utf8 page_buffer 65533
      end
    else if is_low_surrogate unicode
    then slow_path use_utf8 rest (push_codepoint use_utf8 page_buffer 65533)
    else slow_path use_utf8 rest (push_codepoint use_utf8 page_buffer unicode).
Proof. reflexivity. Qed.

Lemma codepoints_cons (unicode : Z) (rest : list Z) :
  codepoints (unicode :: rest)
  = if is_high_surrogate unicode then
      match rest with
      | low :: rest' =>
          if is_low_surrogate low
          then pair_codepoint unicode low :: codepoints rest'
          else 65533 :: codepoints rest
      | [] => [65533]
      end
    else if is_low_surrogate unicode then 65533 :: codepoints rest
    else unicode :: codepoints rest.
Proof. reflexivity. Qed.

Lemma debug_chars_cons (use_utf8 : bool) (unicode : Z) (rest : list Z) :
  debug_chars use_utf8 (unicode :: rest)
  = if is_high_surrogate unicode then
      match rest with
      | low :: rest' =>
          if is_low_surrogate low
          then write_debug use_utf8 (pair_codepoint unicode low)
               ++ debug_chars use_utf8 rest'
          else write_debug use_utf8 65533 ++ debug_chars use_utf8 rest
      | [] => write_debug use_utf8 65533
      end
    else if is_low_surrogate unicode
    then write_debug use_utf8 65533 ++ debug_chars use_utf8 rest
    else write_debug use_utf8 unicode ++ debug_chars use_utf8 rest.
Proof. reflexivity. Qed.

Lemma slow_path_spec (use_utf8 : bool) (chars : list Z) :
  forall buffer,
    slow_path use_utf8 chars buffer
    = buffer ++ flat_map (push_codepoint use_utf8 []) (codepoints chars).
Proof.
  induction chars as [| a | a b l IHl IHbl] using list_ind_two; intros buffer.
  - cbn. now rewrite app_nil_r.
  - rewrite slow_path_cons, codepoints_cons.
    destruct (is_high_surrogate a); [| destruct (is_low_surrogate a)];
      cbn [slow_path codepoints flat_map]; rewrite app_nil_r; apply push_codepoint_app.
  - rewrite slow_path_cons, codepoints_cons.
    destruct (is_high_surrogate a);
      [destruct (is_low_surrogate b) | destruct (is_low_surrogate a)];
      cbn [flat_map]; rewrite ?IHl, ?IHbl;
      rewrite (push_codepoint_app use_utf8 buffer), <- app_assoc; reflexivity.
Qed.

Lemma write_debug_spec (use_utf8 : bool) (cp : Z) :
  write_debug use_utf8 cp = push_codepoint use_utf8 [] cp.
Proof.
  unfold write_debug, push_codepoint. destruct use_utf8; [| reflexivity].
  apply write_utf8_codepoint_spec.
Qed.

Lemma debug_chars_spec (use_utf8 : bool) (chars : list Z) :
  debug_chars use_utf8 chars = flat_map (push_codepoint use_utf8 []) (codepoints chars).
Proof.
  induction chars as [| a | a b l IHl IHbl] using list_ind_two.
  - reflexivity.
  - rewrite debug_chars_cons, codepoints_cons.
    destruct (is_high_surrogate a); [| destruct (is_low_surrogate a)];
      cbn [debug_chars codepoints flat_map]; rewrite ?app_nil_r; apply write_debug_spec.
  - rewrite debug_chars_cons, codepoints_cons.
    destruct (is_high_surrogate a);
      [destruct (is_low_surrogate b) | destruct (is_low_surrogate a)];
      cbn [flat_map]; rewrite ?IHl, ?IHbl, write_debug_spec; reflexivity.
Qed.

(** The characters of a page are [unsigned int] values. *)
Definition unsigned_chars (chars : list Z) : Prop :=
  Forall (fun unicode => 0 <= unicode < 4294967296) chars.

Lemma ascii_push (use_utf8 : bool) (buffer : list Z) (unicode : Z) :
  0 <= unicode <= 127 ->
  push_codepoint use_utf8 buffer unicode
  = if use_utf8 then buffer ++ [byte_of unicode]
    else buffer ++ [byte_of unicode; 0; 0; 0].
Proof.
  intros Hu. unfold push_codepoint. destruct use_utf8.
  - unfold append_utf8_codepoint. destruct (Z.ltb_spec unicode 128); [reflexivity | lia].
  - rewrite write_codepoint_spec by lia. unfold byte_of.
    rewrite !(Z.div_small unicode) by lia. reflexivity.
Qed.

Lemma fast_path_spec (use_utf8 : bool) (chars : list Z) :
  unsigned_chars chars -> is_ascii chars = true ->
  forall buffer, fast_path use_utf8 chars buffer = slow_path use_utf8 chars buffer.
Proof.
  unfold unsigned_chars, fast_path.
  induction 1 as [| unicode rest Hu Hrest IH]; intros Hascii buffer; [reflexivity |].
  cbn [is_ascii forallb] in Hascii. apply andb_true_iff in Hascii as [Ha Hascii].
  assert (H127 : unicode <= 127) by lia.
  cbn [fold_left slow_path].
  replace (is_high_surrogate unicode) with false by (unfold is_high_surrogate; lia).
  replace (is_low_surrogate unicode) with false by (unfold is_low_surrogate; lia).
  rewrite (ascii_push use_utf8 buffer unicode) by lia.
  rewrite <- (IH Hascii). destruct use_utf8; reflexivity.
Qed.

Lemma page_chars_slow (use_utf8 : bool) (chars page_buffer : list Z) :
  unsigned_chars chars ->
  page_chars use_utf8 chars page_buffer = slow_path use_utf8 chars page_buffer.
Proof.
  intros Hchars. unfold page_chars.
  destruct (is_ascii chars) eqn:Hascii; [| reflexivity].
  destruct (0 <? Z.of_nat (List.length chars)); [| reflexivity].
  now apply fast_path_spec.
Qed.

(** The ASCII fast path is an optimisation only: for every page, in
    either encoding, and whatever the page buffer holds, the bytes are
    those of the general loop, which are the page's code points encoded
    one after the other. *)
Theorem ascii_fast_path_is_slow_path (use_utf8 : bool) (chars page_buffer : list Z) :
  unsigned_chars chars ->
  page_chars use_utf8 chars page_buffer = slow_path use_utf8 chars page_buffer
  /\ page_chars use_utf8 chars page_buffer
     = page_buffer ++ flat_map (push_codepoint use_utf8 []) (codepoints chars)
  /\ (is_ascii chars = true ->
      fast_path use_utf8 chars page_buffer = slow_path use_utf8 chars page_buffer).
Proof.
  intros Hchars. split; [now apply page_chars_slow |]. split.
  - rewrite page_chars_slow by exact Hchars. apply slow_path_spec.
  - intros Hascii. now apply fast_path_spec.
Qed.

Lemma ascii_fast_path_is_slow_path_witness :
  page_chars false [72; 105] write_bom = slow_path false [72; 105] write_bom
  /\ page_chars false [72; 105] write_bom = [255; 254; 0; 0; 72; 0; 0; 0; 105; 0; 0; 0].
Proof.
  split; [| reflexivity].
  refine (proj1 (ascii_fast_path_is_slow_path false [72; 105] write_bom _)).
  unfold unsigned_chars. repeat (constructor; [lia |]). constructor.
Defined.

(** *** Reading the bytes back *)

Ltac lia_div := Z.to_euclidean_division_equations; lia.

Ltac settle_tests :=
  repeat match goal with
         | |- context [?a <=? ?b] =>
             destruct (Z.leb_spec a b); try (exfalso; lia_div)
         | |- context [?a <? ?b] =>
             destruct (Z.ltb_spec a b); try (exfalso; lia_div)
         end;
  cbn [andb orb negb].

Lemma utf8_decode_encode (cp : Z) (rest : list Z) :
  is_scalar_value cp ->
  utf8_decode (utf8_encode cp ++ rest) = option_map (cons cp) (utf8_decode rest).
Proof.
  intros [Hrange Hsur]. unfold utf8_encode.
  destruct (Z.ltb_spec cp 128) as [H1 | H1];
    [| destruct (Z.ltb_spec cp 2048) as [H2 | H2];
       [| destruct (Z.ltb_spec cp 65536) as [H3 | H3];
          [| destruct (Z.ltb_spec cp 1114112) as [H4 | H4]; [| lia]]]];
    cbn [app utf8_decode]; unfold continuation, scalar_value; settle_tests;
    try reflexivity; do 2 f_equal; lia_div.
Qed.

Lemma utf8_decode_flat_map (cps : list Z) :
  Forall is_scalar_value cps -> utf8_decode (flat_map utf8_encode cps) = Some cps.
Proof.
  induction 1 as [| cp cps Hcp Hcps IH]; [reflexivity |].
  cbn [flat_map]. now rewrite utf8_decode_encode, IH.
Qed.

Lemma utf32le_decode_encode (cp : Z) (rest : list Z) :
  is_scalar_value cp ->
  utf32le_decode (write_codepoint cp ++ rest)
  = option_map (cons cp) (utf32le_decode rest).
Proof.
  intros [Hrange Hsur]. rewrite write_codepoint_spec by lia.
  cbn [app utf32le_decode forallb]. unfold scalar_value.
  replace (cp mod 256 + 256 * (cp / 256 mod 256) + 65536 * (cp / 65536 mod 256)
           + 16777216 * (cp / 16777216 mod 256)) with cp by lia_div.
  settle_tests; reflexivity.
Qed.

Lemma utf32le_decode_flat_map (cps : list Z) :
  Forall is_scalar_value cps -> utf32le_decode (flat_map write_codepoint cps) = Some cps.
Proof.
  induction 1 as [| cp cps Hcp Hcps IH]; [reflexivity |].
  cbn [flat_map]. now rewrite utf32le_decode_encode, IH.
Qed.

Lemma codepoints_utf16 (cps : list Z) :
  Forall is_scalar_value cps -> codepoints (utf16_encode cps) = cps.
Proof.
  unfold utf16_encode.
  induction 1 as [| cp cps [Hrange Hsur] Hcps IH]; [reflexivity |].
  cbn [flat_map]. unfold utf16_units at 1.
  destruct (Z.ltb_spec cp 65536) as [Hbmp | Hsup]; cbn [app]; rewrite codepoints_cons.
  - replace (is_high_surrogate cp) with false by (unfold is_high_surrogate; lia).
    replace (is_low_surrogate cp) with false by (unfold is_low_surrogate; lia).
    now rewrite IH.
  - replace (is_high_surrogate (55296 + (cp - 65536) / 1024)) with true
      by (unfold is_high_surrogate; lia_div).
    cbv beta iota.
    replace (is_low_surrogate (56320 + (cp - 65536) mod 1024)) with true
      by (unfold is_low_surrogate; lia_div).
    rewrite IH. f_equal. unfold pair_codepoint.
    rewrite Z.shiftl_mul_pow2 by lia. change (2 ^ 10) with 1024. lia_div.
Qed.

Lemma utf16_unsigned (cps : list Z) :
  Forall is_scalar_value cps -> unsigned_chars (utf16_encode cps).
Proof.
  unfold utf16_encode, unsigned_chars.
  induction 1 as [| cp cps [Hrange Hsur] Hcps IH]; [constructor |].
  cbn [flat_map]. apply Forall_app. split; [| exact IH].
  unfold utf16_units. destruct (Z.ltb_spec cp 65536); repeat constructor; lia_div.
Qed.

Lemma flat_map_agree {A B : Type} (f g : A -> list B) (l : list A) :
  Forall (fun a => f a = g a) l -> flat_map f l = flat_map g l.
Proof.
  induction 1 as [| a l Ha Hl IH]; [reflexivity |].
  cbn [flat_map]. now rewrite Ha, IH.
Qed.

Lemma flat_map_after_map {A B C : Type} (f : B -> list C) (g : A -> B) (l : list A) :
  flat_map f (map g l) = flat_map (fun a => f (g a)) l.
Proof. induction l as [| a l IH]; [reflexivity |]. cbn. now rewrite IH. Qed.

(** Transcoding is right: when the characters of a page are the UTF-16
    code units of a text (a list of Unicode scalar values), the bytes
    written for the page are the UTF-8, respectively the UTF-32 LE,
    encoding of that text; read back, they give the text. *)
Theorem page_text_round_trip (cps : list Z) :
  Forall is_scalar_value cps ->
  utf8_decode (page_chars true (utf16_encode cps) []) = Some cps
  /\ utf32le_decode (page_chars false (utf16_encode cps) []) = Some cps.
Proof.
  intros Hcps.
  rewrite !page_chars_slow by now apply utf16_unsigned.
  rewrite !slow_path_spec, (codepoints_utf16 cps Hcps). cbn [app]. split.
  - rewrite <- (utf8_decode_flat_map cps Hcps). f_equal.
    apply flat_map_agree. eapply Forall_impl; [| exact Hcps].
    intros cp [Hrange _]. cbn [push_codepoint].
    apply append_utf8_codepoint_spec. lia.
  - exact (utf32le_decode_flat_map cps Hcps).
Qed.

Lemma page_text_round_trip_witness :
  utf16_encode [233; 128512] = [233; 55357; 56832]
  /\ page_chars true [233; 55357; 56832] [] = [195; 169; 240; 159; 152; 128]
  /\ utf8_decode (page_chars true (utf16_encode [233; 128512]) []) = Some [233; 128512].
Proof.
  split; [reflexivity |]. split; [reflexivity |].
  refine (proj1 (page_text_round_trip [233; 128512] _)).
  repeat (constructor; [unfold is_scalar_value; lia |]). constructor.
Defined.

(** What the loops make of any characters at all. *)
Lemma codepoints_range (chars : list Z) :
  unsigned_chars chars ->
  Forall (fun cp => is_scalar_value cp \/ 1114112 <= cp) (codepoints chars).
Proof.
  unfold unsigned_chars.
  induction chars as [| a | a b l IHl IHbl] using list_ind_two; intros Hall.
  - constructor.
  - apply Forall_cons_iff in Hall as [Ha _]. rewrite codepoints_cons.
    unfold is_high_surrogate, is_low_surrogate.
    settle_tests; (constructor; [unfold is_scalar_value; lia | constructor]).
  - pose proof Hall as Hall'.
    apply Forall_cons_iff in Hall as [Ha Hbl].
    pose proof Hbl as Hbl'. apply Forall_cons_iff in Hbl as [Hb Hl].
    specialize (IHl Hl). specialize (IHbl Hbl').
    rewrite codepoints_cons.
    destruct (is_high_surrogate a) eqn:Ehigh;
      [destruct (is_low_surrogate b) eqn:Elow | destruct (is_low_surrogate a) eqn:Elow];
      constructor; try assumption;
      unfold is_high_surrogate, is_low_surrogate, is_scalar_value, pair_codepoint in *;
      rewrite ?Z.shiftl_mul_pow2 by lia; change (2 ^ 10) with 1024; lia.
Qed.

(** The UTF-8 output is well formed whatever the library returns: for any
    characters (unpaired surrogates and values beyond U+10FFFF included),
    the bytes of a page are the UTF-8 of a list of scalar values, with
    U+FFFD where the input was not valid. *)
Theorem page_text_well_formed (chars : list Z) :
  unsigned_chars chars ->
  exists cps,
    utf8_decode (page_chars true chars []) = Some cps
    /\ Forall is_scalar_value cps
    /\ cps = map (fun cp => if cp <? 1114112 then cp else 65533) (codepoints chars)
    /\ (List.length cps <= List.length chars)%nat.
Proof.
  intros Hchars.
  exists (map (fun cp => if cp <? 1114112 then cp else 65533) (codepoints chars)).
  pose proof (codepoints_range chars Hchars) as Hrange.
  assert (Hscalar : Forall is_scalar_value
                      (map (fun cp => if cp <? 1114112 then cp else 65533)
                           (codepoints chars))).
  { apply Forall_map. eapply Forall_impl; [| exact Hrange].
    intros cp [Hs | Hbig]; cbn beta.
    - destruct Hs as [Hr Hn]. destruct (Z.ltb_spec cp 1114112); [split; assumption | lia].
    - destruct (Z.ltb_spec cp 1114112); [lia | unfold is_scalar_value; lia]. }
  split; [| split; [exact Hscalar | split; [reflexivity |]]].
  - rewrite page_chars_slow by exact Hchars. rewrite slow_path_spec. cbn [app].
    rewrite <- (utf8_decode_flat_map _ Hscalar). f_equal.
    rewrite flat_map_after_map.
    apply flat_map_agree. eapply Forall_impl; [| exact Hrange].
    intros cp Hcp. cbn [push_codepoint].
    rewrite append_utf8_codepoint_spec
      by (destruct Hcp as [[Hr _] |]; lia).
    destruct (Z.ltb_spec cp 1114112) as [Hlt | Hge]; [reflexivity |].
    change (utf8_encode 65533) with [239; 191; 189]. unfold utf8_encode.
    repeat match goal with |- context [cp <? ?b] => destruct (Z.ltb_spec cp b); [lia |] end.
    reflexivity.
  - rewrite length_map. clear Hrange Hscalar Hchars.
    induction chars as [| a | a b l IHl IHbl] using list_ind_two.
    + cbn. lia.
    + rewrite codepoints_cons.
      destruct (is_high_surrogate a); [| destruct (is_low_surrogate a)]; cbn; lia.
    + rewrite codepoints_cons.
      destruct (is_high_surrogate a);
        [destruct (is_low_surrogate b) | destruct (is_low_surrogate a)];
        cbn [List.length] in *; lia.
Qed.

Lemma page_text_well_formed_witness :
  utf8_decode (page_chars true [72; 56832; 55357; 4294967295] [])
  = Some [72; 65533; 65533; 65533].
Proof.
  destruct (page_text_well_formed [72; 56832; 55357; 4294967295]) as (cps & Hdec & _ & Hcps & _).
  - unfold unsigned_chars. repeat (constructor; [lia |]). constructor.
  - rewrite Hdec, Hcps. reflexivity.
Defined.

(** *** One process or several: the same file *)

Lemma spawn_text_workers_past_end n wid sp ep ppw :
  ep < sp + wid * ppw -> spawn_text_workers n wid sp ep ppw = [].
Proof.
  intros Hpast. destruct n as [| n]; [reflexivity |]. simpl.
  destruct (Z.ltb_spec ep (sp + wid * ppw)); [reflexivity | lia].
Qed.

Lemma worker_page_bulk (use_utf8 : bool) (sp wid ws : Z) (doc : document) (idx : Z) :
  ws <= idx -> (wid = 0 -> ws = sp) -> (wid <> 0 -> sp < ws) ->
  worker_page use_utf8 ws wid doc idx = bulk_page use_utf8 sp doc idx.
Proof.
  intros Hidx Hfirst Hlater. unfold worker_page, bulk_page.
  destruct (page_at doc idx); try reflexivity. f_equal.
  rewrite (andb_comm (sp <? idx)). f_equal.
  destruct (Z.eqb_spec wid 0) as [Hz | Hnz]; cbn [andb negb].
  - specialize (Hfirst Hz). subst sp.
    destruct (Z.eqb_spec idx ws), (Z.ltb_spec ws idx); cbn; lia || reflexivity.
  - specialize (Hlater Hnz). destruct (Z.ltb_spec sp idx); [reflexivity | lia].
Qed.

Lemma worker_file_bulk (use_utf8 : bool) (sp wid ws we : Z) (doc : document) :
  (wid = 0 -> ws = sp) -> (wid <> 0 -> sp < ws) ->
  extract_text_worker doc ws we wid use_utf8
  = flat_map (bulk_page use_utf8 sp doc) (seqZ ws (we - ws)).
Proof.
  intros Hfirst Hlater. unfold extract_text_worker. apply flat_map_agree.
  apply Forall_seqZ. intros idx Hidx. apply worker_page_bulk; [lia | assumption..].
Qed.

Lemma merge_text_workers (use_utf8 : bool) (doc : document) (sp ep ppw : Z) (n : nat) :
  forall wid,
    0 < ppw -> 0 <= wid -> ep + 1 - (sp + wid * ppw) <= Z.of_nat n * ppw ->
    List.concat
      (map (fun '(worker_id, worker_start, worker_end) =>
              extract_text_worker doc worker_start worker_end worker_id use_utf8)
           (spawn_text_workers n wid sp ep ppw))
    = flat_map (bulk_page use_utf8 sp doc)
               (seqZ (sp + wid * ppw) (ep + 1 - (sp + wid * ppw))).
Proof.
  induction n as [| n IH]; intros wid Hppw Hwid Hroom.
  - simpl. rewrite seqZ_nil by lia. reflexivity.
  - cbn [spawn_text_workers].
    destruct (Z.ltb_spec ep (sp + wid * ppw)) as [Hpast | Hin].
    { rewrite seqZ_nil by lia. reflexivity. }
    cbn [map List.concat].
    rewrite (worker_file_bulk use_utf8 sp) by nia.
    destruct (Z.ltb_spec (ep + 1) (sp + wid * ppw + ppw)) as [Hlast | Hmore].
    + rewrite spawn_text_workers_past_end by lia. cbn [map List.concat].
      now rewrite app_nil_r.
    + rewrite IH by lia.
      replace (sp + wid * ppw + ppw - (sp + wid * ppw)) with ppw by lia.
      replace (sp + (wid + 1) * ppw) with (sp + wid * ppw + ppw) by lia.
      rewrite <- flat_map_app, <- seqZ_app by lia. do 2 f_equal. lia.
Qed.

(** extract_text_fast writes the file that extract_text_bulk writes: for
    any document, any number of worker processes and any valid page range,
    in either encoding, with pages that fail to load or have no text
    included, the merged output of the workers is byte for byte the output
    of the single process.  A range that is not valid, which with the
    default range is the case of a document without pages, makes
    extract_text_fast exit with 2 and no output. *)
Theorem text_fast_equals_bulk (doc : document) (worker_count start_page end_page : Z)
                              (use_utf8 : bool) :
  1 <= worker_count ->
  let total := Z.of_nat (List.length doc) in
  let first := if start_page =? -1 then 0 else start_page in
  let last := if end_page =? -1 then total - 1 else end_page in
  (0 <= first /\ first <= last /\ last < total ->
   extract_text_fast doc worker_count start_page end_page use_utf8
   = extract_text_bulk doc start_page end_page use_utf8)
  /\ (~ (0 <= first /\ first <= last /\ last < total) ->
      extract_text_fast doc worker_count start_page end_page use_utf8
      = Outcome 2 None).
Proof.
  intros Hwc total first last. unfold extract_text_fast, extract_text_bulk.
  fold total. fold first. fold last. split.
  - intros (Hfirst & Hrange & Hlast).
    destruct (Z.ltb_spec first 0); [lia |].
    destruct (Z.leb_spec total last); [lia |].
    destruct (Z.ltb_spec last first); [lia |].
    destruct (Z.leb_spec total 0); [lia |]. cbn [orb].
    set (ppw := (last - first + 1 + worker_count - 1) / worker_count).
    assert (Hppw : 0 < ppw) by (subst ppw; apply Z.div_str_pos; lia).
    assert (Hroom : last - first + 1 <= worker_count * ppw).
    { subst ppw.
      pose proof (Z.mul_succ_div_gt (last - first + 1 + worker_count - 1) worker_count
                    ltac:(lia)). lia. }
    rewrite merge_text_workers by (rewrite ?Z2Nat.id; lia).
    rewrite Z.mul_0_l, Z.add_0_r.
    replace (last + 1 - first) with (last - first + 1) by lia. reflexivity.
  - intros Hbad.
    destruct (Z.ltb_spec first 0); [reflexivity |].
    destruct (Z.leb_spec total last); [reflexivity |].
    destruct (Z.ltb_spec last first); [reflexivity | lia].
Qed.

(** A three-page document: text with a character outside the BMP, a page
    that does not load, and plain ASCII. *)
Definition sample_document : document :=
  [TextPage [233; 55357; 56832]; LoadFails; TextPage [111; 107]].

Lemma text_fast_equals_bulk_witness :
  extract_text_fast sample_document 2 (-1) (-1) false
  = extract_text_bulk sample_document (-1) (-1) false
  /\ output (extract_text_bulk sample_document (-1) (-1) false)
     = Some [255; 254; 0; 0;
             233; 0; 0; 0; 0; 246; 1; 0;
             255; 254; 0; 0; 111; 0; 0; 0; 107; 0; 0; 0]
  /\ extract_text_fast [] 2 (-1) (-1) true = Outcome 2 None
  /\ extract_text_bulk [] (-1) (-1) true = Outcome 0 (Some [239; 187; 191]).
Proof.
  split; [| split; [reflexivity | split; [| reflexivity]]].
  - refine (proj1 (text_fast_equals_bulk sample_document 2 (-1) (-1) false _) _);
      cbn; lia.
  - refine (proj2 (text_fast_equals_bulk [] 2 (-1) (-1) true _) _); cbn; lia.
Defined.

(** The pages of a document all load, and their characters are unsigned
    values. *)
Definition loads_text (pg : page) : Prop :=
  match pg with TextPage _ => True | _ => False end.

Definition unsigned_document (doc : document) : Prop :=
  Forall (fun pg => match pg with
                    | TextPage chars => unsigned_chars chars
                    | _ => True
                    end) doc.

Lemma page_at_in (doc : document) (idx : Z) :
  0 <= idx < Z.of_nat (List.length doc) ->
  In (page_at doc idx) doc.
Proof.
  intros Hidx. unfold page_at. destruct (Z.ltb_spec idx 0); [lia |].
  apply nth_In. lia.
Qed.

(** extract_text_debug writes the file that extract_text_bulk writes for
    the whole document, in UTF-8 always and in UTF-32 LE when every page
    loads: its loop has no fast path and writes code point by code point,
    and it writes the UTF-32 page separator before it tries to load the
    page. *)
Theorem text_debug_equals_bulk (doc : document) (use_utf8 : bool) :
  unsigned_document doc ->
  use_utf8 = true \/ Forall loads_text doc ->
  extract_text_debug doc use_utf8 = extract_text_bulk doc (-1) (-1) use_utf8.
Proof.
  intros Hdoc Hok. unfold extract_text_debug, extract_text_bulk.
  change (-1 =? -1) with true. cbv beta iota.
  destruct (Z.leb_spec (Z.of_nat (List.length doc)) 0) as [Hempty | Hpages].
  { replace (Z.of_nat (List.length doc)) with 0 by lia. cbn. now rewrite app_nil_r. }
  do 3 f_equal.
  replace (Z.of_nat (List.length doc) - 1 - 0 + 1) with (Z.of_nat (List.length doc))
    by lia.
  apply flat_map_agree. apply Forall_seqZ. intros idx Hidx.
  unfold debug_page, bulk_page.
  pose proof (page_at_in doc idx ltac:(lia)) as Hin.
  unfold unsigned_document in Hdoc. rewrite Forall_forall in Hdoc.
  specialize (Hdoc _ Hin).
  destruct (page_at doc idx) as [| | chars] eqn:Epage.
  - destruct Hok as [-> | Hall].
    + now rewrite andb_false_r.
    + rewrite Forall_forall in Hall. destruct (Hall _ Hin).
  - destruct Hok as [-> | Hall].
    + now rewrite andb_false_r.
    + rewrite Forall_forall in Hall. destruct (Hall _ Hin).
  - rewrite page_chars_slow by exact Hdoc.
    now rewrite slow_path_spec, debug_chars_spec.
Qed.

Lemma text_debug_equals_bulk_witness :
  extract_text_debug sample_document true
  = extract_text_bulk sample_document (-1) (-1) true
  /\ extract_text_debug sample_document false
     <> extract_text_bulk sample_document (-1) (-1) false.
Proof.
  split; [| vm_compute; discriminate].
  apply text_debug_equals_bulk; [| left; reflexivity].
  unfold unsigned_document, sample_document, unsigned_chars.
  repeat (constructor; [first [exact I | repeat (constructor; [lia |]); constructor] |]).
  constructor.
Defined.

End Text.

(* ===================================================================== *)
(** ** Batch mode: which file names a pattern selects *)

Module Glob.

Local Open Scope char_scope.

(** The second loop of MatchesPattern: trailing wildcards are skipped, then
    both the pattern and the file name must be used up. *)
Fixpoint skip_stars (pattern : list ascii) : list ascii :=
  match pattern with
  | "*" :: rest => skip_stars rest
  | _ => pattern
  end.

Definition after_loop (pattern filename : list ascii) : bool :=
  match skip_stars pattern, filename with
  | [], [] => true
  | _, _ => false
  end.

(** The inner loop: [name_idx] moves to the next [c] of the file name. *)
Fixpoint find_next (c : ascii) (filename : list ascii) : list ascii :=
  match filename with
  | [] => []
  | n :: rest => if Ascii.eqb n c then filename else find_next c rest
  end.

(** The first loop of MatchesPattern, on what is left of the pattern from
    [pat_idx] and of the file name from [name_idx]. *)
Fixpoint match_loop (pattern filename : list ascii) : bool :=
  match pattern, filename with
  | p :: pattern', n :: filename' =>
      if Ascii.eqb p "*" then
        match pattern' with
        | [] => true
        | next :: _ =>
            match find_next next filename with
            | [] => false
            | found => match_loop pattern' found
            end
        end
      else if Ascii.eqb p "?" then match_loop pattern' filename'
      else if negb (Ascii.eqb n p) then false
      else match_loop pattern' filename'
  | _, _ => after_loop pattern filename
  end.

(** MatchesPattern, on the file name of the path. *)
Definition MatchesPattern (filename pattern : string) : bool :=
  match_loop (list_ascii_of_string pattern) (list_ascii_of_string filename).

(** What a pattern means: [*] stands for any run of characters, [?] for
    any one character, every other character for itself. *)
Inductive glob : list ascii -> list ascii -> Prop :=
| glob_end : glob [] []
| glob_star pattern skipped name :
    glob pattern name -> glob ("*" :: pattern) (skipped ++ name)
| glob_any pattern c name :
    glob pattern name -> glob ("?" :: pattern) (c :: name)
| glob_char pattern c name :
    c <> "*" -> c <> "?" -> glob pattern name -> glob (c :: pattern) (c :: name).

Lemma find_next_suffix (c : ascii) (filename : list ascii) :
  exists skipped, filename = skipped ++ find_next c filename.
Proof.
  induction filename as [| n rest [skipped IH]]; [now exists [] |].
  cbn [find_next]. destruct (Ascii.eqb n c).
  - now exists [].
  - exists (n :: skipped). cbn. now rewrite <- IH.
Qed.

Lemma after_loop_glob (pattern filename : list ascii) :
  after_loop pattern filename = true -> glob pattern filename.
Proof.
  unfold after_loop. intros H.
  destruct (skip_stars pattern) as [| c rest] eqn:Eskip; [| discriminate].
  destruct filename; [| discriminate]. clear H.
  induction pattern as [| p pattern IH]; [constructor |].
  cbn [skip_stars] in Eskip.
  destruct (Ascii.eqb_spec p "*") as [-> | Hp].
  - apply (glob_star pattern [] []). now apply IH.
  - exfalso. destruct p as [[] [] [] [] [] [] [] []]; try discriminate Eskip.
    now apply Hp.
Qed.

(** MatchesPattern selects no file name that the pattern does not denote. *)
Theorem MatchesPattern_sound (filename pattern : string) :
  MatchesPattern filename pattern = true ->
  glob (list_ascii_of_string pattern) (list_ascii_of_string filename).
Proof.
  unfold MatchesPattern.
  generalize (list_ascii_of_string filename) as name.
  induction (list_ascii_of_string pattern) as [| p pattern' IH]; intros name Hmatch.
  - now apply after_loop_glob.
  - destruct name as [| n name']; [now apply after_loop_glob |].
    cbn [match_loop] in Hmatch.
    destruct (Ascii.eqb_spec p "*") as [-> | Hstar].
    + destruct pattern' as [| next rest].
      * rewrite <- (app_nil_r (n :: name')). apply glob_star. constructor.
      * destruct (find_next_suffix next (n :: name')) as [skipped Esplit].
        destruct (find_next next (n :: name')) as [| f found]; [discriminate |].
        rewrite Esplit. apply glob_star. now apply IH.
    + destruct (Ascii.eqb_spec p "?") as [-> | Hany].
      * apply glob_any. now apply IH.
      * destruct (Ascii.eqb_spec n p) as [-> | Hne]; [| discriminate].
        apply glob_char; auto.
Qed.

Lemma MatchesPattern_sound_witness :
  MatchesPattern "report_7.pdf" "report_?.pdf" = true
  /\ glob (list_ascii_of_string "report_?.pdf") (list_ascii_of_string "report_7.pdf").
Proof.
  split; [reflexivity |].
  exact (MatchesPattern_sound "report_7.pdf" "report_?.pdf" eq_refl).
Defined.

(** *** Patterns the loop decides exactly *)

(** A pattern character that stands for itself. *)
Definition literal (c : ascii) : Prop := c <> "*" /\ c <> "?".

Lemma skip_stars_literal (c : ascii) (rest : list ascii) :
  literal c -> skip_stars (c :: rest) = c :: rest.
Proof.
  intros [Hstar _]. cbn [skip_stars].
  destruct c as [[] [] [] [] [] [] [] []]; try reflexivity. now contradiction Hstar.
Qed.

Lemma match_loop_literal (lit : list ascii) :
  Forall literal lit ->
  forall name, match_loop lit name = true <-> name = lit.
Proof.
  induction 1 as [| c lit Hc Hlit IH]; intros name.
  - destruct name; cbn; split; congruence.
  - destruct name as [| n name'].
    + cbn [match_loop]. unfold after_loop. rewrite (skip_stars_literal c lit Hc).
      split; discriminate.
    + cbn [match_loop]. destruct Hc as [Hstar Hany].
      destruct (Ascii.eqb_spec c "*"); [contradiction |].
      destruct (Ascii.eqb_spec c "?"); [contradiction |].
      destruct (Ascii.eqb_spec n c) as [-> | Hne]; cbn [negb].
      * rewrite IH. split; congruence.
      * split; [discriminate | congruence].
Qed.

Lemma find_next_first (c : ascii) (stem rest : list ascii) :
  ~ In c stem -> find_next c (stem ++ c :: rest) = c :: rest.
Proof.
  induction stem as [| s stem IH]; intros Hnot; cbn [app find_next].
  - now rewrite Ascii.eqb_refl.
  - destruct (Ascii.eqb_spec s c) as [-> | _]; [exfalso; apply Hnot; now left |].
    apply IH. intros Hin. apply Hnot. now right.
Qed.

Lemma find_next_split (c : ascii) (name : list ascii) :
  find_next c name = []
  \/ exists stem rest, name = stem ++ c :: rest /\ ~ In c stem
                       /\ find_next c name = c :: rest.
Proof.
  induction name as [| n name IH]; [now left |].
  cbn [find_next]. destruct (Ascii.eqb_spec n c) as [-> | Hne].
  - right. exists [], name. auto.
  - destruct IH as [-> | (stem & rest & -> & Hnot & ->)]; [now left |].
    right. exists (n :: stem), rest. split; [reflexivity |]. split; [| reflexivity].
    intros [Hin | Hin]; [congruence | contradiction].
Qed.

Lemma match_loop_star (next : ascii) (pattern name : list ascii) :
  name <> [] ->
  match_loop ("*" :: next :: pattern) name
  = match find_next next name with
    | [] => false
    | f :: found => match_loop (next :: pattern) (f :: found)
    end.
Proof. intros Hname. destruct name; [contradiction | reflexivity]. Qed.

(** A wildcard followed by literal characters, such as the default
    pattern of batch mode, selects exactly the names that end in those
    characters and do not contain the first of them earlier: the wildcard
    stops at the first place where the next pattern character occurs and is
    never tried further on.  A pattern of literal characters alone selects
    the one name it spells. *)
Theorem star_then_literal (c : ascii) (lit name : list ascii) :
  Forall literal (c :: lit) ->
  (match_loop ("*" :: c :: lit) name = true
   <-> exists stem, name = stem ++ c :: lit /\ ~ In c stem)
  /\ (match_loop (c :: lit) name = true <-> name = c :: lit).
Proof.
  intros Hlit. split; [| now apply match_loop_literal].
  destruct name as [| n name'].
  - cbn [match_loop]. unfold after_loop.
    change (skip_stars ("*" :: c :: lit)) with (skip_stars (c :: lit)).
    apply Forall_cons_iff in Hlit as [Hc _].
    rewrite (skip_stars_literal c lit Hc). split; [discriminate |].
    intros (stem & Hname & _). destruct stem; discriminate.
  - rewrite match_loop_star by discriminate.
    destruct (find_next_split c (n :: name'))
      as [Hnone | (stem & rest & Hname & Hnot & Hfound)].
    + rewrite Hnone. split; [discriminate |].
      intros (stem & Hname & Hnot).
      rewrite Hname, (find_next_first c stem lit Hnot) in Hnone. discriminate.
    + rewrite Hfound, (match_loop_literal (c :: lit) Hlit). split.
      * intros [= ->]. now exists stem.
      * intros (stem' & Hname' & Hnot').
        rewrite Hname', (find_next_first c stem' lit Hnot') in Hfound.
        exact (eq_sym Hfound).
Qed.

Lemma star_then_literal_witness :
  MatchesPattern "scan.pdf" "*.pdf" = true
  /\ MatchesPattern "scan.v2.pdf" "*.pdf" = false
  /\ (match_loop (list_ascii_of_string "*.pdf") (list_ascii_of_string "scan.v2.pdf") = true
      <-> exists stem,
            list_ascii_of_string "scan.v2.pdf" = stem ++ list_ascii_of_string ".pdf"
            /\ ~ In "." stem).
Proof.
  split; [reflexivity |]. split; [reflexivity |].
  refine (proj1 (star_then_literal "." (list_ascii_of_string "pdf")
                   (list_ascii_of_string "scan.v2.pdf") _)).
  repeat (constructor; [split; discriminate |]). constructor.
Defined.

End Glob.

(* ===================================================================== *)
(** ** The entry points of the parallel renderer *)

Module Api.

Import Render.

(** [static_cast<int>] of an [unsigned int]. *)
Definition int_of_unsigned (u : Z) : Z :=
  if u <=? INT_MAX then u else u - 4294967296.

(** [std::min] of an initializer list of three. *)
Definition min3 (a b c : Z) : Z := Z.min a (Z.min b c).

(** FPDF_GetOptimalWorkerCount, for what hardware_concurrency reports. *)
Definition FPDF_GetOptimalWorkerCount (hardware_concurrency : Z) : Z :=
  let hw_threads := hardware_concurrency in
  if hw_threads =? 0 then 4
  else
    let optimal := int_of_unsigned hw_threads in
    Z.min optimal 16.

(** FPDF_GetOptimalWorkerCountForDocument.  [document] says whether the
    handle is set; [file_size] is the parser's document size, 0 when there
    is no parser. *)
Definition FPDF_GetOptimalWorkerCountForDocument
           (document : bool) (page_count hardware_concurrency file_size : Z) : Z :=
  if negb document then 1
  else
    let hw_threads := if hardware_concurrency =? 0 then 4 else hardware_concurrency in
    let hardware_threads := int_of_unsigned hw_threads in
    let size_per_page :=
      if (0 <? page_count) && (0 <? file_size) then file_size / page_count else 0 in
    if page_count <? 4 then 1
    else if (0 <? size_per_page) && (size_per_page <? 15000) then
      if page_count <? 400 then min3 page_count 16 hardware_threads
      else min3 page_count 4 hardware_threads
    else if 100000 <=? size_per_page then
      if page_count <? 150 then min3 page_count 4 hardware_threads
      else if page_count <? 300 then min3 page_count 16 hardware_threads
      else min3 page_count 8 hardware_threads
    else if page_count <? 150 then min3 page_count 4 hardware_threads
    else if page_count <? 300 then min3 page_count 8 hardware_threads
    else if page_count <? 600 then min3 page_count 4 hardware_threads
    else min3 page_count 4 hardware_threads.

(** FPDF_PARALLEL_OPTIONS; [form_handle] says whether the pointer is set. *)
Record FPDF_PARALLEL_OPTIONS := ParallelOptions {
  worker_count : Z;
  max_queue_size : Z;
  opt_form_handle : bool;
  opt_dpi : Q;
  opt_output_format : Z
}.

(** What an entry point does with a call: it returns false at once, it
    renders the pages itself one after the other, or it hands one task for
    each page to the pool, after EnsureWorkerCount and SetMaxQueueDepth. *)
Inductive dispatch : Type :=
| Rejected
| Sequential (tasks : list render_task)
| Pooled (thread_count max_queue : Z) (tasks : list render_task).

(** The arguments of a call, with what the document answers. *)
Record call := Call {
  document : bool;
  callback : bool;
  total_pages : Z;               (* FPDF_GetPageCount(document) *)
  hardware_concurrency : Z;
  file_size : Z;
  start_page : Z;
  page_count : Z;
  arg_width : Z;
  arg_height : Z;
  arg_rotate : Z;
  arg_flags : Z;
  options : option FPDF_PARALLEL_OPTIONS
}.

Definition thread_count_of (c : call) : Z :=
  match options c with
  | Some o =>
      if 0 <? worker_count o then worker_count o
      else FPDF_GetOptimalWorkerCountForDocument
             (document c) (total_pages c) (hardware_concurrency c) (file_size c)
  | None =>
      FPDF_GetOptimalWorkerCountForDocument
        (document c) (total_pages c) (hardware_concurrency c) (file_size c)
  end.

Definition max_queue_for (c : call) (page_count : Z) : Z :=
  match options c with
  | Some o => Pool.max_queue_of (max_queue_size o) page_count
  | None => Pool.max_queue_of 0 page_count
  end.

(** The task for the [i]-th page of a call. *)
Definition task_of (c : call) (collection : bool) (i : Z) : render_task :=
  RenderTask (start_page c + i) (arg_width c) (arg_height c) (arg_rotate c) (arg_flags c)
             (match options c with Some o => opt_form_handle o | None => false end)
             collection
             (match options c with Some o => opt_dpi o | None => 0%Q end)
             (match options c with Some o => opt_output_format o | None => 0 end).

Definition dispatch_pages (c : call) : dispatch :=
  if (start_page c <? 0) || (total_pages c <=? start_page c) then Rejected
  else
    let page_count := Z.min (page_count c) (total_pages c - start_page c) in
    if page_count <=? 0 then Rejected
    else
      let thread_count := thread_count_of c in
      if (thread_count =? 1) || (page_count =? 1)
      then Sequential (map (task_of c false) (seqZ 0 page_count))
      else Pooled thread_count (max_queue_for c page_count)
                  (map (task_of c true) (seqZ 0 page_count)).

(** FPDF_RenderPagesParallel. *)
Definition FPDF_RenderPagesParallel (c : call) : dispatch :=
  if negb (document c) || negb (callback c) || (page_count c <=? 0)
     || (arg_width c <=? 0) || (arg_height c <=? 0)
  then Rejected
  else dispatch_pages c.

(** FPDF_RenderPagesParallelV2. *)
Definition auto_detect (c : call) : bool :=
  (arg_width c =? 0) && (arg_height c =? 0)
  && match options c with Some o => Dims.Qltb 0 (opt_dpi o) | None => false end.

Definition FPDF_RenderPagesParallelV2 (c : call) : dispatch :=
  if negb (document c) || negb (callback c) || (page_count c <=? 0) then Rejected
  else if negb (auto_detect c) && ((arg_width c <=? 0) || (arg_height c <=? 0))
  then Rejected
  else dispatch_pages c.

Definition tasks_of (d : dispatch) : list render_task :=
  match d with
  | Rejected => []
  | Sequential tasks => tasks
  | Pooled _ _ tasks => tasks
  end.

(** *** How many threads *)

(** For a document handle that is set, the number of workers chosen is at
    least 1 and at most 16, at most the hardware thread count (4 when it is
    not known), and never more than the number of pages; documents of
    fewer than 4 pages get one worker. *)
Theorem optimal_worker_count_bounds (page_count hardware_concurrency file_size : Z) :
  0 <= hardware_concurrency <= INT_MAX ->
  let n := FPDF_GetOptimalWorkerCountForDocument true page_count
             hardware_concurrency file_size in
  1 <= n <= 16
  /\ n <= (if hardware_concurrency =? 0 then 4 else hardware_concurrency)
  /\ n <= Z.max 1 page_count
  /\ (page_count < 4 -> n = 1)
  /\ 1 <= FPDF_GetOptimalWorkerCount hardware_concurrency <= 16.
Proof.
  intros Hhw n. subst n.
  unfold FPDF_GetOptimalWorkerCountForDocument, FPDF_GetOptimalWorkerCount,
    int_of_unsigned, min3, INT_MAX in *. cbn [negb].
  destruct (Z.eqb_spec hardware_concurrency 0) as [-> | Hnz].
  - cbn [Z.leb Z.compare].
    repeat match goal with
           | |- context [if ?b then _ else _] => destruct b eqn:?
           end; lia.
  - destruct (Z.leb_spec hardware_concurrency 2147483647); [| lia].
    repeat match goal with
           | |- context [if ?b then _ else _] => destruct b eqn:?
           end; lia.
Qed.

Lemma optimal_worker_count_bounds_witness :
  FPDF_GetOptimalWorkerCountForDocument true 165 12 1000000 = 12
  /\ 1 <= FPDF_GetOptimalWorkerCountForDocument true 165 12 1000000 <= 16.
Proof.
  split; [reflexivity |].
  exact (proj1 (optimal_worker_count_bounds 165 12 1000000
                  ltac:(unfold INT_MAX; lia))).
Defined.

(** *** Which pages a call renders *)

Lemma map_add_seqZ (m : Z) (n : Z) :
  forall m', map (Z.add m) (seqZ m' n) = seqZ (m + m') n.
Proof.
  destruct (Z.le_gt_cases n 0) as [Hn | Hn].
  { intros m'. now rewrite !seqZ_nil by lia. }
  rewrite <- (Z2Nat.id n) by lia. generalize (Z.to_nat n) as k. clear Hn n.
  induction k as [| k IH]; intros m'; [reflexivity |].
  rewrite !(seqZ_cons _ (Z.of_nat (S k))) by lia. cbn [map].
  replace (Z.pred (Z.of_nat (S k))) with (Z.of_nat k) by lia.
  rewrite IH. do 2 f_equal. lia.
Qed.

Lemma dispatch_pages_spec (c : call) :
  let n := Z.min (page_count c) (total_pages c - start_page c) in
  if (start_page c <? 0) || (total_pages c <=? start_page c) || (page_count c <=? 0)
  then page_count c <= 0 \/ dispatch_pages c = Rejected
  else dispatch_pages c <> Rejected
       /\ map page_index (tasks_of (dispatch_pages c)) = seqZ (start_page c) n
       /\ 1 <= n
       /\ ((exists tasks, dispatch_pages c = Sequential tasks)
           <-> thread_count_of c = 1 \/ n = 1).
Proof.
  intros n. unfold dispatch_pages. fold n.
  destruct (Z.ltb_spec (start_page c) 0) as [Hneg | Hstart]; [now right |].
  destruct (Z.leb_spec (total_pages c) (start_page c)) as [Hpast | Hin]; [now right |].
  cbn [orb].
  destruct (Z.leb_spec (page_count c) 0) as [Hnone | Hsome]; [now left |].
  destruct (Z.leb_spec n 0) as [Hn | Hn]; [subst n; lia |].
  assert (Hpages : forall collection,
             map page_index (map (task_of c collection) (seqZ 0 n))
             = seqZ (start_page c) n).
  { intros collection. rewrite map_map.
    change (map (Z.add (start_page c)) (seqZ 0 n) = seqZ (start_page c) n).
    rewrite map_add_seqZ. f_equal. lia. }
  destruct (Z.eqb_spec (thread_count_of c) 1) as [Hone | Hmany]; cbn [orb].
  - repeat split; [discriminate | apply Hpages | lia | eauto | eauto].
  - destruct (Z.eqb_spec n 1) as [Hsingle | Hseveral].
    + repeat split; [discriminate | apply Hpages | lia | eauto | eauto].
    + repeat split; [discriminate | apply Hpages | lia | |].
      * intros [tasks Hd]. discriminate Hd.
      * intros [? | ?]; contradiction.
Qed.

Lemma accepted_is_dispatch (c : call) (d : dispatch) :
  d = FPDF_RenderPagesParallel c \/ d = FPDF_RenderPagesParallelV2 c ->
  d <> Rejected ->
  d = dispatch_pages c /\ 0 < page_count c.
Proof.
  intros Hd Hacc.
  destruct Hd as [-> | ->];
    unfold FPDF_RenderPagesParallel, FPDF_RenderPagesParallelV2 in *.
  - destruct (document c), (callback c), (Z.leb_spec (page_count c) 0),
      (Z.leb_spec (arg_width c) 0), (Z.leb_spec (arg_height c) 0);
      cbn [negb orb] in *; try contradiction. auto.
  - destruct (document c), (callback c), (Z.leb_spec (page_count c) 0);
      cbn [negb orb] in *; try contradiction.
    destruct (negb (auto_detect c) && _); [contradiction | auto].
Qed.

Lemma accepted_pages (c : call) (d : dispatch) :
  d = FPDF_RenderPagesParallel c \/ d = FPDF_RenderPagesParallelV2 c ->
  d <> Rejected ->
  map page_index (tasks_of d)
  = seqZ (start_page c) (Z.min (page_count c) (total_pages c - start_page c)).
Proof.
  intros Hd Hacc. destruct (accepted_is_dispatch c d Hd Hacc) as [-> Hpc].
  pose proof (dispatch_pages_spec c) as Hspec. cbv zeta in Hspec.
  destruct (Z.ltb_spec (start_page c) 0), (Z.leb_spec (total_pages c) (start_page c)),
    (Z.leb_spec (page_count c) 0); cbn [orb] in Hspec;
    try lia; try (destruct Hspec as [? | ?]; [lia | contradiction]).
  now destruct Hspec as (_ & Hpages & _).
Qed.

(** FPDF_RenderPagesParallel and FPDF_RenderPagesParallelV2 return false
    exactly for a missing document or callback, a page count below 1, a
    start page outside the document, or a width or height below 1 (which V2
    lets through when both are 0 and a DPI is given).  Otherwise they make
    one task for each page from the start page on, as many as were asked
    for or as the document has left, every one a page of the document;
    the pages are rendered by the calling thread exactly when one thread
    is to be used or one page is left. *)
Theorem parallel_entry_points (c : call) :
  let n := Z.min (page_count c) (total_pages c - start_page c) in
  let bad_range :=
    document c = false \/ callback c = false \/ page_count c <= 0
    \/ start_page c < 0 \/ total_pages c <= start_page c in
  (FPDF_RenderPagesParallel c = Rejected
   <-> bad_range \/ arg_width c <= 0 \/ arg_height c <= 0)
  /\ (FPDF_RenderPagesParallelV2 c = Rejected
      <-> bad_range \/ (auto_detect c = false /\ (arg_width c <= 0 \/ arg_height c <= 0)))
  /\ (forall d,
        d = FPDF_RenderPagesParallel c \/ d = FPDF_RenderPagesParallelV2 c ->
        d <> Rejected ->
        map page_index (tasks_of d) = seqZ (start_page c) n
        /\ 1 <= n
        /\ Forall (fun t => 0 <= page_index t < total_pages c) (tasks_of d)
        /\ ((exists tasks, d = Sequential tasks) <-> thread_count_of c = 1 \/ n = 1)).
Proof.
  intros n bad_range. subst bad_range.
  pose proof (dispatch_pages_spec c) as Hspec. cbv zeta in Hspec. fold n in Hspec.
  pose proof (eq_refl false) as Hfalse.
  assert (Hrej : 0 < page_count c ->
                 (dispatch_pages c = Rejected
                  <-> start_page c < 0 \/ total_pages c <= start_page c)).
  { intros Hpc.
    destruct (Z.ltb_spec (start_page c) 0), (Z.leb_spec (total_pages c) (start_page c)),
      (Z.leb_spec (page_count c) 0); cbn [orb] in Hspec;
      try lia; intuition (try lia; try congruence). }
  split; [| split].
  - unfold FPDF_RenderPagesParallel.
    destruct (document c), (callback c), (Z.leb_spec (page_count c) 0),
      (Z.leb_spec (arg_width c) 0), (Z.leb_spec (arg_height c) 0); cbn [negb orb];
      try (split; [intros _; tauto | reflexivity]).
    rewrite Hrej by lia. intuition (try lia; try discriminate).
  - unfold FPDF_RenderPagesParallelV2.
    destruct (document c), (callback c), (Z.leb_spec (page_count c) 0);
      cbn [negb orb]; try (split; [intros _; tauto | reflexivity]).
    destruct (auto_detect c); cbn [negb andb].
    + rewrite Hrej by lia. intuition (try lia; try discriminate).
    + destruct (Z.leb_spec (arg_width c) 0), (Z.leb_spec (arg_height c) 0);
        cbn [orb]; try (split; [intros _; tauto | reflexivity]).
      rewrite Hrej by lia. intuition (try lia; try discriminate).
  - intros d Hd Hacc.
    pose proof (accepted_is_dispatch c d Hd Hacc) as Hdis.
    destruct Hdis as [-> Hpc].
    destruct (Z.ltb_spec (start_page c) 0), (Z.leb_spec (total_pages c) (start_page c)),
      (Z.leb_spec (page_count c) 0); cbn [orb] in Hspec;
      try lia; try (destruct Hspec as [? | ?]; [lia | contradiction]).
    destruct Hspec as (_ & Hpages & Hn & Hseq).
    split; [exact Hpages |]. split; [exact Hn |]. split; [| exact Hseq].
    apply (Forall_map page_index (fun i => 0 <= i < total_pages c)).
    rewrite Hpages. apply Forall_seqZ. intros i Hi. subst n. lia.
Qed.

(** *** Which bitmaps a call asks for *)

(** The events that carry a bitmap size all carry the size [W] x [H]. *)
Definition sized (W H : Z) (e : event) : Prop :=
  match e with
  | BitmapCreateEx w h _ | PoolAcquire w h _ | FillRect w h _
  | RenderPageBitmap w h _ _ | FFLDraw w h _ _ => w = W /\ h = H
  | _ => True
  end.

Lemma tasks_of_dispatch_pages (c : call) (t : render_task) :
  In t (tasks_of (dispatch_pages c)) -> exists collection i, t = task_of c collection i.
Proof.
  unfold dispatch_pages.
  destruct (_ || _); [intros [] |].
  destruct (_ <=? 0); [intros [] |].
  destruct (_ || _); cbn [tasks_of]; rewrite in_map_iff;
    intros (i & <- & _); eauto.
Qed.

Lemma task_auto_detect (c : call) (collection : bool) (i : Z) :
  let t := task_of c collection i in
  (width t =? 0) && (height t =? 0) && Dims.Qltb 0 (dpi t) = auto_detect c.
Proof.
  unfold task_of, auto_detect. cbn [width height dpi].
  destruct (options c); reflexivity.
Qed.

Lemma ProcessTaskV2_dims_positive (d w h : Q) (W H : Z) :
  Dims.ProcessTaskV2_dims d w h = Dims.DimsOk W H -> 1 <= W /\ 1 <= H.
Proof.
  unfold Dims.ProcessTaskV2_dims.
  destruct (Dims.cast_int _) as [aw |]; [| discriminate].
  destruct (Dims.cast_int _) as [ah |]; [| discriminate].
  destruct (Z.ltb_spec aw 1); [discriminate |].
  destruct (Z.ltb_spec ah 1); [discriminate |].
  cbn [orb]. intros [= <- <-]. lia.
Qed.

(** No call that is accepted asks for a bitmap narrower or lower than one
    pixel, on any path: the bitmap that is created or acquired for a page,
    filled, rendered into and drawn on has one size, at least 1 x 1, which
    is the width and height of the call unless the call is in auto-detect
    mode, where a page that is rendered has the size computed for it from
    the DPI.  (The test of ProcessTaskV2 on the fields of the task selects
    auto-detect mode for the same calls as the test of
    FPDF_RenderPagesParallelV2 on its arguments.) *)
Theorem accepted_calls_ask_for_real_bitmaps
        (c : call) (t : render_task) (env : page_env) (trace : list event) :
  (In t (tasks_of (FPDF_RenderPagesParallel c))
   /\ (trace = ProcessTask t env \/ trace = sequential_page t env))
  \/ (In t (tasks_of (FPDF_RenderPagesParallelV2 c))
      /\ (ProcessTaskV2 t env = Some trace \/ sequential_page_v2 t env = Some trace)) ->
  exists W H,
    Forall (sized W H) trace
    /\ 1 <= W /\ 1 <= H
    /\ (auto_detect c = false -> W = arg_width c /\ H = arg_height c)
    /\ (auto_detect c = true -> In (Callback (page_index t) true) trace ->
        Dims.ProcessTaskV2_dims (dpi t) (width_pts env) (height_pts env)
        = Dims.DimsOk W H).
Proof.
  intros [[Hin Hrun] | [Hin Hrun]].
  - unfold FPDF_RenderPagesParallel in Hin.
    destruct (document c), (callback c), (Z.leb_spec (page_count c) 0),
      (Z.leb_spec (arg_width c) 0) as [| Hw], (Z.leb_spec (arg_height c) 0) as [| Hh];
      cbn [negb orb tasks_of] in Hin; try contradiction.
    destruct (tasks_of_dispatch_pages c t Hin) as (collection & i & ->).
    exists (arg_width c), (arg_height c).
    assert (Hauto : auto_detect c = false).
    { unfold auto_detect. destruct (Z.eqb_spec (arg_width c) 0); [lia | reflexivity]. }
    split; [| split; [lia | split; [lia | split; [auto | congruence]]]].
    unfold ProcessTask, sequential_page, close_or_defer, when in Hrun.
    destruct (loads env), (bitmap_ok env), (page_collection _), (form_handle _);
      destruct Hrun as [-> | ->]; cbn; repeat constructor.
  - unfold FPDF_RenderPagesParallelV2 in Hin.
    destruct (document c), (callback c), (Z.leb_spec (page_count c) 0) as [| Hpc];
      cbn [negb orb tasks_of] in Hin; try contradiction.
    destruct (auto_detect c) eqn:Hauto; cbn [negb andb] in Hin.
    + destruct (tasks_of_dispatch_pages c t Hin) as (collection & i & ->).
      pose proof (task_auto_detect c collection i) as Htest. cbv zeta in Htest.
      rewrite Hauto in Htest.
      assert (Hdims : actual_dims (task_of c collection i) env
                      = Dims.ProcessTaskV2_dims (dpi (task_of c collection i))
                          (width_pts env) (height_pts env)).
      { unfold actual_dims. now rewrite Htest. }
      unfold ProcessTaskV2, sequential_page_v2, close_or_defer, when in Hrun.
      rewrite Hdims in Hrun.
      destruct (Dims.ProcessTaskV2_dims _ _ _) as [W Hp | |] eqn:Edims.
      * destruct (ProcessTaskV2_dims_positive _ _ _ _ _ Edims) as [HW HH].
        exists W, Hp.
        split; [| split; [lia | split; [lia | split; [discriminate | auto]]]].
        destruct (loads env), (bitmap_ok env), (page_collection _), (form_handle _);
          cbn [negb app] in Hrun; destruct Hrun as [[= <-] | [= <-]];
          cbn; repeat constructor.
      * exists 1, 1.
        assert (Hquiet : Forall (sized 1 1) trace
                         /\ ~ In (Callback (page_index (task_of c collection i)) true)
                              trace).
        { destruct (loads env), (form_handle _);
            cbn [negb app] in Hrun; destruct Hrun as [[= <-] | [= <-]];
            (split; [cbn; repeat constructor |]);
            cbn; intros Hin'; decompose [or] Hin'; try discriminate; contradiction. }
        destruct Hquiet as [Hsized Hnone].
        split; [exact Hsized |]. split; [lia |]. split; [lia |].
        split; [discriminate |]. intros _ Hcb. contradiction.
      * exists 1, 1.
        assert (Hquiet : Forall (sized 1 1) trace
                         /\ ~ In (Callback (page_index (task_of c collection i)) true)
                              trace).
        { destruct (loads env);
            cbn [negb app] in Hrun; destruct Hrun as [Hrun | Hrun];
            try discriminate Hrun; injection Hrun as <-;
            (split; [cbn; repeat constructor |]);
            cbn; intros Hin'; decompose [or] Hin'; try discriminate; contradiction. }
        destruct Hquiet as [Hsized Hnone].
        split; [exact Hsized |]. split; [lia |]. split; [lia |].
        split; [discriminate |]. intros _ Hcb. contradiction.
    + destruct (Z.leb_spec (arg_width c) 0) as [| Hw],
        (Z.leb_spec (arg_height c) 0) as [| Hh];
        cbn [orb tasks_of] in Hin; try contradiction.
      destruct (tasks_of_dispatch_pages c t Hin) as (collection & i & ->).
      pose proof (task_auto_detect c collection i) as Htest. cbv zeta in Htest.
      rewrite Hauto in Htest.
      assert (Hdims : actual_dims (task_of c collection i) env
                      = Dims.DimsOk (arg_width c) (arg_height c)).
      { unfold actual_dims. now rewrite Htest. }
      unfold ProcessTaskV2, sequential_page_v2, close_or_defer, when in Hrun.
      rewrite Hdims in Hrun.
      exists (arg_width c), (arg_height c).
      split; [| split; [lia | split; [lia | split; [auto | discriminate]]]].
      destruct (loads env), (bitmap_ok env), (page_collection _), (form_handle _);
        cbn [negb app] in Hrun; destruct Hrun as [[= <-] | [= <-]];
        cbn; repeat constructor.
Qed.

(** A US Letter page of a four-page document rendered at 300 DPI in
    auto-detect mode by two threads. *)
Definition auto_detect_call : call :=
  Call true true 4 8 400000 0 4 0 0 0 0
       (Some (ParallelOptions 2 0 false 300 0)).

Lemma accepted_calls_ask_for_real_bitmaps_witness :
  exists trace,
    ProcessTaskV2 (task_of auto_detect_call true 2) letter_env = Some trace
    /\ In (PoolAcquire 2549 3299 FPDFBitmap_BGRx) trace
    /\ exists W H, Forall (sized W H) trace /\ 1 <= W /\ 1 <= H.
Proof.
  eexists. split; [vm_compute; reflexivity |]. split; [cbn; tauto |].
  match goal with
  | |- exists W H, Forall (sized W H) ?tr /\ _ =>
      destruct (accepted_calls_ask_for_real_bitmaps auto_detect_call
                  (task_of auto_detect_call true 2) letter_env tr)
        as (W & H & Hsized & HW & HH & _)
  end.
  - right. split; [vm_compute; tauto | left; vm_compute; reflexivity].
  - exists W, H. auto.
Defined.

End Api.

(* ===================================================================== *)
(** ** Rendering one page: what every path does with the page and the bitmap *)

Module RenderLaws.

Import Render.

(** A trace of one of the four paths for a task and a page. *)
Definition runs (task : render_task) (env : page_env) (trace : list event) : Prop :=
  trace = ProcessTask task env
  \/ trace = sequential_page task env
  \/ ProcessTaskV2 task env = Some trace
  \/ sequential_page_v2 task env = Some trace.

Definition count (p : event -> bool) (trace : list event) : nat :=
  List.length (List.filter p trace).

Definition is_load (e : event) : bool :=
  match e with LoadPage _ => true | _ => false end.

(** The page handle is given up: closed, or handed to the collection that
    closes it later. *)
Definition gives_up_page (e : event) : bool :=
  match e with ClosePage | CollectionAdd => true | _ => false end.

Definition is_render (e : event) : bool :=
  match e with RenderPageBitmap _ _ _ _ => true | _ => false end.

Definition reports (success : bool) (e : event) : bool :=
  match e with Callback _ s => Bool.eqb s success | _ => false end.

Definition is_release (e : event) : bool :=
  match e with PoolRelease => true | _ => false end.

(** Calls that take the page handle. *)
Definition uses_page (e : event) : bool :=
  match e with
  | OnAfterLoadPage | DoPageAAction_OPEN | DoPageAAction_CLOSE | OnBeforeClosePage
  | RenderPageBitmap _ _ _ _ | FFLDraw _ _ _ _ | ClosePage | CollectionAdd => true
  | _ => false
  end.

(** Calls that take the bitmap or hand its buffer out. *)
Definition uses_bitmap (e : event) : bool :=
  match e with
  | FillRect _ _ _ | RenderPageBitmap _ _ _ _ | FFLDraw _ _ _ _ | Callback _ true
  | PoolRelease => true
  | _ => false
  end.

(** What follows the first event that satisfies [p]. *)
Fixpoint after (p : event -> bool) (trace : list event) : list event :=
  match trace with
  | [] => []
  | e :: rest => if p e then rest else after p rest
  end.

Definition about_page (task : render_task) (e : event) : Prop :=
  match e with
  | LoadPage page_index | Callback page_index _ => page_index = Render.page_index task
  | _ => True
  end.

Ltac each_path Hrun :=
  unfold runs, ProcessTask, sequential_page, ProcessTaskV2, sequential_page_v2,
    close_or_defer, when in Hrun;
  repeat match type of Hrun with
         | _ \/ _ => destruct Hrun as [Hrun | Hrun]
         end;
  repeat match type of Hrun with
         | context [loads ?env] => destruct (loads env)
         | context [form_handle ?t] => destruct (form_handle t)
         | context [bitmap_ok ?env] => destruct (bitmap_ok env)
         | context [page_collection ?t] => destruct (page_collection t)
         | context [actual_dims ?t ?env] => destruct (actual_dims t env)
         end;
  cbn [negb app] in Hrun;
  try discriminate Hrun;
  try (injection Hrun as Hrun);
  subst.

(** On every path, for every task and page: the page is loaded once; if it
    loaded, its handle is given up (closed, or put in the collection) once,
    and not at all otherwise; after that no call takes the handle; the
    callback is invoked once, for the page of the task; it reports success
    exactly when FPDF_RenderPageBitmap was called, and never when the page
    did not load or no bitmap could be had; and once a pooled bitmap is
    released nothing uses it. *)
Theorem page_handle_balance (task : render_task) (env : page_env) (trace : list event) :
  runs task env trace ->
  count is_load trace = 1%nat
  /\ count gives_up_page trace = (if loads env then 1%nat else 0%nat)
  /\ Forall (fun e => uses_page e = false) (after gives_up_page trace)
  /\ count is_callback trace = 1%nat
  /\ Forall (about_page task) trace
  /\ count is_render trace = count (reports true) trace
  /\ (loads env = false \/ bitmap_ok env = false -> count (reports true) trace = 0%nat)
  /\ (ProcessTaskV2 task env = Some trace \/ sequential_page_v2 task env = Some trace ->
      count is_release trace = count (reports true) trace)
  /\ Forall (fun e => uses_bitmap e = false) (after is_release trace).
Proof.
  intros Hrun.
  assert (Hv2 : forall other,
             ProcessTaskV2 task env = Some other \/ sequential_page_v2 task env = Some other ->
             runs task env other) by (unfold runs; tauto).
  split; [| split; [| split; [| split; [| split; [| split; [| split; [| split]]]]]]].
  - each_path Hrun; reflexivity.
  - each_path Hrun; reflexivity.
  - each_path Hrun; cbn; repeat constructor.
  - each_path Hrun; reflexivity.
  - each_path Hrun; cbn; repeat constructor.
  - each_path Hrun; reflexivity.
  - intros Hfail. each_path Hrun; try reflexivity; destruct Hfail; discriminate.
  - intros Hpath. clear Hrun Hv2.
    unfold ProcessTaskV2, sequential_page_v2, close_or_defer, when in Hpath.
    destruct (loads env), (actual_dims task env), (form_handle task), (bitmap_ok env),
      (page_collection task); cbn [negb app] in Hpath;
      destruct Hpath as [Hpath | Hpath]; try discriminate Hpath;
      injection Hpath as <-; reflexivity.
  - each_path Hrun; cbn; repeat constructor.
Qed.

Lemma page_handle_balance_witness :
  count gives_up_page (ProcessTask form_task letter_env) = 1%nat
  /\ count is_callback (ProcessTask form_task letter_env) = 1%nat.
Proof.
  destruct (page_handle_balance form_task letter_env (ProcessTask form_task letter_env))
    as (_ & Hgive & _ & Hcall & _).
  - left. reflexivity.
  - split; [exact Hgive | exact Hcall].
Defined.

(** *** The form environment *)

Definition is_after_load (e : event) : bool :=
  match e with OnAfterLoadPage => true | _ => false end.

Definition is_before_close (e : event) : bool :=
  match e with OnBeforeClosePage => true | _ => false end.

Definition is_form_draw (e : event) : bool :=
  match e with FFLDraw _ _ _ _ => true | _ => false end.

(** With a form handle, ProcessTask tells the form environment of every
    page that loads and of its closing, whether or not a bitmap could be
    created.  ProcessTaskV2 tells it of every page that loads, but of the
    closing only when the page was rendered: when the dimensions are
    rejected or no bitmap can be acquired the page is given up without
    FORM_OnBeforeClosePage.  The sequential paths never tell the form
    environment of a page.  On all four paths the form fields are drawn
    exactly when the page is rendered and a form handle is set. *)
Theorem form_lifecycle_pairing (task : render_task) (env : page_env) :
  let told := if loads env && form_handle task then 1%nat else 0%nat in
  (count is_after_load (ProcessTask task env) = told
   /\ count is_before_close (ProcessTask task env) = told)
  /\ (forall trace,
        ProcessTaskV2 task env = Some trace ->
        count is_after_load trace = told
        /\ count is_before_close trace
           = (if form_handle task then count (reports true) trace else 0%nat))
  /\ (forall trace,
        trace = sequential_page task env \/ sequential_page_v2 task env = Some trace ->
        count is_after_load trace = 0%nat /\ count is_before_close trace = 0%nat)
  /\ (forall trace,
        runs task env trace ->
        count is_form_draw trace
        = (if form_handle task then count is_render trace else 0%nat)).
Proof.
  intros told. subst told. split; [| split; [| split]].
  - unfold ProcessTask, close_or_defer, when.
    destruct (loads env), (form_handle task), (bitmap_ok env), (page_collection task);
      split; reflexivity.
  - intros trace Hrun. unfold ProcessTaskV2, close_or_defer, when in Hrun.
    destruct (loads env), (actual_dims task env), (form_handle task), (bitmap_ok env),
      (page_collection task); cbn [negb app] in Hrun; try discriminate Hrun;
      injection Hrun as <-; split; reflexivity.
  - intros trace Hrun. unfold sequential_page, sequential_page_v2, when in Hrun.
    destruct (loads env), (actual_dims task env), (form_handle task), (bitmap_ok env);
      cbn [negb app] in Hrun; destruct Hrun as [Hrun | Hrun]; try discriminate Hrun;
      try (injection Hrun as Hrun); subst trace; split; reflexivity.
  - intros trace Hrun.
    unfold runs, ProcessTask, sequential_page, ProcessTaskV2, sequential_page_v2,
      close_or_defer, when in Hrun.
    destruct (loads env), (actual_dims task env), (form_handle task), (bitmap_ok env),
      (page_collection task); cbn [negb app] in Hrun;
      decompose [or] Hrun; clear Hrun;
      repeat match goal with
             | H : Some _ = Some _ |- _ => injection H as H
             | H : None = Some _ |- _ => discriminate H
             end; subst trace; reflexivity.
Qed.

End RenderLaws.

(* ===================================================================== *)
(** ** Pixel dimensions: the command line and the library compared *)

Module DimsLaws.

Import Dims.

Lemma Qtrunc_ge_1 (x : Q) : 1 <= Qtrunc x -> (1 <= x)%Q.
Proof.
  destruct x as [n d]. unfold Qtrunc, Qle. simpl. intros Hq.
  destruct (Z.lt_ge_cases n 0) as [Hn | Hn].
  - pose proof (Z.quot_opp_l n (Z.pos d) ltac:(lia)) as Ho.
    pose proof (Z.quot_pos (- n) (Z.pos d) ltac:(lia) ltac:(lia)). lia.
  - rewrite Z.quot_div_nonneg in Hq by lia.
    pose proof (Z.mul_div_le n (Z.pos d) ltac:(lia)). nia.
Qed.

Lemma cast_int_some (x : Q) (t : Z) :
  cast_int x = Some t -> t = Qtrunc x /\ t <= INT_MAX.
Proof.
  unfold cast_int, in_int.
  destruct (Z.leb_spec INT_MIN (Qtrunc x)); [| discriminate].
  destruct (Z.leb_spec (Qtrunc x) INT_MAX); [| discriminate].
  cbn [andb]. intros [= <-]. auto.
Qed.

(** A size the command line accepts is the size the library computes. *)
Lemma accepted_by_both (d w h : Q) (W H : Z) :
  render_page_to_png_dims d w h = DimsOk W H -> ProcessTaskV2_dims d w h = DimsOk W H.
Proof.
  intros Hok.
  pose proof (render_page_to_png_dims_spec d w h) as Hcli. cbv zeta in Hcli.
  set (wr := (w * scale_of_dpi d)%Q) in *. set (hr := (h * scale_of_dpi d)%Q) in *.
  destruct (Qltb (inject_Z INT_MAX) wr) eqn:E1, (Qltb wr 1) eqn:E2,
    (Qltb (inject_Z INT_MAX) hr) eqn:E3, (Qltb hr 1) eqn:E4; cbn [orb] in Hcli;
    try congruence.
  destruct Hcli as (Hcli & HW & HH).
  apply Qltb_false in E1, E2, E3, E4.
  destruct (in_range_cast wr E2 E1) as [Hcw _].
  destruct (in_range_cast hr E4 E3) as [Hch _].
  rewrite <- Hok, Hcli. unfold ProcessTaskV2_dims. fold wr hr. rewrite Hcw, Hch.
  destruct (Z.ltb_spec (Qfloor wr) 1); [lia |].
  destruct (Z.ltb_spec (Qfloor hr) 1); [lia |]. reflexivity.
Qed.

(** render_page_to_png and ProcessTaskV2 give a page the same pixel size:
    every page the command line accepts gets that very size from the
    library path, every page the library path rejects is rejected by the
    command line, and when the library path accepts a page the command
    line gives it the same size, except that it rejects a page with a raw
    size strictly between INT_MAX and INT_MAX + 1, which the library
    renders INT_MAX pixels wide or high. *)
Theorem cli_and_library_dims_agree (d w h : Q) :
  (forall W H,
     render_page_to_png_dims d w h = DimsOk W H ->
     ProcessTaskV2_dims d w h = DimsOk W H)
  /\ (ProcessTaskV2_dims d w h = DimsReject ->
      render_page_to_png_dims d w h = DimsReject)
  /\ (forall W H,
        ProcessTaskV2_dims d w h = DimsOk W H ->
        render_page_to_png_dims d w h = DimsOk W H
        \/ (render_page_to_png_dims d w h = DimsReject
            /\ (W = INT_MAX \/ H = INT_MAX))).
Proof.
  pose proof (render_page_to_png_dims_spec d w h) as Hcli. cbv zeta in Hcli.
  set (wr := (w * scale_of_dpi d)%Q) in *. set (hr := (h * scale_of_dpi d)%Q) in *.
  destruct (Qltb (inject_Z INT_MAX) wr) eqn:E1, (Qltb wr 1) eqn:E2,
    (Qltb (inject_Z INT_MAX) hr) eqn:E3, (Qltb hr 1) eqn:E4; cbn [orb] in Hcli.
  16: { (* the command line accepts *)
    destruct Hcli as (Hok & HW & HH). rewrite Hok.
    split; [intros W H [= <- <-]; now apply accepted_by_both |].
    rewrite (accepted_by_both d w h _ _ Hok).
    split; [discriminate | auto]. }
  all: rewrite Hcli; split; [discriminate |]; split; [reflexivity |].
  all: intros W H Hlib; right; split; [reflexivity |].
  all: pose proof (ProcessTaskV2_dims_ok d w h W H Hlib) as [HWf HHf]; fold wr in HWf;
    fold hr in HHf.
  all: unfold ProcessTaskV2_dims in Hlib; fold wr hr in Hlib.
  all: destruct (cast_int wr) as [aw |] eqn:Ecw; [| discriminate Hlib].
  all: destruct (cast_int hr) as [ah |] eqn:Ech; [| discriminate Hlib].
  all: destruct (Z.ltb_spec aw 1) as [| Haw]; [discriminate Hlib |].
  all: destruct (Z.ltb_spec ah 1) as [| Hah]; [discriminate Hlib |].
  all: cbn [orb] in Hlib; injection Hlib as -> ->.
  all: destruct (cast_int_some wr W Ecw) as [HWt HWmax].
  all: destruct (cast_int_some hr H Ech) as [HHt HHmax].
  all: pose proof (Qtrunc_ge_1 wr ltac:(lia)) as Hw1.
  all: pose proof (Qtrunc_ge_1 hr ltac:(lia)) as Hh1.
  all: try (apply Qltb_true in E2; exfalso; exact (Qlt_not_le _ _ E2 Hw1)).
  all: try (apply Qltb_true in E4; exfalso; exact (Qlt_not_le _ _ E4 Hh1)).
  all: try (apply Qltb_true in E1; left;
            pose proof (Qfloor_resp_le _ _ (Qlt_le_weak _ _ E1)) as Hfl;
            rewrite Qfloor_Z in Hfl; lia).
  all: apply Qltb_true in E3; right;
    pose proof (Qfloor_resp_le _ _ (Qlt_le_weak _ _ E3)) as Hfl;
    rewrite Qfloor_Z in Hfl; lia.
Qed.




End DimsLaws.

(* ===================================================================== *)
(** ** Smart mode with several threads: the ranges that are rendered *)

Module Ranges.

Import Render Api.

Section RangeLoop.

Variable enable_smart_mode : bool.
Variable is_scanned_map : list bool.
Variables start_page end_page : Z.

(** [enable_smart_mode && is_scanned_map[i - start_page]]. *)
Definition marked (i : Z) : bool :=
  enable_smart_mode && nth (Z.to_nat (i - start_page)) is_scanned_map false.

(** The loop of render_pages_bulk that finds the contiguous ranges of pages
    that are not marked, with [n] iterations left: the ranges it hands to
    FPDF_RenderPagesParallelV2, each as [(range_start, range_length)]. *)
Fixpoint range_loop (n : nat) (i range_start : Z) : list (Z * Z) :=
  match n with
  | O => []
  | S n' =>
      let is_scanned := (i <=? end_page) && marked i in
      let at_end := end_page <? i in
      if negb is_scanned && negb at_end && (range_start =? -1)
      then range_loop n' (i + 1) i
      else if (is_scanned || at_end) && negb (range_start =? -1)
      then
        let range_end := i - 1 in
        let range_length := range_end - range_start + 1 in
        (range_start, range_length) :: range_loop n' (i + 1) (-1)
      else range_loop n' (i + 1) range_start
  end.

(** [for (int i = start_page; i <= end_page + 1; ++i)], from
    [range_start = -1]. *)
Definition render_ranges : list (Z * Z) :=
  range_loop (Z.to_nat (end_page + 1 - start_page + 1)) start_page (-1).

Definition pages_of_range (range : Z * Z) : list Z := seqZ (fst range) (snd range).

Definition unmarked (i : Z) : bool := negb (marked i).

(** A range lies in the page range, is not empty, and is as long as it can
    be: the page before it and the page after it are marked, or outside. *)
Definition maximal_range (range : Z * Z) : Prop :=
  let '(range_start, range_length) := range in
  1 <= range_length
  /\ start_page <= range_start /\ range_start + range_length - 1 <= end_page
  /\ Forall (fun i => marked i = false) (pages_of_range range)
  /\ (start_page < range_start -> marked (range_start - 1) = true)
  /\ (range_start + range_length <= end_page ->
      marked (range_start + range_length) = true).

Lemma range_loop_spec (n : nat) : forall i range_start,
  Z.of_nat n = end_page + 2 - i ->
  0 <= start_page <= i /\ i <= end_page + 1 ->
  (if range_start =? -1 then i = start_page \/ marked (i - 1) = true
   else start_page <= range_start < i
        /\ Forall (fun j => marked j = false) (seqZ range_start (i - range_start))
        /\ (start_page < range_start -> marked (range_start - 1) = true)) ->
  flat_map pages_of_range (range_loop n i range_start)
  = (if range_start =? -1 then [] else seqZ range_start (i - range_start))
    ++ List.filter unmarked (seqZ i (end_page + 1 - i))
  /\ Forall maximal_range (range_loop n i range_start).
Proof.
  induction n as [| n IH]; intros i r Hn Hi Hr.
  - lia.
  - cbn [range_loop].
    destruct (Z.ltb_spec end_page i) as [Hend | Hin].
    + (* i = end_page + 1 *)
      assert (Ei : i = end_page + 1) by lia.
      destruct (Z.leb_spec i end_page) as [| _]; [lia |]. cbn [andb negb orb].
      assert (En : n = O) by lia. subst n. cbn [range_loop flat_map].
      rewrite (seqZ_nil i) by lia. cbn [List.filter].
      destruct (Z.eqb_spec r (-1)) as [-> | Hrne]; cbn [negb].
      * split; [reflexivity | constructor].
      * destruct Hr as (Hrange & Hfree & Hbefore).
        cbn [flat_map]. unfold pages_of_range at 1. cbn [fst snd].
        replace (i - 1 - r + 1) with (i - r) by lia. split; [reflexivity |].
        constructor; [| constructor].
        unfold maximal_range, pages_of_range. cbn [fst snd].
        replace (i - 1 - r + 1) with (i - r) by lia.
        repeat split; try lia; auto.
    + destruct (Z.leb_spec i end_page) as [_ |]; [| lia]. cbn [andb negb orb].
      rewrite (seqZ_cons i) by lia. cbn [List.filter]. unfold unmarked at 1.
      replace (Z.succ i) with (i + 1) by lia.
      replace (Z.pred (end_page + 1 - i)) with (end_page + 1 - (i + 1)) by lia.
      destruct (marked i) eqn:Hmark; cbn [negb andb orb].
      * (* a marked page: a range that is open ends here *)
        destruct (Z.eqb_spec r (-1)) as [-> | Hrne]; cbn [negb].
        -- apply (IH (i + 1) (-1)); [lia | lia |].
           cbn. right. now replace (i + 1 - 1) with i by lia.
        -- destruct Hr as (Hrange & Hfree & Hbefore).
           destruct (IH (i + 1) (-1)) as [Hflat Hall]; [lia | lia | |].
           { cbn. right. now replace (i + 1 - 1) with i by lia. }
           cbn [flat_map]. rewrite Hflat. unfold pages_of_range at 1. cbn [fst snd].
           replace (i - 1 - r + 1) with (i - r) by lia. split; [reflexivity |].
           constructor; [| exact Hall].
           unfold maximal_range, pages_of_range. cbn [fst snd].
           replace (i - 1 - r + 1) with (i - r) by lia.
           repeat split; try lia; auto.
           intros _. now replace (r + (i - r)) with i by lia.
      * (* a page to render: it opens a range or goes on with the open one *)
        destruct (Z.eqb_spec r (-1)) as [-> | Hrne]; cbn [negb].
        -- destruct (IH (i + 1) i) as [Hflat Hall]; [lia | lia | |].
           { destruct (Z.eqb_spec i (-1)); [lia |]. split; [lia |]. split.
             - replace (i + 1 - i) with 1 by lia.
               change (seqZ i 1) with [i]. now constructor.
             - intros Hlt. destruct Hr as [| Hr]; [lia | exact Hr]. }
           rewrite Hflat. destruct (Z.eqb_spec i (-1)); [lia |].
           replace (i + 1 - i) with 1 by lia. split; [reflexivity | exact Hall].
        -- destruct Hr as (Hrange & Hfree & Hbefore).
           assert (Hseq : seqZ r (i + 1 - r) = seqZ r (i - r) ++ [i]).
           { replace (i + 1 - r) with ((i - r) + 1) by lia.
             rewrite seqZ_app by lia. replace (r + (i - r)) with i by lia.
             reflexivity. }
           destruct (IH (i + 1) r) as [Hflat Hall]; [lia | lia | |].
           { destruct (Z.eqb_spec r (-1)); [contradiction |]. split; [lia |].
             split; [| exact Hbefore]. rewrite Hseq.
             apply Forall_app. split; [exact Hfree | now constructor]. }
           rewrite Hflat. destruct (Z.eqb_spec r (-1)); [contradiction |].
           rewrite Hseq, <- app_assoc. split; [reflexivity | exact Hall].
Qed.

End RangeLoop.




Lemma render_ranges_spec (enable_smart_mode : bool) (is_scanned_map : list bool)
                          (start_page end_page : Z) :
  0 <= start_page ->
  let ranges := render_ranges enable_smart_mode is_scanned_map start_page end_page in
  flat_map pages_of_range ranges
  = List.filter (unmarked enable_smart_mode is_scanned_map start_page)
      (seqZ start_page (end_page - start_page + 1))
  /\ Forall (maximal_range enable_smart_mode is_scanned_map start_page end_page) ranges.
Proof.
  intros Hstart ranges. subst ranges. unfold render_ranges.
  destruct (Z.le_gt_cases start_page (end_page + 1)) as [Hle | Hgt].
  - pose proof (range_loop_spec enable_smart_mode is_scanned_map start_page end_page
                  (Z.to_nat (end_page + 1 - start_page + 1)) start_page (-1)
                  ltac:(lia) ltac:(lia) ltac:(now left)) as [Hflat Hall].
    cbn [Z.eqb app] in Hflat.
    replace (end_page - start_page + 1) with (end_page + 1 - start_page) by lia.
    auto.
  - replace (Z.to_nat (end_page + 1 - start_page + 1)) with O by lia.
    rewrite seqZ_nil by lia. split; [reflexivity | constructor].
Qed.

(** The call of FPDF_RenderPagesParallelV2 that renders a range. *)
Definition range_call (total_pages hardware_concurrency file_size : Z)
                      (width_px height_px flags : Z) (opts : FPDF_PARALLEL_OPTIONS)
                      (range : Z * Z) : call :=
  Call true true total_pages hardware_concurrency file_size
       (fst range) (snd range) width_px height_px 0 flags (Some opts).



End Ranges.

(* ===================================================================== *)
(** ** The per-thread bitmap pool *)

Module BitmapPool.

Import Render.

(** A bitmap of the library: its handle and what FPDFBitmap_GetWidth,
    FPDFBitmap_GetHeight and FPDFBitmap_GetFormat answer for it. *)
Record bitmap := Bitmap {
  handle : nat;
  bmp_width : Z;
  bmp_height : Z;
  bmp_format : bitmap_format
}.

Definition format_eqb (a b : bitmap_format) : bool :=
  match a, b with
  | FPDFBitmap_Gray, FPDFBitmap_Gray
  | FPDFBitmap_BGR, FPDFBitmap_BGR
  | FPDFBitmap_BGRx, FPDFBitmap_BGRx => true
  | _, _ => false
  end.

Definition kMaxPoolSize : nat := 32.

(** The pool with the library's bookkeeping: the bitmaps created and
    destroyed so far, and the bitmaps the thread has acquired and not yet
    released. *)
Record state := State {
  pool_ : list bitmap;
  next_handle : nat;
  created : list bitmap;
  destroyed : list bitmap;
  in_use : list bitmap
}.

Definition empty : state := State [] O [] [] [].

Definition fits (width height : Z) (fpdf_format : bitmap_format) (b : bitmap) : bool :=
  (bmp_width b =? width) && (bmp_height b =? height) && format_eqb (bmp_format b) fpdf_format.

(** The search loop of Acquire: the first pooled bitmap that fits, and the
    pool without it. *)
Fixpoint find_erase (width height : Z) (fpdf_format : bitmap_format)
                    (pool : list bitmap) : option (bitmap * list bitmap) :=
  match pool with
  | [] => None
  | b :: rest =>
      if fits width height fpdf_format b then Some (b, rest)
      else match find_erase width height fpdf_format rest with
           | Some (found, rest') => Some (found, b :: rest')
           | None => None
           end
  end.

(** FPDFBitmap_CreateEx: null, or a new bitmap of the size and format asked
    for; [create_ok] is the library's answer. *)
Definition FPDFBitmap_CreateEx (create_ok : bool) (width height : Z)
                               (fpdf_format : bitmap_format) (st : state)
  : option bitmap * state :=
  if create_ok then
    let b := Bitmap (next_handle st) width height fpdf_format in
    (Some b, State (pool_ st) (S (next_handle st)) (created st ++ [b]) (destroyed st)
                   (b :: in_use st))
  else (None, st).

(** BitmapPool::Acquire. *)
Definition Acquire (create_ok : bool) (width height output_format : Z) (st : state)
  : option bitmap * state :=
  let fpdf_format := ParallelFormatToFPDFFormat output_format in
  match find_erase width height fpdf_format (pool_ st) with
  | Some (b, rest) =>
      (Some b, State rest (next_handle st) (created st) (destroyed st) (b :: in_use st))
  | None => FPDFBitmap_CreateEx create_ok width height fpdf_format st
  end.

Definition bitmap_eqb (a b : bitmap) : bool := Nat.eqb (handle a) (handle b).

Fixpoint remove_first (b : bitmap) (l : list bitmap) : list bitmap :=
  match l with
  | [] => []
  | x :: rest => if bitmap_eqb x b then rest else x :: remove_first b rest
  end.

(** BitmapPool::Release. *)
Definition Release (bmp : option bitmap) (st : state) : state :=
  match bmp with
  | None => st
  | Some b =>
      if (List.length (pool_ st) <? kMaxPoolSize)%nat
      then State (pool_ st ++ [b]) (next_handle st) (created st) (destroyed st)
                 (remove_first b (in_use st))
      else State (pool_ st) (next_handle st) (created st) (destroyed st ++ [b])
                 (remove_first b (in_use st))
  end.

(** BitmapPool::Clear. *)
Definition Clear (st : state) : state :=
  State [] (next_handle st) (created st) (destroyed st ++ pool_ st) (in_use st).

(** What ProcessTaskV2 and the sequential path of
    FPDF_RenderPagesParallelV2 do with the pool for one page: acquire, and
    release what was acquired once the callback has returned. *)
Record request := Request {
  req_width : Z;
  req_height : Z;
  req_format : Z;
  req_create_ok : bool
}.

Definition render_with_pool (st : state) (r : request) : state :=
  let '(bmp, st1) := Acquire (req_create_ok r) (req_width r) (req_height r)
                             (req_format r) st in
  Release bmp st1.

Definition render_all (requests : list request) (st : state) : state :=
  fold_left render_with_pool requests st.

(** *** Any use of the pool *)

Inductive op : Type :=
| OpAcquire (create_ok : bool) (width height output_format : Z)
| OpRelease (h : nat)
| OpClear.

(** One call by the thread that owns the pool.  A bitmap is released by
    its handle; [None] when the thread does not hold that bitmap. *)
Definition step (st : state) (o : op) : option state :=
  match o with
  | OpAcquire create_ok width height output_format =>
      Some (snd (Acquire create_ok width height output_format st))
  | OpRelease h =>
      match List.find (fun b => Nat.eqb (handle b) h) (in_use st) with
      | Some b => Some (Release (Some b) st)
      | None => None
      end
  | OpClear => Some (Clear st)
  end.

Fixpoint run (st : state) (ops : list op) : option state :=
  match ops with
  | [] => Some st
  | o :: rest => match step st o with
                 | Some st' => run st' rest
                 | None => None
                 end
  end.

(** Every bitmap that was created is in exactly one place. *)
Record sound (st : state) : Prop := Sound {
  sound_size : (List.length (pool_ st) <= kMaxPoolSize)%nat;
  sound_places : Permutation (created st) (pool_ st ++ in_use st ++ destroyed st);
  sound_handles : NoDup (map handle (created st));
  sound_fresh : Forall (fun b => (handle b < next_handle st)%nat) (created st)
}.

Lemma find_erase_some width height fpdf_format pool b rest :
  find_erase width height fpdf_format pool = Some (b, rest) ->
  fits width height fpdf_format b = true
  /\ exists before after,
       pool = before ++ b :: after /\ rest = before ++ after
       /\ Forall (fun x => fits width height fpdf_format x = false) before.
Proof.
  revert b rest. induction pool as [| x pool IH]; intros b rest; [discriminate |].
  cbn [find_erase]. destruct (fits width height fpdf_format x) eqn:Ex.
  - intros [= <- <-]. split; [exact Ex |]. exists [], pool. auto.
  - destruct (find_erase width height fpdf_format pool) as [[found rest'] |];
      [| discriminate].
    intros [= <- <-]. destruct (IH found rest' eq_refl) as (Hfit & l1 & l2 & -> & -> & Hno).
    split; [exact Hfit |]. exists (x :: l1), l2. repeat split. now constructor.
Qed.

Lemma find_erase_none width height fpdf_format pool :
  find_erase width height fpdf_format pool = None
  <-> Forall (fun x => fits width height fpdf_format x = false) pool.
Proof.
  induction pool as [| x pool IH]; [split; [constructor | reflexivity] |].
  cbn [find_erase]. destruct (fits width height fpdf_format x) eqn:Ex.
  - split; [discriminate |]. intros Hall. apply Forall_cons_iff in Hall as [Hx _].
    congruence.
  - destruct (find_erase width height fpdf_format pool) as [[found rest'] |].
    + split; [discriminate |]. intros Hall. apply Forall_cons_iff in Hall as [_ Hall].
      apply IH in Hall. discriminate.
    + split; [| reflexivity]. intros _. constructor; [exact Ex | now apply IH].
Qed.

Lemma fits_spec width height fpdf_format b :
  fits width height fpdf_format b = true
  <-> bmp_width b = width /\ bmp_height b = height /\ bmp_format b = fpdf_format.
Proof.
  unfold fits. rewrite !andb_true_iff, !Z.eqb_eq.
  destruct (bmp_format b), fpdf_format; cbn; intuition congruence.
Qed.

Lemma remove_first_perm (b : bitmap) (l : list bitmap) :
  In b l -> NoDup (map handle l) -> Permutation l (b :: remove_first b l).
Proof.
  induction l as [| x l IH]; [intros [] |]. intros Hin Hnd. cbn [remove_first].
  cbn [map] in Hnd. apply NoDup_cons_iff in Hnd as [Hx Hnd]. unfold bitmap_eqb.
  destruct (Nat.eqb_spec (handle x) (handle b)) as [Heq | Hne].
  - destruct Hin as [-> | Hin]; [reflexivity |].
    exfalso. apply Hx. rewrite Heq. now apply in_map.
  - destruct Hin as [-> | Hin]; [contradiction |].
    rewrite (IH Hin Hnd) at 1. apply perm_swap.
Qed.

Lemma sound_NoDup (st : state) :
  sound st -> NoDup (map handle (pool_ st ++ in_use st ++ destroyed st)).
Proof.
  intros [_ Hperm Hnd _]. eapply Permutation_NoDup; [| exact Hnd].
  now apply Permutation_map.
Qed.

Lemma sound_Acquire create_ok width height output_format (st : state) :
  sound st -> sound (snd (Acquire create_ok width height output_format st)).
Proof.
  intros [Hsize Hperm Hnd Hfresh]. unfold Acquire.
  destruct (find_erase _ _ _ (pool_ st)) as [[b rest] |] eqn:Efind.
  - destruct (find_erase_some _ _ _ _ _ _ Efind) as (_ & l1 & l2 & Hpool & -> & _).
    cbn [snd]. constructor; cbn [pool_ created in_use destroyed next_handle]; auto.
    + rewrite Hpool in Hsize. rewrite length_app in *. cbn [List.length] in Hsize.
      unfold kMaxPoolSize in *. lia.
    + etransitivity; [exact Hperm |]. rewrite Hpool. solve_Permutation.
  - unfold FPDFBitmap_CreateEx. destruct create_ok; cbn [snd]; [| now constructor].
    constructor; cbn [pool_ created in_use destroyed next_handle]; auto.
    + etransitivity; [apply Permutation_app_tail; exact Hperm |]. solve_Permutation.
    + rewrite map_app. cbn [map handle].
      apply (Permutation_NoDup (Permutation_cons_append _ _)).
      constructor; [| exact Hnd].
      rewrite in_map_iff. intros (x & Hx & Hin).
      rewrite Forall_forall in Hfresh. specialize (Hfresh x Hin). cbn in Hx. lia.
    + apply Forall_app. split.
      * eapply Forall_impl; [| exact Hfresh]. cbn. intros; lia.
      * constructor; [cbn; lia | constructor].
Qed.

Lemma sound_Release (b : bitmap) (st : state) :
  sound st -> In b (in_use st) -> sound (Release (Some b) st).
Proof.
  intros Hs Hin. pose proof (sound_NoDup st Hs) as Hall.
  destruct Hs as [Hsize Hperm Hnd Hfresh].
  assert (Huse : NoDup (map handle (in_use st))).
  { rewrite !map_app in Hall. apply NoDup_app_remove_l in Hall.
    now apply NoDup_app_remove_r in Hall. }
  pose proof (remove_first_perm b (in_use st) Hin Huse) as Hrem.
  unfold Release, kMaxPoolSize in *.
  destruct (Nat.ltb_spec (List.length (pool_ st)) 32).
  - constructor; cbn [pool_ created in_use destroyed next_handle]; auto.
    + rewrite length_app. cbn. unfold kMaxPoolSize. lia.
    + etransitivity; [exact Hperm |].
      etransitivity; [apply Permutation_app_head, Permutation_app_tail; exact Hrem |].
      solve_Permutation.
  - constructor; cbn [pool_ created in_use destroyed next_handle]; auto.
    etransitivity; [exact Hperm |].
    etransitivity; [apply Permutation_app_head, Permutation_app_tail; exact Hrem |].
    solve_Permutation.
Qed.

Lemma sound_Clear (st : state) : sound st -> sound (Clear st).
Proof.
  intros [Hsize Hperm Hnd Hfresh].
  constructor; cbn [pool_ created in_use destroyed next_handle Clear]; auto.
  - cbn. unfold kMaxPoolSize. lia.
  - etransitivity; [exact Hperm |]. solve_Permutation.
Qed.

Lemma sound_step (st st' : state) (o : op) :
  sound st -> step st o = Some st' -> sound st'.
Proof.
  intros Hs. destruct o as [ok w h f | h |]; cbn [step].
  - intros [= <-]. now apply sound_Acquire.
  - destruct (List.find _ (in_use st)) as [b |] eqn:Efind; [| discriminate].
    intros [= <-]. apply find_some in Efind as [Hin _]. now apply sound_Release.
  - intros [= <-]. now apply sound_Clear.
Qed.

Lemma sound_run (ops : list op) : forall st st',
  sound st -> run st ops = Some st' -> sound st'.
Proof.
  induction ops as [| o ops IH]; intros st st' Hs; cbn [run].
  - now intros [= <-].
  - destruct (step st o) as [st1 |] eqn:Estep; [| discriminate].
    apply IH. eapply sound_step; eassumption.
Qed.

Lemma sound_empty : sound empty.
Proof. constructor; cbn; auto using NoDup_nil. unfold kMaxPoolSize. lia. Qed.

(** However the owning thread uses its pool (acquiring, releasing what it
    holds, clearing), the pool keeps at most 32 bitmaps and every bitmap
    that was ever created is in exactly one place: in the pool, in use, or
    destroyed.  So no bitmap is destroyed twice, none is handed out while
    it is in use or after it was destroyed, and none is lost.  A bitmap
    that Acquire returns has the width, height and format asked for; and
    after Clear with nothing in use every bitmap created has been
    destroyed. *)
Theorem pool_conservation (ops : list op) (st : state) :
  run empty ops = Some st ->
  (List.length (pool_ st) <= 32)%nat
  /\ Permutation (created st) (pool_ st ++ in_use st ++ destroyed st)
  /\ NoDup (map handle (pool_ st ++ in_use st ++ destroyed st))
  /\ (forall create_ok width height output_format b,
        fst (Acquire create_ok width height output_format st) = Some b ->
        bmp_width b = width /\ bmp_height b = height
        /\ bmp_format b = ParallelFormatToFPDFFormat output_format
        /\ ~ In (handle b) (map handle (in_use st ++ destroyed st)))
  /\ (in_use st = [] ->
      pool_ (Clear st) = [] /\ Permutation (created st) (destroyed (Clear st))).
Proof.
  intros Hrun. pose proof (sound_run ops empty st sound_empty Hrun) as Hs.
  pose proof (sound_NoDup st Hs) as Hall.
  destruct Hs as [Hsize Hperm Hnd Hfresh].
  split; [exact Hsize |]. split; [exact Hperm |]. split; [exact Hall |]. split.
  - intros ok w h f b. unfold Acquire.
    destruct (find_erase _ _ _ (pool_ st)) as [[found rest] |] eqn:Efind.
    + cbn [fst]. intros [= ->].
      destruct (find_erase_some _ _ _ _ _ _ Efind) as (Hfit & l1 & l2 & Hpool & _).
      apply fits_spec in Hfit. destruct Hfit as (Hw & Hh & Hf).
      repeat split; auto.
      rewrite Hpool, !map_app in Hall. cbn [map] in Hall.
      rewrite <- app_assoc in Hall. cbn [app] in Hall.
      apply NoDup_app_remove_l in Hall. apply NoDup_cons_iff in Hall as [Hnot _].
      rewrite map_app. intros Hin. apply Hnot.
      rewrite in_app_iff. right. exact Hin.
    + unfold FPDFBitmap_CreateEx. destruct ok; cbn [fst]; [| discriminate].
      intros [= <-]. cbn [bmp_width bmp_height bmp_format handle].
      repeat split. rewrite in_map_iff. intros (x & Hx & Hin).
      assert (Hc : In x (created st)).
      { eapply Permutation_in; [apply Permutation_sym; exact Hperm |].
        rewrite in_app_iff. right. exact Hin. }
      rewrite Forall_forall in Hfresh. specialize (Hfresh x Hc). cbn in Hx. lia.
  - intros Hidle. cbn [Clear pool_ destroyed]. split; [reflexivity |].
    etransitivity; [exact Hperm |]. rewrite Hidle. solve_Permutation.
Qed.

Lemma pool_conservation_witness :
  exists st,
    run empty [OpAcquire true 800 600 0; OpRelease 0; OpAcquire true 800 600 0;
               OpAcquire true 800 600 0; OpRelease 1; OpRelease 0; OpClear]
    = Some st
    /\ List.length (created st) = 2%nat
    /\ Permutation (created st) (pool_ st ++ in_use st ++ destroyed st).
Proof.
  eexists. split; [vm_compute; reflexivity |]. split; [reflexivity |].
  refine (proj1 (proj2 (pool_conservation
                          [OpAcquire true 800 600 0; OpRelease 0; OpAcquire true 800 600 0;
                           OpAcquire true 800 600 0; OpRelease 1; OpRelease 0; OpClear]
                          _ _))).
  vm_compute. reflexivity.
Defined.

(** *** Reuse *)

(** What makes a pooled bitmap fit a request. *)
Definition key : Type := Z * Z * bitmap_format.

Definition key_of_bitmap (b : bitmap) : key := (bmp_width b, bmp_height b, bmp_format b).

Definition key_of_request (r : request) : key :=
  (req_width r, req_height r, ParallelFormatToFPDFFormat (req_format r)).

Definition key_eq_dec (a b : key) : {a = b} + {a <> b}.
Proof. repeat decide equality. Defined.

(** The different sizes and formats among the requests. *)
Definition sizes (requests : list request) : list key :=
  nodup key_eq_dec (map key_of_request requests).

Lemma fits_key (r : request) (b : bitmap) :
  fits (req_width r) (req_height r) (ParallelFormatToFPDFFormat (req_format r)) b = true
  <-> key_of_bitmap b = key_of_request r.
Proof.
  rewrite fits_spec. unfold key_of_bitmap, key_of_request.
  split; [intros (-> & -> & ->); reflexivity | intros [= -> -> ->]; auto].
Qed.

(** Between two pages: nothing in use, nothing destroyed, one pooled
    bitmap for each size seen so far. *)
Record settled (seen : list request) (st : state) : Prop := Settled {
  settled_keys : NoDup (map key_of_bitmap (pool_ st));
  settled_seen : forall k, In k (map key_of_bitmap (pool_ st))
                           <-> In k (map key_of_request seen);
  settled_created : List.length (created st) = List.length (pool_ st);
  settled_destroyed : destroyed st = [];
  settled_in_use : in_use st = []
}.

Section Reuse.

Variable all : list request.
Hypothesis few_sizes : (List.length (sizes all) <= 32)%nat.

Lemma few_keys (keys : list key) :
  NoDup keys -> incl keys (map key_of_request all) -> (List.length keys <= 32)%nat.
Proof.
  intros Hnd Hincl. etransitivity; [| exact few_sizes].
  apply NoDup_incl_length; [exact Hnd |].
  intros k Hk. unfold sizes. apply nodup_In. now apply Hincl.
Qed.

Lemma settled_step (seen : list request) (st : state) (r : request) :
  settled seen st -> incl (seen ++ [r]) all -> req_create_ok r = true ->
  settled (seen ++ [r]) (render_with_pool st r).
Proof.
  intros [Hkeys Hseen Hcreated Hdestroyed Huse] Hall Hok.
  assert (Hpool_in : incl (map key_of_bitmap (pool_ st)) (map key_of_request all)).
  { intros k Hk. apply Hseen in Hk. apply in_map_iff in Hk as (x & <- & Hx).
    apply in_map. apply Hall. apply in_app_iff. now left. }
  assert (Hr : In (key_of_request r) (map key_of_request all)).
  { apply in_map. apply Hall. apply in_app_iff. right. now left. }
  unfold render_with_pool, Acquire. rewrite Hok.
  destruct (find_erase _ _ _ (pool_ st)) as [[b rest] |] eqn:Efind.
  - destruct (find_erase_some _ _ _ _ _ _ Efind) as (Hfit & l1 & l2 & Hpool & -> & _).
    apply fits_key in Hfit.
    pose proof (few_keys _ Hkeys Hpool_in) as Hlen. rewrite length_map, Hpool in Hlen.
    rewrite length_app in Hlen. cbn [List.length] in Hlen.
    unfold Release. cbn [pool_ in_use created destroyed next_handle].
    unfold kMaxPoolSize.
    destruct (Nat.ltb_spec (List.length (l1 ++ l2)) 32) as [_ | Hfull];
      [| rewrite length_app in Hfull; lia].
    assert (Hperm : Permutation (pool_ st) ((l1 ++ l2) ++ [b])).
    { rewrite Hpool. solve_Permutation. }
    constructor; cbn [pool_ in_use created destroyed next_handle].
    + eapply Permutation_NoDup; [| exact Hkeys]. now apply Permutation_map.
    + intros k.
      assert (Hin : In k (map key_of_bitmap ((l1 ++ l2) ++ [b]))
                    <-> In k (map key_of_bitmap (pool_ st))).
      { split; apply Permutation_in, Permutation_map;
          [apply Permutation_sym; exact Hperm | exact Hperm]. }
      rewrite Hin, (map_app key_of_request), in_app_iff, <- (Hseen k).
      cbn [map In]. rewrite <- Hfit. split; [tauto |].
      intros [Hk | [<- | []]]; [exact Hk |].
      apply in_map. rewrite Hpool. apply in_elt.
    + rewrite Hcreated. now apply Permutation_length.
    + exact Hdestroyed.
    + rewrite Huse. cbn [remove_first]. unfold bitmap_eqb. now rewrite Nat.eqb_refl.
  - apply find_erase_none in Efind.
    assert (Hnew : ~ In (key_of_request r) (map key_of_bitmap (pool_ st))).
    { rewrite in_map_iff. intros (x & Hx & Hin).
      rewrite Forall_forall in Efind. specialize (Efind x Hin).
      apply fits_key in Hx. congruence. }
    assert (Hlen : (List.length (key_of_request r :: map key_of_bitmap (pool_ st)) <= 32)%nat).
    { apply few_keys; [now constructor |].
      intros k [<- | Hk]; [exact Hr | now apply Hpool_in]. }
    cbn [List.length] in Hlen. rewrite length_map in Hlen.
    unfold FPDFBitmap_CreateEx, Release.
    cbn [pool_ in_use created destroyed next_handle]. unfold kMaxPoolSize.
    destruct (Nat.ltb_spec (List.length (pool_ st)) 32) as [_ | Hfull]; [| lia].
    constructor; cbn [pool_ in_use created destroyed next_handle].
    + rewrite map_app. cbn [map].
      apply (Permutation_NoDup (Permutation_cons_append _ _)).
      now constructor.
    + intros k. rewrite !map_app, !in_app_iff. cbn [map In].
      rewrite (Hseen k). unfold key_of_bitmap at 1. cbn [bmp_width bmp_height bmp_format].
      reflexivity.
    + rewrite !length_app. cbn [List.length]. lia.
    + exact Hdestroyed.
    + rewrite Huse. cbn [remove_first]. unfold bitmap_eqb. now rewrite Nat.eqb_refl.
Qed.

Lemma settled_render_all (requests : list request) : forall seen st,
  settled seen st -> incl (seen ++ requests) all ->
  Forall (fun r => req_create_ok r = true) requests ->
  settled (seen ++ requests) (render_all requests st).
Proof.
  induction requests as [| r requests IH]; intros seen st Hst Hall Hok.
  - now rewrite app_nil_r.
  - apply Forall_cons_iff in Hok as [Hr Hok]. cbn [render_all fold_left].
    replace (seen ++ r :: requests) with ((seen ++ [r]) ++ requests) in *
      by now rewrite <- app_assoc.
    apply IH; [| exact Hall | exact Hok].
    apply settled_step; [exact Hst | | exact Hr].
    intros x Hx. apply Hall. apply in_app_iff. now left.
Qed.

End Reuse.

(** The pool does what it is for: when the pages a thread renders have at
    most 32 different sizes and formats between them and the library can
    create the bitmaps, the thread creates one bitmap for each size and
    format, whatever the number and order of the pages, and destroys none;
    afterwards the pool holds exactly these bitmaps and none is in use. *)
Theorem pool_reuse (requests : list request) :
  Forall (fun r => req_create_ok r = true) requests ->
  (List.length (sizes requests) <= 32)%nat ->
  let st := render_all requests empty in
  List.length (created st) = List.length (sizes requests)
  /\ destroyed st = [] /\ in_use st = []
  /\ Permutation (map key_of_bitmap (pool_ st)) (sizes requests).
Proof.
  intros Hok Hfew st.
  assert (Hempty : settled [] empty).
  { constructor; cbn; auto using NoDup_nil. }
  pose proof (settled_render_all requests Hfew requests [] empty Hempty
                (incl_refl _) Hok) as [Hkeys Hseen Hcreated Hdestroyed Huse].
  cbn [app] in Hseen. fold st in Hkeys, Hseen, Hcreated, Hdestroyed, Huse.
  assert (Hperm : Permutation (map key_of_bitmap (pool_ st)) (sizes requests)).
  { apply Stdlib.Sorting.Permutation.NoDup_Permutation;
      [exact Hkeys | apply NoDup_nodup |].
    intros k. unfold sizes. rewrite nodup_In. apply Hseen. }
  split; [| auto].
  rewrite Hcreated, <- (length_map key_of_bitmap). now apply Permutation_length.
Qed.

(** Five pages of two sizes. *)
Lemma pool_reuse_witness :
  let requests := [Request 2549 3299 0 true; Request 3299 2549 0 true;
                   Request 2549 3299 0 true; Request 2549 3299 7 true;
                   Request 3299 2549 0 true] in
  List.length (created (render_all requests empty)) = 2%nat.
Proof.
  intros requests.
  refine (proj1 (pool_reuse requests _ _)).
  - repeat constructor.
  - vm_compute. lia.
Defined.

End BitmapPool.

(* ===================================================================== *)
(** ** Page handles over a whole call *)

Module Pages.

Import Render Api.

(** A page handle: the page it was loaded for; [None] is the null handle. *)
Definition FPDF_PAGE : Type := option Z.

(** PageHandleCollection::Add on [pages_]. *)
Definition Add (page : FPDF_PAGE) (pages_ : list FPDF_PAGE) : list FPDF_PAGE :=
  match page with
  | None => pages_
  | Some _ => pages_ ++ [page]
  end.

(** PageHandleCollection::CloseAllInternal: the pages FPDF_ClosePage is
    called on, in that order, and [pages_] afterwards. *)
Definition CloseAllInternal (pages_ : list FPDF_PAGE) : list Z * list FPDF_PAGE :=
  (omap id (rev pages_), []).

(** The pages closed so far, in the order of the calls of FPDF_ClosePage,
    and the collection of the call. *)
Record handles := Handles {
  closed : list Z;
  pages_ : list FPDF_PAGE
}.

(** What an event of a path does to the handle of the page [page]. *)
Definition page_event (page : Z) (st : handles) (e : event) : handles :=
  match e with
  | ClosePage => Handles (closed st ++ [page]) (pages_ st)
  | CollectionAdd => Handles (closed st) (Add (Some page) (pages_ st))
  | _ => st
  end.

Inductive entry_point : Type := V1 | V2.

Definition enter (api : entry_point) (c : call) : dispatch :=
  match api with
  | V1 => FPDF_RenderPagesParallel c
  | V2 => FPDF_RenderPagesParallelV2 c
  end.

(** The path a worker thread takes for a task, and the path the calling
    thread takes when it renders the pages itself. *)
Definition worker_path (api : entry_point) (t : render_task) (env : page_env)
  : option (list event) :=
  match api with
  | V1 => Some (ProcessTask t env)
  | V2 => ProcessTaskV2 t env
  end.

Definition caller_path (api : entry_point) (t : render_task) (env : page_env)
  : option (list event) :=
  match api with
  | V1 => Some (sequential_page t env)
  | V2 => sequential_page_v2 t env
  end.

(** The tasks in the order in which they are processed; [None] when a task
    meets an undefined conversion. *)
Fixpoint process (path : render_task -> page_env -> option (list event))
                 (envs : Z -> page_env) (tasks : list render_task) (st : handles)
  : option handles :=
  match tasks with
  | [] => Some st
  | t :: rest =>
      match path t (envs (page_index t)) with
      | Some trace =>
          process path envs rest (fold_left (page_event (page_index t)) trace st)
      | None => None
      end
  end.

(** A call of an entry point, from an empty collection to its return.  On
    the pooled path the workers take the tasks in the order [order], which
    the queue decides, and the call ends with CloseAllUnderDocLock. *)
Definition render_call (api : entry_point) (c : call) (envs : Z -> page_env)
                       (order : list render_task) : option handles :=
  match enter api c with
  | Rejected => Some (Handles [] [])
  | Sequential tasks => process (caller_path api) envs tasks (Handles [] [])
  | Pooled _ _ _ =>
      match process (worker_path api) envs order (Handles [] []) with
      | Some st =>
          let '(closing, pages_) := CloseAllInternal (pages_ st) in
          Some (Handles (closed st ++ closing) pages_)
      | None => None
      end
  end.

(** The pages whose handle is closed or waits in the collection. *)
Definition given_up (st : handles) : list Z := closed st ++ omap id (pages_ st).

Definition loaded (envs : Z -> page_env) (pages : list Z) : list Z :=
  List.filter (fun i => loads (envs i)) pages.

Lemma path_gives_up_once (api : entry_point) (worker : bool) (t : render_task)
                         (env : page_env) (trace : list event) (st : handles) :
  (if worker then worker_path api t env else caller_path api t env) = Some trace ->
  Permutation (given_up (fold_left (page_event (page_index t)) trace st))
              (given_up st ++ if loads env then [page_index t] else [])
  /\ (worker = false -> pages_ (fold_left (page_event (page_index t)) trace st) = pages_ st).
Proof.
  unfold worker_path, caller_path, ProcessTask, ProcessTaskV2, sequential_page,
    sequential_page_v2, close_or_defer, when.
  destruct st as [cl pg]. unfold given_up.
  destruct api, worker, (loads env), (actual_dims t env), (form_handle t),
    (bitmap_ok env), (page_collection t); cbn [negb app];
    intros Hrun; try discriminate Hrun; injection Hrun as <-;
    cbn [fold_left page_event Add closed pages_];
    (split; [| try reflexivity; discriminate]);
    rewrite ?omap_app; cbn [omap id]; solve_Permutation.
Qed.

Lemma omap_rev {A : Type} (l : list (option A)) :
  omap id (rev l) = rev (omap id l).
Proof.
  induction l as [| x l IH]; [reflexivity |].
  cbn [rev]. rewrite omap_app, IH. destruct x; cbn; [reflexivity |].
  now rewrite app_nil_r.
Qed.

Lemma filter_Permutation' {A : Type} (f : A -> bool) (l l' : list A) :
  Permutation l l' -> Permutation (List.filter f l) (List.filter f l').
Proof.
  induction 1 as [| x l l' _ IH | x y l | l l' l'' _ IH1 _ IH2]; cbn [List.filter].
  - constructor.
  - destruct (f x); [now constructor | exact IH].
  - destruct (f x), (f y); try reflexivity. apply perm_swap.
  - now transitivity (List.filter f l').
Qed.

Lemma process_given_up (api : entry_point) (worker : bool) (envs : Z -> page_env)
                       (tasks : list render_task) : forall st st',
  process (if worker then worker_path api else caller_path api) envs tasks st = Some st' ->
  Permutation (given_up st') (given_up st ++ loaded envs (map page_index tasks))
  /\ (worker = false -> pages_ st' = pages_ st).
Proof.
  induction tasks as [| t tasks IH]; intros st st'; cbn [process].
  - intros [= <-]. cbn. now rewrite app_nil_r.
  - destruct ((if worker then worker_path api else caller_path api)
                t (envs (page_index t))) as [trace |] eqn:Epath; [| discriminate].
    intros Hrest. destruct (IH _ _ Hrest) as [Hperm Hsame].
    destruct (path_gives_up_once api worker t (envs (page_index t)) trace st)
      as [Hone Hone'].
    { destruct worker; exact Epath. }
    split.
    + etransitivity; [exact Hperm |].
      etransitivity; [apply Permutation_app_tail; exact Hone |].
      unfold loaded. cbn [map List.filter].
      destruct (loads (envs (page_index t))); rewrite <- app_assoc; reflexivity.
    + intros Hcaller. now rewrite (Hsame Hcaller), (Hone' Hcaller).
Qed.

(** No page handle is lost or closed twice by a call of
    FPDF_RenderPagesParallel or FPDF_RenderPagesParallelV2: whichever path
    the call takes and in whatever order the workers take the tasks, when
    the call returns FPDF_ClosePage has been called exactly once for every
    page of the range that loaded and for no other page, and the
    collection is empty.  On the pooled paths the collected handles are
    closed after the workers are done, last loaded first. *)
Theorem every_loaded_page_is_closed_once
        (api : entry_point) (c : call) (envs : Z -> page_env)
        (order : list render_task) (st : handles) :
  Permutation order (tasks_of (enter api c)) ->
  render_call api c envs order = Some st ->
  let n := Z.min (page_count c) (total_pages c - start_page c) in
  let pages := map page_index (tasks_of (enter api c)) in
  pages_ st = []
  /\ Permutation (closed st) (loaded envs pages)
  /\ (enter api c <> Rejected -> pages = seqZ (start_page c) n)
  /\ NoDup (closed st)
  /\ (forall st1 tasks thread_count max_queue,
        enter api c = Pooled thread_count max_queue tasks ->
        process (worker_path api) envs order (Handles [] []) = Some st1 ->
        closed st = closed st1 ++ rev (omap id (pages_ st1))).
Proof.
  intros Horder Hrun n pages.
  assert (Hpages : enter api c <> Rejected -> pages = seqZ (start_page c) n).
  { intros Hacc. apply accepted_pages; [| exact Hacc]. destruct api; cbn; auto. }
  assert (Hnodup : NoDup (loaded envs pages)).
  { unfold loaded. apply List.NoDup_filter.
    destruct (enter api c) eqn:Eenter.
    - subst pages. cbn. constructor.
    - rewrite Hpages by discriminate. apply NoDup_ListNoDup, NoDup_seqZ.
    - rewrite Hpages by discriminate. apply NoDup_ListNoDup, NoDup_seqZ. }
  assert (Hmain : pages_ st = [] /\ Permutation (closed st) (loaded envs pages)).
  { unfold render_call in Hrun. subst pages.
    destruct (enter api c) as [| tasks | thread_count max_queue tasks] eqn:Eenter;
      cbn [tasks_of] in *.
    - injection Hrun as <-. split; reflexivity.
    - destruct (process_given_up api false envs tasks _ _ Hrun) as [Hperm Hsame].
      rewrite (Hsame eq_refl). cbn [pages_]. split; [reflexivity |].
      unfold given_up in Hperm. rewrite (Hsame eq_refl) in Hperm.
      cbn [pages_ closed omap app] in Hperm. now rewrite app_nil_r in Hperm.
    - destruct (process (worker_path api) envs order (Handles [] []))
        as [st1 |] eqn:Eproc; [| discriminate].
      cbn [CloseAllInternal] in Hrun. injection Hrun as <-. cbn [pages_ closed].
      split; [reflexivity |].
      destruct (process_given_up api true envs order _ _ Eproc) as [Hperm _].
      cbn [given_up closed pages_ omap app] in Hperm.
      transitivity (given_up st1).
      + unfold given_up, FPDF_PAGE. apply Permutation_app_head.
        rewrite omap_rev. apply Permutation_sym, Permutation_rev.
      + etransitivity; [exact Hperm |]. unfold loaded.
        apply filter_Permutation'. now apply Permutation_map. }
  destruct Hmain as [Hempty Hperm].
  split; [exact Hempty |]. split; [exact Hperm |]. split; [exact Hpages |]. split.
  - eapply Permutation_NoDup; [apply Permutation_sym; exact Hperm | exact Hnodup].
  - intros st1 tasks thread_count max_queue Eenter Eproc.
    unfold render_call in Hrun. rewrite Eenter, Eproc in Hrun.
    cbn [CloseAllInternal] in Hrun. injection Hrun as <-. cbn [closed].
    unfold FPDF_PAGE. now rewrite omap_rev.
Qed.

(** Five pages by two threads, the third of which does not load, finished
    by the workers in the order 1, 0, 4, 2, 3. *)
Definition five_page_call : call :=
  Call true true 5 8 400000 0 5 800 600 0 0 (Some (ParallelOptions 2 0 false 0 0)).

Definition third_page_missing (i : Z) : page_env :=
  PageEnv (negb (i =? 2)) false 612 792 true.

Lemma every_loaded_page_is_closed_once_witness :
  let order := map (task_of five_page_call true) [1; 0; 4; 2; 3] in
  exists st,
    render_call V2 five_page_call third_page_missing order = Some st
    /\ closed st = [3; 4; 0; 1]
    /\ pages_ st = [].
Proof.
  intros order. eexists. split; [vm_compute; reflexivity |].
  split; [reflexivity |].
  refine (proj1 (every_loaded_page_is_closed_once V2 five_page_call third_page_missing
                   order _ _ _)).
  - vm_compute. apply Permutation_sym.
    apply (Permutation_cons_app [_] [_; _; _]).
    apply (Permutation_cons_app [] [_; _; _]).
    apply (Permutation_cons_app [_] [_]).
    apply (Permutation_cons_app [_] []).
    reflexivity.
  - vm_compute. reflexivity.
Defined.

End Pages.

(* ===================================================================== *)
(** ** The pool of writer threads of the command line front end *)

Module Writer.

(** AsyncWriterPool as an interleaving transition system, in the way of
    [Pool]: every step is what one thread does while it holds queue_mutex_
    (a wait that is let through together with what follows it under the
    lock), or the write task itself, which runs outside the lock.  A write
    task is known by a number. *)
Definition task : Type := Z.

(** A writer thread: waiting at the top of its loop, running a task it has
    taken off the queue, or returned from WorkerThread. *)
Inductive worker : Type :=
| WIdle
| WRunning (t : task)
| WExited.

Record pool := Pool {
  task_queue_ : list task;
  pending_writes_ : Z;
  stop_ : bool;
  max_queue_size_ : Z;
  workers_ : list worker;
  (* history, for the statements only *)
  submitted : list task;    (* in the order of the calls of SubmitWrite *)
  started : list task;      (* in the order in which they left the queue *)
  finished : list task      (* in the order in which the tasks returned *)
}.

(** AsyncWriterPool(num_threads, max_queue_size). *)
Definition AsyncWriterPool (num_threads : nat) (max_queue_size : Z) : pool :=
  Pool [] 0 false max_queue_size (replicate num_threads WIdle) [] [] [].

(** SubmitWrite: [None] while the caller is held back by the full queue. *)
Definition SubmitWrite (t : task) (s : pool) : option pool :=
  if (0 <? max_queue_size_ s)
     && negb (stop_ s || (Z.of_nat (List.length (task_queue_ s)) <? max_queue_size_ s))
  then None
  else Some (Pool (task_queue_ s ++ [t]) (pending_writes_ s + 1) (stop_ s)
                  (max_queue_size_ s) (workers_ s)
                  (submitted s ++ [t]) (started s) (finished s)).

(** The predicate WaitAll waits for. *)
Definition WaitAll (s : pool) : bool :=
  (pending_writes_ s =? 0)
  && match task_queue_ s with [] => true | _ => false end.

(** The first critical section of WorkerThread for thread [w]: [None]
    while the thread sleeps. *)
Definition wake (w : nat) (s : pool) : option pool :=
  match workers_ s !! w with
  | Some WIdle =>
      match task_queue_ s with
      | [] =>
          if stop_ s
          then Some (Pool [] (pending_writes_ s) (stop_ s) (max_queue_size_ s)
                          (<[w := WExited]> (workers_ s))
                          (submitted s) (started s) (finished s))
          else None
      | t :: rest =>
          Some (Pool rest (pending_writes_ s) (stop_ s) (max_queue_size_ s)
                     (<[w := WRunning t]> (workers_ s))
                     (submitted s) (started s ++ [t]) (finished s))
      end
  | _ => None
  end.

(** The task has returned: the second critical section. *)
Definition finish (w : nat) (s : pool) : option pool :=
  match workers_ s !! w with
  | Some (WRunning t) =>
      Some (Pool (task_queue_ s) (pending_writes_ s - 1) (stop_ s) (max_queue_size_ s)
                 (<[w := WIdle]> (workers_ s))
                 (submitted s) (started s) (finished s ++ [t]))
  | _ => None
  end.

(** Shutdown, up to the joins. *)
Definition Shutdown (s : pool) : pool :=
  Pool (task_queue_ s) (pending_writes_ s) true (max_queue_size_ s) (workers_ s)
       (submitted s) (started s) (finished s).

Inductive label : Type :=
| LSubmit (t : task)
| LWake (w : nat)
| LFinish (w : nat)
| LShutdown.

Definition step (s : pool) (l : label) : option pool :=
  match l with
  | LSubmit t => SubmitWrite t s
  | LWake w => wake w s
  | LFinish w => finish w s
  | LShutdown => Some (Shutdown s)
  end.

Fixpoint run (s : pool) (ls : list label) : option pool :=
  match ls with
  | [] => Some s
  | l :: rest => match step s l with
                 | Some s' => run s' rest
                 | None => None
                 end
  end.

(** The tasks that are running. *)
Definition running_task (w : worker) : option task :=
  match w with WRunning t => Some t | _ => None end.

Definition running (s : pool) : list task := omap running_task (workers_ s).

Record accounted (s : pool) : Prop := Accounted {
  acc_pending : pending_writes_ s
                = Z.of_nat (List.length (task_queue_ s) + List.length (running s));
  acc_order : submitted s = started s ++ task_queue_ s;
  acc_started : Permutation (started s) (finished s ++ running s);
  acc_bound : stop_ s = false -> 0 < max_queue_size_ s ->
              Z.of_nat (List.length (task_queue_ s)) <= max_queue_size_ s
}.

Lemma running_insert_idle (ws : list worker) : forall w t,
  ws !! w = Some (WRunning t) ->
  Permutation (omap running_task ws) (t :: omap running_task (<[w := WIdle]> ws)).
Proof.
  induction ws as [| x ws IH]; intros w t; [discriminate |].
  destruct w as [| w]; cbn.
  - intros [= ->]. reflexivity.
  - intros Hw. specialize (IH w t Hw).
    destruct (running_task x); [| exact IH].
    etransitivity; [apply perm_skip; exact IH |]. apply perm_swap.
Qed.

Lemma running_insert_other (ws : list worker) (x : worker) : forall w,
  ws !! w = Some WIdle -> running_task x = None ->
  omap running_task (<[w := x]> ws) = omap running_task ws.
Proof.
  induction ws as [| y ws IH]; intros w; [discriminate |].
  destruct w as [| w]; cbn.
  - intros [= ->] ->. reflexivity.
  - intros Hw Hx. specialize (IH w Hw Hx).
    destruct (running_task y); [f_equal |]; exact IH.
Qed.

Lemma running_insert_running (ws : list worker) (t : task) : forall w,
  ws !! w = Some WIdle ->
  Permutation (omap running_task (<[w := WRunning t]> ws)) (t :: omap running_task ws).
Proof.
  induction ws as [| y ws IH]; intros w; [discriminate |].
  destruct w as [| w]; cbn.
  - intros [= ->]. reflexivity.
  - intros Hw. specialize (IH w Hw).
    destruct (running_task y); [| exact IH].
    etransitivity; [apply perm_skip; exact IH |]. apply perm_swap.
Qed.

Lemma accounted_step (s s' : pool) (l : label) :
  accounted s -> step s l = Some s' -> accounted s'.
Proof.
  intros [Hpending Horder Hstarted Hbound].
  destruct l as [t | w | w |]; cbn [step].
  - unfold SubmitWrite.
    destruct (Z.ltb_spec 0 (max_queue_size_ s)) as [Hmax | Hmax];
      [destruct (stop_ s) eqn:Hstop;
       [| destruct (Z.ltb_spec (Z.of_nat (List.length (task_queue_ s)))
                               (max_queue_size_ s))] |];
      cbn [andb orb negb]; try discriminate; intros [= <-];
      (constructor; unfold running in *;
       cbn [task_queue_ pending_writes_ stop_ max_queue_size_ workers_
            submitted started finished];
       [rewrite length_app; cbn [List.length]; lia
       | rewrite Horder; now rewrite <- app_assoc
       | exact Hstarted
       | intros ? ?; rewrite ?length_app; cbn [List.length]; try congruence; lia]).
  - unfold wake. destruct (workers_ s !! w) as [[| t |] |] eqn:Hw; try discriminate.
    destruct (task_queue_ s) as [| t rest] eqn:Hqueue.
    + destruct (stop_ s) eqn:Hstop; [| discriminate]. intros [= <-].
      constructor; unfold running in *;
        cbn [task_queue_ pending_writes_ stop_ max_queue_size_ workers_
             submitted started finished];
        rewrite ?(running_insert_other _ WExited w Hw eq_refl); auto.
    + intros [= <-].
      pose proof (running_insert_running (workers_ s) t w Hw) as Hrun.
      constructor; unfold running in *;
        cbn [task_queue_ pending_writes_ stop_ max_queue_size_ workers_
             submitted started finished].
      * rewrite (Permutation_length Hrun). cbn [List.length] in *. lia.
      * rewrite Horder. now rewrite <- app_assoc.
      * etransitivity; [apply Permutation_app_tail; exact Hstarted |].
        etransitivity; [| apply Permutation_app_head, Permutation_sym; exact Hrun].
        solve_Permutation.
      * intros Hstop Hmax. specialize (Hbound Hstop Hmax). cbn [List.length] in Hbound.
        lia.
  - unfold finish. destruct (workers_ s !! w) as [[| t |] |] eqn:Hw; try discriminate.
    intros [= <-].
    pose proof (running_insert_idle (workers_ s) w t Hw) as Hrun.
    constructor; unfold running in *;
      cbn [task_queue_ pending_writes_ stop_ max_queue_size_ workers_
           submitted started finished]; auto.
    + rewrite (Permutation_length Hrun) in Hpending. cbn [List.length] in Hpending. lia.
    + etransitivity; [exact Hstarted |].
      etransitivity; [apply Permutation_app_head; exact Hrun |]. solve_Permutation.
  - intros [= <-]. constructor; cbn; auto. discriminate.
Qed.

Lemma accounted_run (ls : list label) : forall s s',
  accounted s -> run s ls = Some s' -> accounted s'.
Proof.
  induction ls as [| l ls IH]; intros s s' Hs; cbn [run].
  - now intros [= <-].
  - destruct (step s l) as [s1 |] eqn:Estep; [| discriminate].
    apply IH. eapply accounted_step; eassumption.
Qed.

Lemma accounted_start (num_threads : nat) (max_queue_size : Z) :
  accounted (AsyncWriterPool num_threads max_queue_size).
Proof.
  assert (Hnone : omap running_task (replicate num_threads WIdle) = []).
  { induction num_threads as [| n IH]; [reflexivity | exact IH]. }
  constructor; unfold running; cbn; rewrite ?Hnone; auto. lia.
Qed.

(** Whatever the threads do and in whatever order: the counter
    pending_writes_ is the number of tasks on the queue plus the number of
    tasks that are running; the tasks leave the queue in the order in which
    they were submitted, each at most once, and every task that has left it
    is running or has returned; while the pool is not shut down the queue
    holds at most max_queue_size tasks; and the condition WaitAll waits for
    holds exactly when every task submitted so far has returned. *)
Theorem writer_pool_accounting (num_threads : nat) (max_queue_size : Z)
                               (ls : list label) (s : pool) :
  run (AsyncWriterPool num_threads max_queue_size) ls = Some s ->
  pending_writes_ s = Z.of_nat (List.length (task_queue_ s) + List.length (running s))
  /\ submitted s = started s ++ task_queue_ s
  /\ Permutation (started s) (finished s ++ running s)
  /\ (stop_ s = false -> 0 < max_queue_size ->
      Z.of_nat (List.length (task_queue_ s)) <= max_queue_size)
  /\ (WaitAll s = true <-> Permutation (finished s) (submitted s)).
Proof.
  intros Hrun.
  assert (Hmax : forall ls s0 s1, run s0 ls = Some s1 ->
                                 max_queue_size_ s1 = max_queue_size_ s0).
  { clear. induction ls as [| l ls IH]; intros s0 s1; cbn [run].
    - now intros [= <-].
    - destruct (step s0 l) as [s' |] eqn:Estep; [| discriminate].
      intros Hrest. rewrite (IH _ _ Hrest).
      destruct l as [t | w | w |]; cbn [step] in Estep.
      + unfold SubmitWrite in Estep. destruct (_ && _); [discriminate |].
        now injection Estep as <-.
      + unfold wake in Estep.
        destruct (workers_ s0 !! w) as [[| t |] |]; try discriminate.
        destruct (task_queue_ s0); [destruct (stop_ s0); [| discriminate] |];
          now injection Estep as <-.
      + unfold finish in Estep.
        destruct (workers_ s0 !! w) as [[| t |] |]; try discriminate.
        now injection Estep as <-.
      + now injection Estep as <-. }
  pose proof (accounted_run ls _ s (accounted_start num_threads max_queue_size) Hrun)
    as [Hpending Horder Hstarted Hbound].
  rewrite (Hmax _ _ _ Hrun) in Hbound. cbn [max_queue_size_ AsyncWriterPool] in Hbound.
  split; [exact Hpending |]. split; [exact Horder |]. split; [exact Hstarted |].
  split; [exact Hbound |].
  unfold WaitAll. split.
  - intros Hwait. apply andb_true_iff in Hwait as [Hzero Hempty].
    apply Z.eqb_eq in Hzero.
    destruct (task_queue_ s) as [| t rest]; [| discriminate].
    rewrite Hzero in Hpending. cbn [List.length] in Hpending.
    destruct (running s) as [| r rs]; [| cbn in Hpending; lia].
    rewrite Horder, app_nil_r. rewrite app_nil_r in Hstarted.
    now apply Permutation_sym.
  - intros Hall. apply Permutation_length in Hall.
    apply Permutation_length in Hstarted.
    rewrite Horder in Hall. rewrite !length_app in *.
    destruct (task_queue_ s) as [| t rest]; [| cbn [List.length] in Hall; lia].
    rewrite Hpending. cbn [List.length] in *.
    replace (List.length (running s)) with O by lia. reflexivity.
Qed.

(** Two writer threads, a queue of at most one task, three writes. *)
Lemma writer_pool_accounting_witness :
  exists s,
    run (AsyncWriterPool 2 1)
        [LSubmit 7; LWake 1%nat; LSubmit 8; LWake 0%nat; LFinish 0%nat; LSubmit 9;
         LFinish 1%nat; LWake 1%nat; LFinish 1%nat] = Some s
    /\ finished s = [8; 7; 9]
    /\ SubmitWrite 9 (Pool [8] 2 false 1 [WIdle; WRunning 7] [7; 8] [7] []) = None
    /\ (WaitAll s = true <-> Permutation (finished s) (submitted s)).
Proof.
  eexists. split; [vm_compute; reflexivity |]. split; [reflexivity |].
  split; [reflexivity |].
  refine (proj2 (proj2 (proj2 (proj2
            (writer_pool_accounting 2 1
               [LSubmit 7; LWake 1%nat; LSubmit 8; LWake 0%nat; LFinish 0%nat; LSubmit 9;
                LFinish 1%nat; LWake 1%nat; LFinish 1%nat] _ _))))).
  vm_compute. reflexivity.
Defined.

End Writer.

(* ===================================================================== *)
(** ** render_pages_bulk with several threads: the exit code *)

Module Bulk.

Import Render Api Ranges.

(** What the library and the file system answer for a page: how the page
    loads and renders, whether EncodeBGRAPNG gives data, and whether the
    write_* function called for the page returns true. *)
Record page_answers := PageAnswers {
  page_env_of : page_env;
  encode_ok : bool;
  write_ok : bool
}.

(** The fields of RenderContext that parallel_render_callback reads and
    the two counters it updates. *)
Record RenderContext := Context {
  use_ppm : bool;
  use_jpeg : bool;
  use_raw : bool;
  benchmark_mode : bool;
  pages_completed : Z;
  pages_failed : Z
}.

Definition count_failed (ctx : RenderContext) : RenderContext :=
  Context (use_ppm ctx) (use_jpeg ctx) (use_raw ctx) (benchmark_mode ctx)
          (pages_completed ctx) (pages_failed ctx + 1).

Definition count_completed (ctx : RenderContext) : RenderContext :=
  Context (use_ppm ctx) (use_jpeg ctx) (use_raw ctx) (benchmark_mode ctx)
          (pages_completed ctx + 1) (pages_failed ctx).

(** parallel_render_callback. *)
Definition parallel_render_callback (ctx : RenderContext) (success : bool)
                                    (answers : page_answers) : RenderContext :=
  if negb success then count_failed ctx
  else if negb (benchmark_mode ctx) then
    if use_raw ctx then
      count_completed (if negb (write_ok answers) then count_failed ctx else ctx)
    else if use_ppm ctx then
      count_completed (if negb (write_ok answers) then count_failed ctx else ctx)
    else if use_jpeg ctx then
      count_completed (if negb (write_ok answers) then count_failed ctx else ctx)
    else if negb (encode_ok answers) then count_failed ctx
    else count_completed (if negb (write_ok answers) then count_failed ctx else ctx)
  else count_completed ctx.

(** The callbacks of a trace, applied to the context. *)
Definition callback_of (answers : Z -> page_answers) (ctx : RenderContext) (e : event)
  : RenderContext :=
  match e with
  | Callback page_index success =>
      parallel_render_callback ctx success (answers page_index)
  | _ => ctx
  end.

Fixpoint run_callbacks (path : render_task -> page_env -> option (list event))
                       (answers : Z -> page_answers) (tasks : list render_task)
                       (ctx : RenderContext) : option RenderContext :=
  match tasks with
  | [] => Some ctx
  | t :: rest =>
      match path t (page_env_of (answers (page_index t))) with
      | Some trace =>
          run_callbacks path answers rest (fold_left (callback_of answers) trace ctx)
      | None => None
      end
  end.

(** A call of FPDF_RenderPagesParallelV2 with parallel_render_callback as
    its callback: the value returned and the context afterwards; [None] is
    an undefined conversion.  The counters are atomic and only added to,
    so the order in which the workers finish, [schedule], does not show in
    them. *)
Definition render_range_parallel (schedule : list render_task -> list render_task)
                                 (answers : Z -> page_answers) (c : call)
                                 (ctx : RenderContext) : option (bool * RenderContext) :=
  match FPDF_RenderPagesParallelV2 c with
  | Rejected => Some (false, ctx)
  | Sequential tasks =>
      option_map (pair true) (run_callbacks sequential_page_v2 answers tasks ctx)
  | Pooled _ _ tasks =>
      option_map (pair true) (run_callbacks ProcessTaskV2 answers (schedule tasks) ctx)
  end.

(** The arguments of render_pages_bulk that the path with several threads
    reads after the pre-pass, with what the document answers. *)
Record bulk_args := BulkArgs {
  dpi : Q;
  arg_use_ppm : bool;
  arg_use_jpeg : bool;
  arg_use_raw : bool;
  arg_benchmark_mode : bool;
  thread_count : Z;
  form : bool;
  flags : Z;                      (* from render_quality *)
  pixel_format : Z;
  doc_pages : Z;                  (* FPDF_GetPageCount(doc) *)
  hw_threads : Z;
  doc_size : Z
}.

(** The body of the range loop for one range: the two totals afterwards. *)
Definition render_range (schedule : list render_task -> list render_task)
                        (answers : Z -> page_answers) (a : bulk_args)
                        (totals : Z * Z) (range : Z * Z) : option (Z * Z) :=
  let '(total_pages_completed, total_pages_failed) := totals in
  let '(range_start, range_length) := range in
  let first_page := page_env_of (answers range_start) in
  if negb (loads first_page)
  then Some (total_pages_completed, total_pages_failed + range_length)
  else
    match Dims.render_page_to_png_dims (dpi a) (width_pts first_page)
                                       (height_pts first_page) with
    | Dims.DimsOk width_px height_px =>
        let opts := ParallelOptions (thread_count a) 0 (form a) 0 (pixel_format a) in
        let render_ctx :=
          Context (arg_use_ppm a) (arg_use_jpeg a) (arg_use_raw a)
                  (arg_benchmark_mode a) 0 0 in
        let c := range_call (doc_pages a) (hw_threads a) (doc_size a)
                            width_px height_px (flags a) opts range in
        match render_range_parallel schedule answers c render_ctx with
        | Some (false, _) =>
            Some (total_pages_completed, total_pages_failed + range_length)
        | Some (true, render_ctx') =>
            Some (total_pages_completed + pages_completed render_ctx',
                  total_pages_failed + pages_failed render_ctx')
        | None => None
        end
    | _ => Some (total_pages_completed, total_pages_failed + range_length)
    end.

Fixpoint render_ranges_loop (schedule : list render_task -> list render_task)
                            (answers : Z -> page_answers) (a : bulk_args)
                            (ranges : list (Z * Z)) (totals : Z * Z) : option (Z * Z) :=
  match ranges with
  | [] => Some totals
  | range :: rest =>
      match render_range schedule answers a totals range with
      | Some totals' => render_ranges_loop schedule answers a rest totals'
      | None => None
      end
  end.

(** render_pages_bulk from the end of the pre-pass on, with
    [thread_count > 1]: the value returned. *)
Definition render_pages_bulk_threads (schedule : list render_task -> list render_task)
                                     (answers : Z -> page_answers) (a : bulk_args)
                                     (is_scanned_map : list bool)
                                     (start_page end_page : Z) : option Z :=
  let enable_smart_mode :=
    negb (arg_use_ppm a) && negb (arg_use_raw a) && negb (arg_benchmark_mode a) in
  let num_pages_to_render := end_page - start_page + 1 in
  let scanned_count :=
    Z.of_nat (List.length (List.filter (fun b => enable_smart_mode && b) is_scanned_map)) in
  let remaining_pages := num_pages_to_render - scanned_count in
  if remaining_pages =? 0 then Some 0
  else
    match render_ranges_loop schedule answers a
            (render_ranges enable_smart_mode is_scanned_map start_page end_page)
            (scanned_count, 0) with
    | Some (_, total_pages_failed) => Some (if 0 <? total_pages_failed then 1 else 0)
    | None => None
    end.

(** *** What the exit code says *)

(** A page has its output: it loads, a bitmap can be had for it, and its
    file is written (in benchmark mode nothing is written). *)
Definition page_written (a : bulk_args) (answers : page_answers) : bool :=
  loads (page_env_of answers) && bitmap_ok (page_env_of answers)
  && (arg_benchmark_mode a
      || (if arg_use_raw a || arg_use_ppm a || arg_use_jpeg a
          then write_ok answers
          else encode_ok answers && write_ok answers)).

(** A range is rendered: its first page loads, the size of the first page
    is accepted, and every page of the range has its output. *)
Definition range_rendered (answers : Z -> page_answers) (a : bulk_args)
                          (range : Z * Z) : Prop :=
  let first_page := page_env_of (answers (fst range)) in
  loads first_page = true
  /\ (exists width_px height_px,
        Dims.render_page_to_png_dims (dpi a) (width_pts first_page) (height_pts first_page)
        = Dims.DimsOk width_px height_px)
  /\ Forall (fun i => page_written a (answers i) = true) (pages_of_range range).

(** The context of a range: the flags of the call. *)
Definition of_args (a : bulk_args) (ctx : RenderContext) : Prop :=
  use_ppm ctx = arg_use_ppm a /\ use_jpeg ctx = arg_use_jpeg a
  /\ use_raw ctx = arg_use_raw a /\ benchmark_mode ctx = arg_benchmark_mode a.

Lemma callback_counts (a : bulk_args) (ctx : RenderContext) (answers : page_answers) :
  of_args a ctx ->
  let ctx' := parallel_render_callback ctx
                (loads (page_env_of answers) && bitmap_ok (page_env_of answers))
                answers in
  of_args a ctx'
  /\ pages_failed ctx' = pages_failed ctx + (if page_written a answers then 0 else 1).
Proof.
  intros (Hppm & Hjpeg & Hraw & Hbench). unfold parallel_render_callback, page_written.
  rewrite Hppm, Hjpeg, Hraw, Hbench. unfold of_args.
  destruct (loads _), (bitmap_ok _), (arg_benchmark_mode a), (arg_use_raw a),
    (arg_use_ppm a), (arg_use_jpeg a), (encode_ok answers), (write_ok answers);
    cbn; repeat split; try assumption; lia.
Qed.

(** A task with a size of at least 1 x 1: one callback, with success when
    the page loads and a bitmap can be had. *)
Lemma sized_task_callback (worker : bool) (answers : Z -> page_answers)
                          (t : render_task) (ctx : RenderContext) :
  1 <= width t -> 1 <= height t ->
  exists trace,
    (if worker then ProcessTaskV2 else sequential_page_v2)
      t (page_env_of (answers (page_index t))) = Some trace
    /\ fold_left (callback_of answers) trace ctx
       = parallel_render_callback ctx
           (loads (page_env_of (answers (page_index t)))
            && bitmap_ok (page_env_of (answers (page_index t))))
           (answers (page_index t)).
Proof.
  intros Hw Hh.
  assert (Hdims : actual_dims t (page_env_of (answers (page_index t)))
                  = Dims.DimsOk (width t) (height t)).
  { unfold actual_dims. destruct (Z.eqb_spec (width t) 0); [lia | reflexivity]. }
  destruct worker; unfold ProcessTaskV2, sequential_page_v2, close_or_defer, when;
    rewrite Hdims;
    destruct (loads _), (bitmap_ok _), (form_handle t), (page_collection t);
    cbn [negb app andb]; eexists; (split; [reflexivity |]); reflexivity.
Qed.

Lemma run_callbacks_counts (worker : bool) (answers : Z -> page_answers)
                           (a : bulk_args) (tasks : list render_task) :
  Forall (fun t => 1 <= width t /\ 1 <= height t) tasks ->
  forall ctx, of_args a ctx ->
  exists ctx',
    run_callbacks (if worker then ProcessTaskV2 else sequential_page_v2)
                  answers tasks ctx = Some ctx'
    /\ of_args a ctx'
    /\ pages_failed ctx <= pages_failed ctx'
    /\ (pages_failed ctx' = pages_failed ctx
        <-> Forall (fun t => page_written a (answers (page_index t)) = true) tasks).
Proof.
  induction 1 as [| t tasks [Hw Hh] _ IH]; intros ctx Hctx; cbn [run_callbacks].
  - exists ctx. split; [reflexivity |]. split; [exact Hctx |]. split; [lia |].
    split; [constructor | reflexivity].
  - destruct (sized_task_callback worker answers t ctx Hw Hh) as (trace & -> & ->).
    destruct (callback_counts a ctx (answers (page_index t)) Hctx) as [Hctx1 Hfail1].
    cbv zeta in Hctx1, Hfail1.
    destruct (IH _ Hctx1) as (ctx' & Hrun & Hctx' & Hle & Hiff).
    exists ctx'. split; [exact Hrun |]. split; [exact Hctx' |].
    rewrite Hfail1 in Hle, Hiff.
    destruct (page_written a (answers (page_index t))) eqn:Hpage.
    + split; [lia |]. rewrite Z.add_0_r in Hiff. rewrite Hiff.
      split; [intros Hall; now constructor | intros Hall].
      now apply Forall_cons_iff in Hall as [_ Hall].
    + split; [lia |]. split; [lia |]. intros Hall.
      apply Forall_cons_iff in Hall as [Hbad _]. congruence.
Qed.

Section ExitCode.

Variable schedule : list render_task -> list render_task.
Hypothesis schedule_permutes : forall tasks, Permutation (schedule tasks) tasks.

Variable answers : Z -> page_answers.
Variable a : bulk_args.

Lemma render_range_counts (totals : Z * Z) (range : Z * Z) :
  1 <= snd range -> 0 <= fst range -> fst range + snd range <= doc_pages a ->
  exists totals',
    render_range schedule answers a totals range = Some totals'
    /\ snd totals <= snd totals'
    /\ (snd totals' = snd totals <-> range_rendered answers a range).
Proof.
  destruct totals as [completed failed], range as [s n]. cbn [fst snd].
  intros Hn Hs Hdoc. unfold render_range, range_rendered. cbn [fst snd].
  destruct (loads (page_env_of (answers s))) eqn:Hloads; cbn [negb].
  2: { eexists. split; [reflexivity |]. cbn [snd]. split; [lia |].
       split; [lia | intros [Hbad _]; discriminate]. }
  pose proof (Dims.render_page_to_png_dims_spec (dpi a)
                (width_pts (page_env_of (answers s)))
                (height_pts (page_env_of (answers s)))) as Hspec.
  cbv zeta in Hspec.
  destruct (Dims.render_page_to_png_dims _ _ _) as [w h | |] eqn:Edims.
  2, 3: eexists; (split; [reflexivity |]); cbn [snd]; (split; [lia |]);
    (split; [lia | intros (_ & (? & ? & Hbad) & _); discriminate]).
  assert (Hsize : 1 <= w /\ 1 <= h).
  { destruct (_ || _) in Hspec; [discriminate |].
    destruct Hspec as (Heq & Hw' & Hh').
    assert (Ew : w = Qfloor (width_pts (page_env_of (answers s))
                             * Dims.scale_of_dpi (dpi a))) by congruence.
    assert (Eh : h = Qfloor (height_pts (page_env_of (answers s))
                             * Dims.scale_of_dpi (dpi a))) by congruence.
    lia. }
  destruct Hsize as [Hw Hh].
  set (c := range_call (doc_pages a) (hw_threads a) (doc_size a) w h (flags a)
              (ParallelOptions (thread_count a) 0 (form a) 0 (pixel_format a)) (s, n)).
  set (ctx := Context (arg_use_ppm a) (arg_use_jpeg a) (arg_use_raw a)
                (arg_benchmark_mode a) 0 0).
  assert (Hctx : of_args a ctx) by (unfold of_args; auto).
  assert (Hcall : FPDF_RenderPagesParallelV2 c = dispatch_pages c).
  { unfold FPDF_RenderPagesParallelV2, c, range_call. cbn [Api.document Api.callback
      Api.page_count Api.arg_width Api.arg_height fst snd negb orb].
    destruct (Z.leb_spec n 0); [lia |].
    destruct (Z.leb_spec w 0); [lia |].
    destruct (Z.leb_spec h 0); [lia |]. now rewrite andb_false_r. }
  pose proof (dispatch_pages_spec c) as Hd. cbv zeta in Hd.
  change (Api.start_page c) with s in Hd.
  change (Api.total_pages c) with (doc_pages a) in Hd.
  change (Api.page_count c) with n in Hd.
  destruct (Z.ltb_spec s 0); [lia |].
  destruct (Z.leb_spec (doc_pages a) s); [lia |].
  destruct (Z.leb_spec n 0); [lia |]. cbn [orb] in Hd.
  destruct Hd as (Hacc & Hpages & _).
  replace (Z.min n (doc_pages a - s)) with n in Hpages by lia.
  assert (Hsized : Forall (fun t => 1 <= width t /\ 1 <= height t)
                          (tasks_of (dispatch_pages c))).
  { apply Forall_forall. intros t Hin.
    destruct (tasks_of_dispatch_pages c t Hin) as (collection & i & ->).
    unfold c, range_call. cbn. lia. }
  assert (Hwritten : forall tasks,
             Permutation tasks (tasks_of (dispatch_pages c)) ->
             (Forall (fun t => page_written a (answers (page_index t)) = true) tasks
              <-> Forall (fun i => page_written a (answers i) = true)
                         (pages_of_range (s, n)))).
  { intros tasks Hperm. unfold pages_of_range. cbn [fst snd]. rewrite <- Hpages.
    rewrite Forall_map.
    split; apply Permutation_Forall; [exact Hperm | apply Permutation_sym; exact Hperm]. }
  unfold render_range_parallel. rewrite Hcall.
  destruct (dispatch_pages c) as [| tasks | threads max_queue tasks] eqn:Edispatch;
    [contradiction | |]; cbn [tasks_of] in *.
  - destruct (run_callbacks_counts false answers a tasks Hsized ctx Hctx)
      as (ctx' & -> & _ & Hle & Hiff).
    cbn [option_map]. eexists. split; [reflexivity |]. cbn [snd].
    cbn [pages_failed ctx] in Hle, Hiff. split; [lia |].
    rewrite <- (Hwritten tasks (Permutation_refl _)), <- Hiff.
    split; [intros Heq; split; [reflexivity | split; [eauto | lia]]
           | intros (_ & _ & Heq); lia].
  - assert (Hsized' : Forall (fun t => 1 <= width t /\ 1 <= height t) (schedule tasks)).
    { eapply Permutation_Forall; [apply Permutation_sym, schedule_permutes | exact Hsized]. }
    destruct (run_callbacks_counts true answers a (schedule tasks) Hsized' ctx Hctx)
      as (ctx' & -> & _ & Hle & Hiff).
    cbn [option_map]. eexists. split; [reflexivity |]. cbn [snd].
    cbn [pages_failed ctx] in Hle, Hiff. split; [lia |].
    rewrite <- (Hwritten (schedule tasks) (schedule_permutes tasks)), <- Hiff.
    split; [intros Heq; split; [reflexivity | split; [eauto | lia]]
           | intros (_ & _ & Heq); lia].
Qed.

Lemma render_ranges_loop_counts (ranges : list (Z * Z)) :
  Forall (fun range => 1 <= snd range /\ 0 <= fst range
                       /\ fst range + snd range <= doc_pages a) ranges ->
  forall totals,
  exists totals',
    render_ranges_loop schedule answers a ranges totals = Some totals'
    /\ snd totals <= snd totals'
    /\ (snd totals' = snd totals <-> Forall (range_rendered answers a) ranges).
Proof.
  induction 1 as [| range ranges (Hn & Hs & Hdoc) _ IH]; intros totals;
    cbn [render_ranges_loop].
  - exists totals. split; [reflexivity |]. split; [lia |].
    split; [constructor | reflexivity].
  - destruct (render_range_counts totals range Hn Hs Hdoc) as (t1 & -> & Hle1 & Hiff1).
    destruct (IH t1) as (t2 & Hrun & Hle2 & Hiff2).
    exists t2. split; [exact Hrun |]. split; [lia |]. split.
    + intros Heq. constructor; [apply Hiff1 | apply Hiff2]; lia.
    + intros Hall. apply Forall_cons_iff in Hall as [H1 H2].
      apply Hiff1 in H1. apply Hiff2 in H2. lia.
Qed.

End ExitCode.

Lemma filter_none {A : Type} (f : A -> bool) (l : list A) :
  Forall (fun x => f x = false) l -> List.filter f l = [].
Proof.
  induction 1 as [| x l Hx _ IH]; [reflexivity |]. cbn [List.filter]. now rewrite Hx.
Qed.

Lemma filter_length_all {A : Type} (f : A -> bool) (l : list A) :
  List.length (List.filter f l) = List.length l -> Forall (fun x => f x = true) l.
Proof.
  induction l as [| x l IH]; [constructor |]. cbn [List.filter].
  pose proof (List.filter_length_le f l) as Hle.
  destruct (f x) eqn:Hx; cbn [List.length]; intros Hlen.
  - constructor; [exact Hx | apply IH; lia].
  - lia.
Qed.

(** render_pages_bulk with several threads returns 0 exactly when every
    range of pages left to the renderer is rendered in full: the first page
    of the range loads and has an acceptable size, and every page of the
    range loads, gets a bitmap and has its file written; otherwise it
    returns 1.  One page without output, or one range whose first page
    cannot be used, is enough for exit code 1, and the whole range is then
    counted as failed; no conversion on this path is undefined.  Taken for
    a page range inside the document, as main checks it. *)
Theorem bulk_exit_code (schedule : list render_task -> list render_task)
                       (answers : Z -> page_answers) (a : bulk_args)
                       (is_scanned_map : list bool) (start_page end_page : Z) :
  (forall tasks, Permutation (schedule tasks) tasks) ->
  0 <= start_page -> end_page < doc_pages a ->
  List.length is_scanned_map = Z.to_nat (end_page - start_page + 1) ->
  let enable_smart_mode :=
    negb (arg_use_ppm a) && negb (arg_use_raw a) && negb (arg_benchmark_mode a) in
  let ranges := render_ranges enable_smart_mode is_scanned_map start_page end_page in
  exists code,
    render_pages_bulk_threads schedule answers a is_scanned_map start_page end_page
    = Some code
    /\ (code = 0 \/ code = 1)
    /\ (code = 0 <-> Forall (range_rendered answers a) ranges).
Proof.
  intros Hschedule Hstart Hend Hmap enable_smart_mode ranges.
  destruct (render_ranges_spec enable_smart_mode is_scanned_map start_page end_page Hstart)
    as [Hflat Hmaximal].
  fold ranges in Hflat, Hmaximal.
  unfold render_pages_bulk_threads. fold enable_smart_mode. fold ranges.
  set (scanned_count :=
         Z.of_nat (List.length (List.filter (fun b => enable_smart_mode && b)
                                            is_scanned_map))).
  destruct (Z.eqb_spec (end_page - start_page + 1 - scanned_count) 0) as [Hnone | Hsome].
  - (* every page was taken by the fast path *)
    exists 0. split; [reflexivity |]. split; [now left |].
    split; [intros _ | reflexivity].
    assert (Hmarked : Forall (fun i => unmarked enable_smart_mode is_scanned_map
                                         start_page i = false)
                             (seqZ start_page (end_page - start_page + 1))).
    { apply Forall_seqZ. intros i Hi.
      assert (Hall : Forall (fun b => enable_smart_mode && b = true) is_scanned_map).
      { apply (filter_length_all (fun b => enable_smart_mode && b)).
        subst scanned_count. lia. }
      rewrite Forall_forall in Hall. unfold unmarked, marked.
      rewrite (Hall (nth (Z.to_nat (i - start_page)) is_scanned_map false)); [reflexivity |].
      apply nth_In. lia. }
    rewrite (filter_none _ _ Hmarked) in Hflat.
    destruct ranges as [| [s n] ranges']; [constructor |].
    apply Forall_cons_iff in Hmaximal as [(Hn & _) _].
    cbn [flat_map] in Hflat. unfold pages_of_range at 1 in Hflat. cbn [fst snd] in Hflat.
    rewrite seqZ_cons in Hflat by lia. discriminate Hflat.
  - assert (Hinside : Forall (fun range => 1 <= snd range /\ 0 <= fst range
                                           /\ fst range + snd range <= doc_pages a)
                             ranges).
    { eapply Forall_impl; [| exact Hmaximal].
      intros [s n] (Hn & Hs & He & _). cbn [fst snd]. lia. }
    destruct (render_ranges_loop_counts schedule Hschedule answers a ranges Hinside
                (scanned_count, 0)) as ([completed failed] & -> & Hle & Hiff).
    cbn [snd] in Hle, Hiff.
    eexists. split; [reflexivity |].
    destruct (Z.ltb_spec 0 failed) as [Hfailed | Hfine].
    + split; [now right |]. split; [discriminate |].
      intros Hall. apply Hiff in Hall. lia.
    + split; [now left |]. split; [intros _ | reflexivity].
      apply Hiff. lia.
Qed.

(** Four pages by two threads, PNG output, the file of page 2 cannot be
    written; then the same with every file written. *)
Definition four_pages (failing : Z) (i : Z) : page_answers :=
  PageAnswers (PageEnv true false 612 792 true) true (negb (i =? failing)).

Definition png_with_two_threads : bulk_args :=
  BulkArgs 300 false false false false 2 false 1 0 4 8 400000.

Lemma bulk_exit_code_witness :
  render_pages_bulk_threads id (four_pages 2) png_with_two_threads
    [false; false; false; false] 0 3 = Some 1
  /\ render_pages_bulk_threads id (four_pages 9) png_with_two_threads
       [false; false; false; false] 0 3 = Some 0
  /\ Forall (range_rendered (four_pages 9) png_with_two_threads)
            (render_ranges true [false; false; false; false] 0 3).
Proof.
  split; [vm_compute; reflexivity |]. split; [vm_compute; reflexivity |].
  destruct (bulk_exit_code id (four_pages 9) png_with_two_threads
              [false; false; false; false] 0 3) as (code & Hrun & _ & Hiff).
  - intros tasks. reflexivity.
  - lia.
  - cbn. lia.
  - reflexivity.
  - apply Hiff.
    assert (Hcode : Some code = Some 0) by (rewrite <- Hrun; vm_compute; reflexivity).
    now injection Hcode.
Defined.

End Bulk.

(* ===================================================================== *)
(** ** PPM output *)

From Stdlib Require Import DecimalString.

Module Ppm.

Import Render.

(** What write_ppm does when the file can be created and written: it
    returns false before it creates the file, or it runs into an [int]
    overflow or a read outside [buffer], or it writes these bytes. *)
Inductive ppm_result : Type :=
| PpmRejected
| PpmUndefined
| PpmWritten (bytes : list Z).

(** [%d]. *)
Definition decimal (z : Z) : list Z :=
  map (fun c => Z.of_N (N_of_ascii c))
      (list_ascii_of_string (NilZero.string_of_int (Z.to_int z))).

(** ["P6\n%d %d\n255\n"]. *)
Definition header (width height : Z) : list Z :=
  [80; 54; 10] ++ decimal width ++ [32] ++ decimal height ++ [10; 50; 53; 53; 10].

(** The inner loop over the pixels of a line, [n] iterations left, for
    [bytes_per_pixel] source bytes to a pixel: [None] is a read outside
    the buffer. *)
Fixpoint pixel_loop (bytes_per_pixel : Z) (buffer : list Z) (src_line dest_line : Z)
                    (n : nat) (w : Z) (result : list Z) : option (list Z) :=
  match n with
  | O => Some result
  | S n' =>
      match buffer !! Z.to_nat (src_line + (w * bytes_per_pixel + 2)),
            buffer !! Z.to_nat (src_line + (w * bytes_per_pixel + 1)),
            buffer !! Z.to_nat (src_line + w * bytes_per_pixel) with
      | Some r, Some g, Some b =>
          pixel_loop bytes_per_pixel buffer src_line dest_line n' (w + 1)
            (<[Z.to_nat (dest_line + (w * 3 + 2)) := b]>
               (<[Z.to_nat (dest_line + (w * 3 + 1)) := g]>
                  (<[Z.to_nat (dest_line + w * 3) := r]> result)))
      | _, _, _ => None
      end
  end.

(** The outer loop over the lines, [n] iterations left. *)
Fixpoint line_loop (bytes_per_pixel : Z) (buffer : list Z) (stride width : Z)
                   (n : nat) (h : Z) (result : list Z) : option (list Z) :=
  match n with
  | O => Some result
  | S n' =>
      let src_line := stride * h in
      let dest_line := width * h * 3 in
      match pixel_loop bytes_per_pixel buffer src_line dest_line
                       (Z.to_nat width) 0 result with
      | Some result' => line_loop bytes_per_pixel buffer stride width n' (h + 1) result'
      | None => None
      end
  end.

(** write_ppm. *)
Definition write_ppm (buffer : list Z) (stride width height : Z)
                     (bitmap_format : bitmap_format) : ppm_result :=
  if (stride <? 0) || (width <? 0) || (height <? 0) then PpmRejected
  else if (0 <? width) && (INT_MAX / width <? height) then PpmRejected
  else
    let out_len := width * height in
    if INT_MAX / 3 <? out_len then PpmRejected
    else
      let out_len := out_len * 3 in
      let result := replicate (Z.to_nat out_len) 0 in
      let bytes_per_pixel :=
        match bitmap_format with FPDFBitmap_BGR => 3 | _ => 4 end in
      if (0 <? height)
         && ((INT_MAX <? stride * (height - 1))
             || ((0 <? width) && (INT_MAX <? (width - 1) * bytes_per_pixel + 2)))
      then PpmUndefined
      else
        match line_loop bytes_per_pixel buffer stride width (Z.to_nat height) 0 result with
        | Some result' => PpmWritten (header width height ++ result')
        | None => PpmUndefined
        end.

(** The pixel data of a PPM file for a bitmap: line after line, pixel
    after pixel, red, green and blue. *)
Definition rgb_of (bytes_per_pixel : Z) (buffer : list Z) (stride : Z) (y x : Z)
  : list Z :=
  [default 0 (buffer !! Z.to_nat (stride * y + (x * bytes_per_pixel + 2)));
   default 0 (buffer !! Z.to_nat (stride * y + (x * bytes_per_pixel + 1)));
   default 0 (buffer !! Z.to_nat (stride * y + x * bytes_per_pixel))].

Definition rgb_line (bytes_per_pixel : Z) (buffer : list Z) (stride : Z)
                    (first count : Z) (y : Z) : list Z :=
  flat_map (rgb_of bytes_per_pixel buffer stride y) (seqZ first count).

Definition rgb_data (bytes_per_pixel : Z) (buffer : list Z) (stride width : Z)
                    (first count : Z) : list Z :=
  flat_map (rgb_line bytes_per_pixel buffer stride 0 width) (seqZ first count).

Lemma three_inserts (done : list Z) (r g b : Z) (rest : list Z) (i : Z) :
  0 <= i -> Z.to_nat i = List.length done ->
  <[Z.to_nat (i + 2) := b]>
    (<[Z.to_nat (i + 1) := g]> (<[Z.to_nat i := r]> (done ++ 0 :: 0 :: 0 :: rest)))
  = done ++ r :: g :: b :: rest.
Proof.
  intros Hi Hlen.
  replace (Z.to_nat (i + 2)) with (List.length done + 2)%nat by lia.
  replace (Z.to_nat (i + 1)) with (List.length done + 1)%nat by lia.
  rewrite Hlen.
  rewrite !insert_app_r_alt by lia.
  replace (List.length done - List.length done)%nat with 0%nat by lia.
  replace (List.length done + 1 - List.length done)%nat with 1%nat by lia.
  replace (List.length done + 2 - List.length done)%nat with 2%nat by lia.
  reflexivity.
Qed.

Lemma pixel_loop_spec (bytes_per_pixel : Z) (buffer : list Z) (stride y dest_line : Z)
                       (n : nat) : forall w done rest,
  0 <= w -> 0 <= dest_line -> 0 <= stride * y -> 0 <= bytes_per_pixel ->
  Z.to_nat (dest_line + w * 3) = List.length done ->
  stride * y + (w + Z.of_nat n - 1) * bytes_per_pixel + 2 < Z.of_nat (List.length buffer)
  \/ n = O ->
  pixel_loop bytes_per_pixel buffer (stride * y) dest_line n w
             (done ++ replicate (3 * n) 0 ++ rest)
  = Some (done ++ rgb_line bytes_per_pixel buffer stride w (Z.of_nat n) y ++ rest).
Proof.
  unfold rgb_line.
  induction n as [| n IH]; intros w done rest Hw Hdest Hsrc Hbpp Hlen Hread.
  - reflexivity.
  - destruct Hread as [Hread | Hread]; [| discriminate].
    cbn [pixel_loop].
    assert (Hin : forall k, 0 <= k <= 2 ->
                   exists v, buffer !! Z.to_nat (stride * y + (w * bytes_per_pixel + k))
                             = Some v).
    { intros k Hk. apply lookup_lt_is_Some_2. nia. }
    destruct (Hin 2 ltac:(lia)) as [r Hr]. destruct (Hin 1 ltac:(lia)) as [g Hg].
    destruct (Hin 0 ltac:(lia)) as [b Hb]. rewrite Z.add_0_r in Hb.
    rewrite Hr, Hg, Hb.
    replace (3 * S n)%nat with (S (S (S (3 * n)))) by lia. cbn [replicate app].
    replace (dest_line + (w * 3 + 2)) with (dest_line + w * 3 + 2) by lia.
    replace (dest_line + (w * 3 + 1)) with (dest_line + w * 3 + 1) by lia.
    rewrite three_inserts by lia.
    replace (done ++ r :: g :: b :: replicate (3 * n) 0 ++ rest)
      with ((done ++ [r; g; b]) ++ replicate (3 * n) 0 ++ rest)
      by now rewrite <- app_assoc.
    rewrite IH; try lia.
    + rewrite <- app_assoc. do 2 f_equal.
      rewrite (seqZ_cons w) by lia. cbn [flat_map].
      unfold rgb_of at 2. rewrite Hr, Hg, Hb. cbn [default from_option id app].
      replace (Z.succ w) with (w + 1) by lia.
      replace (Z.pred (Z.of_nat (S n))) with (Z.of_nat n) by lia. reflexivity.
    + rewrite length_app. cbn [List.length]. lia.
Qed.

Lemma rgb_line_length (bytes_per_pixel : Z) (buffer : list Z) (stride y : Z) (n : nat) :
  forall w, List.length (rgb_line bytes_per_pixel buffer stride w (Z.of_nat n) y)
            = (3 * n)%nat.
Proof.
  unfold rgb_line. induction n as [| n IH]; intros w; [reflexivity |].
  rewrite seqZ_cons by lia. cbn [flat_map]. rewrite length_app.
  replace (Z.pred (Z.of_nat (S n))) with (Z.of_nat n) by lia.
  rewrite IH. cbn [rgb_of List.length]. lia.
Qed.

Lemma line_loop_spec (bytes_per_pixel : Z) (buffer : list Z) (stride : Z) (width : nat)
                     (n : nat) : forall h done,
  0 <= h -> 0 <= stride -> 3 <= bytes_per_pixel ->
  Z.to_nat (Z.of_nat width * h * 3) = List.length done ->
  Z.of_nat width * bytes_per_pixel <= stride ->
  stride * (h + Z.of_nat n) <= Z.of_nat (List.length buffer) ->
  line_loop bytes_per_pixel buffer stride (Z.of_nat width) n h
            (done ++ replicate (3 * width * n) 0)
  = Some (done ++ rgb_data bytes_per_pixel buffer stride (Z.of_nat width) h (Z.of_nat n)).
Proof.
  unfold rgb_data.
  induction n as [| n IH]; intros h done Hh Hstride Hbpp Hlen Hfits Hbuffer.
  { cbn. now rewrite Nat.mul_0_r. }
  cbn [line_loop]. rewrite Nat2Z.id.
    replace (3 * width * S n)%nat with (3 * width + 3 * width * n)%nat by lia.
    rewrite replicate_add.
    rewrite (pixel_loop_spec bytes_per_pixel buffer stride h (Z.of_nat width * h * 3)
               width 0 done (replicate (3 * width * n) 0));
      try lia; try (destruct width as [| width]; [now right | left; nia]).
    rewrite app_assoc, IH; try lia.
    - rewrite <- app_assoc. f_equal.
      rewrite (seqZ_cons h) by lia. cbn [flat_map].
      replace (Z.succ h) with (h + 1) by lia.
      replace (Z.pred (Z.of_nat (S n))) with (Z.of_nat n) by lia. reflexivity.
    - rewrite length_app, rgb_line_length.
      replace (Z.of_nat width * (h + 1) * 3)
        with (Z.of_nat width * h * 3 + Z.of_nat (3 * width)) by lia.
      rewrite Z2Nat.inj_add by nia. rewrite Hlen, Nat2Z.id. reflexivity.
Qed.

Lemma rgb_data_length (bytes_per_pixel : Z) (buffer : list Z) (stride : Z)
                      (width n : nat) :
  forall h, List.length (rgb_data bytes_per_pixel buffer stride (Z.of_nat width) h
                           (Z.of_nat n))
            = (3 * width * n)%nat.
Proof.
  unfold rgb_data. induction n as [| n IH]; intros h; [now rewrite Nat.mul_0_r |].
  rewrite seqZ_cons by lia. cbn [flat_map]. rewrite length_app.
  replace (Z.pred (Z.of_nat (S n))) with (Z.of_nat n) by lia.
  rewrite IH, rgb_line_length. lia.
Qed.

Definition bytes_per_pixel_of (bitmap_format : bitmap_format) : Z :=
  match bitmap_format with FPDFBitmap_BGR => 3 | _ => 4 end.

(** write_ppm refuses a bitmap exactly when a dimension is negative or the
    pixel data would be longer than INT_MAX bytes.  For every other bitmap
    whose lines fit the stride and lie within a buffer of at most INT_MAX
    bytes, the file is the header followed by three bytes for each pixel,
    line after line without the padding of the stride: the red, green and
    blue byte of the pixel, which the bitmap holds in the order blue,
    green, red, with the fourth byte of a four-byte pixel left out. *)
Theorem write_ppm_exact (buffer : list Z) (stride width height : Z)
                        (bitmap_format : bitmap_format) :
  (write_ppm buffer stride width height bitmap_format = PpmRejected
   <-> stride < 0 \/ width < 0 \/ height < 0 \/ INT_MAX < width * height * 3)
  /\ (0 <= width -> 0 <= height -> width * height * 3 <= INT_MAX ->
      width * bytes_per_pixel_of bitmap_format <= stride ->
      stride * height <= Z.of_nat (List.length buffer) <= INT_MAX ->
      let data := rgb_data (bytes_per_pixel_of bitmap_format) buffer stride width
                           0 height in
      write_ppm buffer stride width height bitmap_format
      = PpmWritten (header width height ++ data)
      /\ Z.of_nat (List.length data) = width * height * 3).
Proof.
  unfold write_ppm. fold (bytes_per_pixel_of bitmap_format).
  set (bpp := bytes_per_pixel_of bitmap_format).
  assert (Hbpp : 3 <= bpp <= 4) by (subst bpp; destruct bitmap_format; cbn; lia).
  unfold INT_MAX in *.
  split.
  - destruct (Z.ltb_spec stride 0); [split; [lia | reflexivity] |].
    destruct (Z.ltb_spec width 0); [split; [lia | reflexivity] |].
    destruct (Z.ltb_spec height 0); [split; [lia | reflexivity] |]. cbn [orb].
    destruct (Z.ltb_spec 0 width) as [Hpos | Hzero]; cbn [andb].
    + destruct (Z.ltb_spec (2147483647 / width) height) as [Hbig | Hfit].
      * split; [intros _ | reflexivity]. right. right. right.
        pose proof (Z.mul_succ_div_gt 2147483647 width Hpos). nia.
      * destruct (Z.ltb_spec (2147483647 / 3) (width * height)) as [Hlong | Hshort].
        -- split; [intros _ | reflexivity]. right. right. right.
           change (2147483647 / 3) with 715827882 in Hlong. lia.
        -- change (2147483647 / 3) with 715827882 in Hshort.
           split; [| lia]. intros Hrej. exfalso.
           destruct (_ && _); [discriminate |].
           destruct (line_loop _ _ _ _ _ _ _); discriminate.
    + assert (width = 0) by lia. subst width. rewrite Z.mul_0_l.
      change (2147483647 / 3 <? 0) with false. cbv iota.
      split; [| lia]. intros Hrej. exfalso.
      destruct (_ && _); [discriminate |].
      destruct (line_loop _ _ _ _ _ _ _); discriminate.
  - intros Hw Hh Hlen Hfits [Hbuffer Hmax]. cbv zeta.
    assert (Hstride : 0 <= stride) by nia.
    destruct (Z.ltb_spec stride 0); [lia |].
    destruct (Z.ltb_spec width 0); [lia |].
    destruct (Z.ltb_spec height 0); [lia |]. cbn [orb].
    assert (Hguard1 : (0 <? width) && (2147483647 / width <? height) = false).
    { destruct (Z.ltb_spec 0 width) as [Hpos | _]; [| reflexivity]. cbn [andb].
      destruct (Z.ltb_spec (2147483647 / width) height) as [Hbig |]; [| reflexivity].
      pose proof (Z.mul_succ_div_gt 2147483647 width Hpos). nia. }
    rewrite Hguard1.
    change (2147483647 / 3) with 715827882.
    destruct (Z.ltb_spec 715827882 (width * height)); [lia |].
    assert (Hdefined : (0 <? height)
                       && ((2147483647 <? stride * (height - 1))
                           || ((0 <? width) && (2147483647 <? (width - 1) * bpp + 2)))
                       = false).
    { destruct (Z.ltb_spec 0 height) as [Hpos | _]; [| reflexivity]. cbn [andb].
      destruct (Z.ltb_spec 2147483647 (stride * (height - 1))); [nia |]. cbn [orb].
      destruct (Z.ltb_spec 0 width) as [Hwpos | _]; [| reflexivity]. cbn [andb].
      destruct (Z.ltb_spec 2147483647 ((width - 1) * bpp + 2)); [nia | reflexivity]. }
    rewrite Hdefined.
    pose proof (line_loop_spec bpp buffer stride (Z.to_nat width) (Z.to_nat height) 0 [])
      as Hloop.
    rewrite !Z2Nat.id in Hloop by lia. cbn [app] in Hloop.
    replace (Z.to_nat (width * height * 3))
      with (3 * Z.to_nat width * Z.to_nat height)%nat by nia.
    rewrite Hloop; try lia; [| cbn; lia].
    split; [reflexivity |].
    pose proof (rgb_data_length bpp buffer stride (Z.to_nat width) (Z.to_nat height) 0)
      as Hdata.
    rewrite !Z2Nat.id in Hdata by lia. rewrite Hdata. nia.
Qed.

(** A bitmap of two lines of two pixels, four bytes to a pixel and a
    stride of ten bytes. *)
Lemma write_ppm_exact_witness :
  write_ppm [1; 2; 3; 255; 4; 5; 6; 255; 0; 0;
             7; 8; 9; 255; 10; 11; 12; 255; 0; 0] 10 2 2 FPDFBitmap_BGRx
  = PpmWritten ([80; 54; 10; 50; 32; 50; 10; 50; 53; 53; 10]
                ++ [3; 2; 1; 6; 5; 4; 9; 8; 7; 12; 11; 10]).
Proof.
  refine (proj1 (proj2 (write_ppm_exact
                          [1; 2; 3; 255; 4; 5; 6; 255; 0; 0;
                           7; 8; 9; 255; 10; 11; 12; 255; 0; 0] 10 2 2 FPDFBitmap_BGRx)
                       _ _ _ _ _)); cbn; unfold INT_MAX; lia.
Defined.

End Ppm.

(* ===================================================================== *)
(** ** One thread and several threads in render_pages_bulk *)

Module Threads.

Import Render Api Ranges Bulk.

(** render_page_to_png, as the calls it makes for a page.  [smart] is how
    the page leaves the smart-mode block ([Smart.render_page_to_png_smart]),
    [encoded] whether there is data to write (EncodeBGRPNG or EncodeBGRAPNG
    gives some, or the output is not PNG).  FPDFBitmap_Create(w, h, 0) is
    FPDFBitmap_CreateEx with the format BGRx. *)
Definition render_page_to_png (form : bool) (dpi : Q) (flags : Z) (page_index : Z)
                              (smart : Smart.outcome) (encoded : bool)
                              (env : page_env) : list event :=
  [LoadPage page_index]
  ++ if negb (loads env) then []
     else
       when form [OnAfterLoadPage; DoPageAAction_OPEN]
       ++ match smart with
          | Smart.PageFailed => [ClosePage]
          | Smart.WroteJpeg _ =>
              when form [DoPageAAction_CLOSE; OnBeforeClosePage] ++ [ClosePage]
          | _ =>
              match Dims.render_page_to_png_dims dpi (width_pts env) (height_pts env) with
              | Dims.DimsOk width_px height_px =>
                  [BitmapCreateEx width_px height_px FPDFBitmap_BGRx]
                  ++ if negb (bitmap_ok env) then [ClosePage]
                     else
                       [FillRect width_px height_px (fill_color_of env);
                        RenderPageBitmap width_px height_px 0 flags]
                       ++ when form [FFLDraw width_px height_px 0 flags]
                       ++ (if negb encoded then []
                           else when form [DoPageAAction_CLOSE; OnBeforeClosePage])
                       ++ [ClosePage]
              | _ => [ClosePage]
              end
          end.

(** The drawing of a page: the bitmap that is created or taken from the
    pool, and what is done to it. *)
Inductive drawing_op : Type :=
| Bitmap (width height : Z) (format : bitmap_format)
| Fill (width height fill_color : Z)
| Render (width height rotate flags : Z)
| FormDraw (width height rotate flags : Z).

Definition drawing_of (e : event) : option drawing_op :=
  match e with
  | BitmapCreateEx w h f | PoolAcquire w h f => Some (Bitmap w h f)
  | FillRect w h c => Some (Fill w h c)
  | RenderPageBitmap w h r f => Some (Render w h r f)
  | FFLDraw w h r f => Some (FormDraw w h r f)
  | _ => None
  end.

Definition drawing (trace : list event) : list drawing_op := omap drawing_of trace.

(** The call render_pages_bulk makes for a range, once the size of the
    first page of the range is accepted. *)
Definition bulk_call (a : bulk_args) (width_px height_px : Z) (range : Z * Z) : call :=
  range_call (doc_pages a) (hw_threads a) (doc_size a) width_px height_px (flags a)
             (ParallelOptions (thread_count a) 0 (form a) 0 (pixel_format a)) range.

(** With several threads render_pages_bulk draws a page as
    render_page_to_png would draw it with one thread (the same bitmap
    size and format, the same fill, the same render and form calls with the
    same flags) exactly when the pixel format is BGRx and the page has the
    pixel size of the first page of its range: every page of a range is
    drawn with the size of the first, and render_page_to_png does not know
    of the pixel format.  Taken for a page that loads and that the
    smart-mode block leaves to the renderer. *)
Theorem threads_draw_alike (a : bulk_args) (width_px height_px : Z) (range : Z * Z)
                           (t : render_task) (env : page_env) (trace : list event)
                           (encoded : bool) :
  1 <= width_px -> 1 <= height_px ->
  In t (tasks_of (FPDF_RenderPagesParallelV2 (bulk_call a width_px height_px range))) ->
  ProcessTaskV2 t env = Some trace \/ sequential_page_v2 t env = Some trace ->
  loads env = true ->
  (drawing trace
   = drawing (render_page_to_png (form a) (dpi a) (flags a) (page_index t)
                                 Smart.NormalRender encoded env)
   <-> ParallelFormatToFPDFFormat (pixel_format a) = FPDFBitmap_BGRx
       /\ Dims.render_page_to_png_dims (dpi a) (width_pts env) (height_pts env)
          = Dims.DimsOk width_px height_px).
Proof.
  intros Hw Hh Hin Hrun Hloads.
  assert (Htask : exists collection i,
             t = task_of (bulk_call a width_px height_px range) collection i).
  { unfold FPDF_RenderPagesParallelV2 in Hin.
    destruct (_ || _) in Hin; [destruct Hin |].
    destruct (_ && _) in Hin; [destruct Hin |].
    now apply tasks_of_dispatch_pages. }
  destruct Htask as (collection & i & ->).
  set (t := task_of (bulk_call a width_px height_px range) collection i) in *.
  assert (Hdims : actual_dims t env = Dims.DimsOk width_px height_px).
  { unfold actual_dims, t, task_of, bulk_call, range_call. cbn.
    destruct (Z.eqb_spec width_px 0); [lia | reflexivity]. }
  assert (Hfields : rotate t = 0 /\ Render.flags t = flags a /\ form_handle t = form a
                    /\ output_format t = pixel_format a).
  { unfold t, task_of, bulk_call, range_call. cbn. auto. }
  destruct Hfields as (Hrot & Hflags & Hform & Hformat).
  assert (Hgray : ParallelFormatToFPDFFormat (pixel_format a) = FPDFBitmap_BGRx ->
                  render_flags_of t = flags a).
  { unfold render_flags_of, ParallelFormatToFPDFFormat. rewrite Hformat, Hflags.
    unfold FPDF_PARALLEL_FORMAT_BGR, FPDF_PARALLEL_FORMAT_GRAY.
    destruct (pixel_format a =? 1); [discriminate |].
    destruct (pixel_format a =? 2); [discriminate | reflexivity]. }
  unfold ProcessTaskV2, sequential_page_v2, render_page_to_png, close_or_defer, when
    in Hrun |- *.
  rewrite Hdims, Hloads, Hrot, Hflags, Hform, Hformat in Hrun.
  rewrite Hloads. cbn [negb app] in Hrun |- *.
  split.
  - intros Hsame.
    destruct (Dims.render_page_to_png_dims _ _ _) as [w h | |] eqn:Ecli.
    + destruct (bitmap_ok env), (form a), (page_collection t), encoded;
        cbn [negb app] in Hrun, Hsame; destruct Hrun as [[= <-] | [= <-]];
        cbn in Hsame; injection Hsame as -> -> ->; auto.
    + exfalso.
      destruct (bitmap_ok env), (form a), (page_collection t);
        cbn [negb app] in Hrun, Hsame; destruct Hrun as [[= <-] | [= <-]];
        cbn in Hsame; discriminate Hsame.
    + exfalso.
      destruct (bitmap_ok env), (form a), (page_collection t);
        cbn [negb app] in Hrun, Hsame; destruct Hrun as [[= <-] | [= <-]];
        cbn in Hsame; discriminate Hsame.
  - intros [Hbgrx Hcli]. rewrite Hcli. specialize (Hgray Hbgrx).
    rewrite Hgray, Hbgrx in Hrun.
    destruct (bitmap_ok env), (form a), (page_collection t), encoded;
      cbn [negb app] in Hrun |- *; destruct Hrun as [[= <-] | [= <-]]; reflexivity.
Qed.

(** A four-page document rendered at 300 DPI by two threads, its first
    page US Letter: a second page of the same size, and an A4 page in its
    place. *)
Definition a4_env : page_env := PageEnv true false 595 842 true.

Lemma threads_draw_alike_witness :
  let c := bulk_call png_with_two_threads 2549 3299 (0, 4) in
  let t := task_of c true 1 in
  (exists trace,
     ProcessTaskV2 t letter_env = Some trace
     /\ drawing trace
        = drawing (render_page_to_png false 300 1 1 Smart.NormalRender true letter_env))
  /\ (exists trace,
        ProcessTaskV2 t a4_env = Some trace
        /\ drawing trace = [Bitmap 2549 3299 FPDFBitmap_BGRx;
                            Fill 2549 3299 4294967295; Render 2549 3299 0 1]
        /\ drawing (render_page_to_png false 300 1 1 Smart.NormalRender true a4_env)
           = [Bitmap 2479 3508 FPDFBitmap_BGRx;
              Fill 2479 3508 4294967295; Render 2479 3508 0 1]).
Proof.
  intros c t. split.
  - eexists. split; [vm_compute; reflexivity |].
    refine (proj2 (threads_draw_alike png_with_two_threads 2549 3299 (0, 4) t letter_env
                     _ true _ _ _ _ _) _).
    + lia.
    + lia.
    + vm_compute. tauto.
    + left. vm_compute. reflexivity.
    + reflexivity.
    + split; vm_compute; reflexivity.
  - eexists. split; [vm_compute; reflexivity |]. split; vm_compute; reflexivity.
Defined.

(** *** The threads of a worker process *)

(** The call render_pages_worker makes for a range: no size, and the DPI
    in the options. *)
Definition worker_call (a : bulk_args) (range : Z * Z) : call :=
  range_call (doc_pages a) (hw_threads a) (doc_size a) 0 0 (flags a)
             (ParallelOptions (thread_count a) 0 (form a) (dpi a) (pixel_format a)) range.

(** The threads of a worker process draw every page that
    render_page_to_png accepts with the size that render_page_to_png gives
    it, whatever the sizes of the other pages; the drawing is the same,
    call for call, exactly when the pixel format is BGRx. *)
Theorem worker_threads_draw_alike (a : bulk_args) (range : Z * Z)
                                  (t : render_task) (env : page_env)
                                  (trace : list event) (encoded : bool)
                                  (width_px height_px : Z) :
  Dims.Qltb 0 (dpi a) = true ->
  In t (tasks_of (FPDF_RenderPagesParallelV2 (worker_call a range))) ->
  ProcessTaskV2 t env = Some trace \/ sequential_page_v2 t env = Some trace ->
  loads env = true ->
  Dims.render_page_to_png_dims (dpi a) (width_pts env) (height_pts env)
  = Dims.DimsOk width_px height_px ->
  In (Bitmap width_px height_px (ParallelFormatToFPDFFormat (pixel_format a)))
     (drawing trace)
  /\ (drawing trace
      = drawing (render_page_to_png (form a) (dpi a) (flags a) (page_index t)
                                    Smart.NormalRender encoded env)
      <-> ParallelFormatToFPDFFormat (pixel_format a) = FPDFBitmap_BGRx).
Proof.
  intros Hdpi Hin Hrun Hloads Hcli.
  assert (Htask : exists collection i, t = task_of (worker_call a range) collection i).
  { unfold FPDF_RenderPagesParallelV2 in Hin.
    destruct (_ || _) in Hin; [destruct Hin |].
    destruct (_ && _) in Hin; [destruct Hin |].
    now apply tasks_of_dispatch_pages. }
  destruct Htask as (collection & i & ->).
  set (t := task_of (worker_call a range) collection i) in *.
  assert (Hdims : actual_dims t env = Dims.DimsOk width_px height_px).
  { unfold actual_dims.
    change (width t) with 0. change (height t) with 0. change (Render.dpi t) with (dpi a).
    rewrite Hdpi. cbn [Z.eqb andb]. now apply DimsLaws.accepted_by_both. }
  assert (Hfields : rotate t = 0 /\ Render.flags t = flags a /\ form_handle t = form a
                    /\ output_format t = pixel_format a).
  { unfold t, task_of, worker_call, range_call. cbn. auto. }
  destruct Hfields as (Hrot & Hflags & Hform & Hformat).
  assert (Hgray : ParallelFormatToFPDFFormat (pixel_format a) = FPDFBitmap_BGRx ->
                  render_flags_of t = flags a).
  { unfold render_flags_of, ParallelFormatToFPDFFormat. rewrite Hformat, Hflags.
    unfold FPDF_PARALLEL_FORMAT_BGR, FPDF_PARALLEL_FORMAT_GRAY.
    destruct (pixel_format a =? 1); [discriminate |].
    destruct (pixel_format a =? 2); [discriminate | reflexivity]. }
  unfold ProcessTaskV2, sequential_page_v2, render_page_to_png, close_or_defer, when
    in Hrun |- *.
  rewrite Hdims, Hloads, Hrot, Hflags, Hform, Hformat in Hrun.
  rewrite Hloads, Hcli. cbn [negb app] in Hrun |- *.
  split; [| split].
  - destruct (bitmap_ok env), (form a), (page_collection t);
      cbn [negb app] in Hrun; destruct Hrun as [[= <-] | [= <-]]; cbn; auto.
  - intros Hsame.
    destruct (bitmap_ok env), (form a), (page_collection t), encoded;
      cbn [negb app] in Hrun, Hsame; destruct Hrun as [[= <-] | [= <-]];
      cbn in Hsame; now injection Hsame.
  - intros Hbgrx. specialize (Hgray Hbgrx). rewrite Hgray, Hbgrx in Hrun.
    destruct (bitmap_ok env), (form a), (page_collection t), encoded;
      cbn [negb app] in Hrun |- *; destruct Hrun as [[= <-] | [= <-]]; reflexivity.
Qed.

Lemma worker_threads_draw_alike_witness :
  let t := task_of (worker_call png_with_two_threads (0, 4)) true 1 in
  exists trace,
    ProcessTaskV2 t a4_env = Some trace
    /\ drawing trace
       = drawing (render_page_to_png false 300 1 1 Smart.NormalRender true a4_env)
    /\ In (Bitmap 2479 3508 FPDFBitmap_BGRx) (drawing trace).
Proof.
  intros t. eexists. split; [vm_compute; reflexivity |].
  match goal with
  | |- drawing ?tr = _ /\ _ =>
      destruct (worker_threads_draw_alike png_with_two_threads (0, 4) t a4_env tr true
                  2479 3508) as [Hbitmap Hsame]
  end.
  - reflexivity.
  - vm_compute. tauto.
  - left. vm_compute. reflexivity.
  - reflexivity.
  - vm_compute. reflexivity.
  - split; [apply Hsame; reflexivity | exact Hbitmap].
Defined.

End Threads.
